(** * AICCA web client: session protocol, store and result adapter

  A shallow embedding of three TypeScript sources of the web package:

  - [lib/adapters/field-adapter.ts]: the field normalisation adapter
    ([adaptToolResult] and its helpers);
  - [store/useAppStore.ts]: the zustand session store;
  - the [SocketManager] class of [lib/query-client.ts] (connection
    handling, the inbound message state machine, chunked upload).

  The programs are dynamically typed at their boundary (inbound messages
  and tool payloads are [any]), so the embedding starts from a small model
  of JavaScript values.  Console output and toast notifications are not
  part of the modelled state. *)

From Stdlib Require Import Ascii String QArith Qround Lia Lqa.
From stdpp Require Import base option list strings.

Local Open Scope string_scope.
Local Open Scope list_scope.
Local Set Warnings "-register-all".

(** ** JavaScript values *)

Module JS.

(** Numbers are exact rationals plus [NaN].  Infinities and the rounding
    of IEEE doubles are not represented. *)
Inductive number : Type :=
| NaN
| Num (q : Q).

(** A value as produced by [JSON.parse], extended with [undefined].
    Objects are association lists from property names to values; a
    property is looked up at its first occurrence. *)
Inductive value : Type :=
| VUndef
| VNull
| VBool (b : bool)
| VNum (n : number)
| VStr (s : string)
| VArr (items : list value)
| VObj (fields : list (string * value)).

Definition int (z : Z) : value := VNum (Num (inject_Z z)).

(** Conversions that the language delegates to its runtime library: the
    numeric-literal reader used by [ToNumber] on strings, the number
    printer, and [toString] of arrays and objects. *)
Class Runtime : Type := {
  StringToNumber : string -> number;
  NumberToString : number -> string;
  ObjectToString : value -> string
}.

Definition is_zero (q : Q) : bool := Qeq_bool q 0%Q.

(** [ToBoolean]. *)
Definition truthy (v : value) : bool :=
  match v with
  | VUndef | VNull => false
  | VBool b => b
  | VNum NaN => false
  | VNum (Num q) => negb (is_zero q)
  | VStr s => negb (String.eqb s EmptyString)
  | VArr _ | VObj _ => true
  end.

Definition nullish (v : value) : bool :=
  match v with
  | VUndef | VNull => true
  | _ => false
  end.

(** [a || b] and [a && b] return one of their operands. *)
Definition or (a b : value) : value := if truthy a then a else b.
Definition and (a b : value) : value := if truthy a then b else a.
Definition not (a : value) : bool := negb (truthy a).

Fixpoint lookup_field (k : string) (fs : list (string * value)) : value :=
  match fs with
  | [] => VUndef
  | (k', v) :: fs' => if String.eqb k k' then v else lookup_field k fs'
  end.

(** Property read [v?.[k]].  On a nullish receiver the optional chain
    yields [undefined]; a plain read [v.k] throws there, and every plain
    read in the sources is modelled together with the guard that protects
    it.  Strings and arrays answer [length] (a string is taken as the
    sequence of its code units); none of the other property names read by
    the sources is defined on a primitive or inherited from
    [Object.prototype] or [Array.prototype]. *)
Definition prop (v : value) (k : string) : value :=
  match v with
  | VObj fs => lookup_field k fs
  | VStr s => if String.eqb k "length" then int (Z.of_nat (String.length s)) else VUndef
  | VArr l => if String.eqb k "length" then int (Z.of_nat (length l)) else VUndef
  | _ => VUndef
  end.

(** A dotted path of optional reads. *)
Definition path (v : value) (ks : list string) : value :=
  fold_left prop ks v.

Definition num_eqb (a b : number) : bool :=
  match a, b with
  | Num x, Num y => Qeq_bool x y
  | _, _ => false
  end.

(** [a === b].  Values carry no object identity: a comparison in which an
    array or an object takes part answers [false], which is what two
    separately parsed values give. *)
Definition strict_eq (a b : value) : bool :=
  match a, b with
  | VUndef, VUndef => true
  | VNull, VNull => true
  | VBool x, VBool y => Bool.eqb x y
  | VNum x, VNum y => num_eqb x y
  | VStr x, VStr y => String.eqb x y
  | _, _ => false
  end.

(** [SameValueZero], the key comparison of [Map]. *)
Definition same_value_zero (a b : value) : bool :=
  match a, b with
  | VNum NaN, VNum NaN => true
  | _, _ => strict_eq a b
  end.

Definition is_string (v : value) : bool :=
  match v with VStr _ => true | _ => false end.

Definition is_number (v : value) : bool :=
  match v with VNum _ => true | _ => false end.

(** *** Arithmetic on numbers *)

Definition lift2 (f : Q -> Q -> Q) (a b : number) : number :=
  match a, b with
  | Num x, Num y => Num (f x y)
  | _, _ => NaN
  end.

Definition add : number -> number -> number := lift2 Qplus.
Definition sub : number -> number -> number := lift2 Qminus.
Definition mul : number -> number -> number := lift2 Qmult.

(** A zero divisor would give an infinity or [NaN]; the sources only
    divide by the width of the range [[0, 1]] and by a positive array
    length. *)
Definition div (a b : number) : number :=
  match a, b with
  | Num x, Num y => if is_zero y then NaN else Num (x / y)%Q
  | _, _ => NaN
  end.

Definition Qmin (x y : Q) : Q := if Qle_bool x y then x else y.
Definition Qmax (x y : Q) : Q := if Qle_bool x y then y else x.

Definition Math_min : number -> number -> number := lift2 Qmin.
Definition Math_max : number -> number -> number := lift2 Qmax.

(** [Math.round] rounds halves towards positive infinity. *)
Definition Math_round (a : number) : number :=
  match a with
  | NaN => NaN
  | Num x => Num (inject_Z (Qfloor (x + (1 # 2))))
  end.

Section Conversions.
Context {rt : Runtime}.

Definition ToString (v : value) : string :=
  match v with
  | VUndef => "undefined"
  | VNull => "null"
  | VBool true => "true"
  | VBool false => "false"
  | VNum n => NumberToString n
  | VStr s => s
  | VArr _ | VObj _ => ObjectToString v
  end.

Definition ToNumber (v : value) : number :=
  match v with
  | VUndef => NaN
  | VNull => Num 0
  | VBool true => Num 1
  | VBool false => Num 0
  | VNum n => n
  | VStr s => StringToNumber s
  | VArr _ | VObj _ => StringToNumber (ObjectToString v)
  end.

(** [a + b]: concatenation as soon as one operand is (or converts to)
    a string, numeric addition otherwise. *)
Definition plus (a b : value) : value :=
  let stringy v := match v with VStr _ | VArr _ | VObj _ => true | _ => false end in
  if stringy a || stringy b
  then VStr (ToString a +:+ ToString b)
  else VNum (add (ToNumber a) (ToNumber b)).

End Conversions.

(** *** Strings *)

Definition lower_ascii (c : ascii) : ascii :=
  let n := nat_of_ascii c in
  if (65 <=? n)%nat && (n <=? 90)%nat then ascii_of_nat (n + 32) else c.

(** [toLowerCase], on the ASCII letters. *)
Fixpoint toLowerCase (s : string) : string :=
  match s with
  | EmptyString => EmptyString
  | String c s' => String (lower_ascii c) (toLowerCase s')
  end.

(** The strings made of ASCII characters only.  On these [toLowerCase]
    above is the language's; beyond them the language also lower-cases
    letters that the function above leaves as they are. *)
Definition is_ascii (s : string) : bool :=
  forallb (fun c => (nat_of_ascii c <? 128)%nat) (list_ascii_of_string s).

Definition startsWith (p s : string) : bool := String.prefix p s.

Fixpoint includes (needle s : string) : bool :=
  String.prefix needle s ||
  match s with
  | EmptyString => false
  | String _ s' => includes needle s'
  end.

(** [s.substring(n)] *)
Fixpoint substring_from (n : nat) (s : string) : string :=
  match n, s with
  | O, _ => s
  | S n', String _ s' => substring_from n' s'
  | S _, EmptyString => EmptyString
  end.

(** [s.split(sep).pop()] for a one-character separator: the part of [s]
    after the last occurrence of [sep], all of [s] when there is none. *)
Fixpoint last_segment (sep : ascii) (s : string) : string :=
  match s with
  | EmptyString => EmptyString
  | String c s' =>
      if Ascii.eqb c sep then last_segment sep s'
      else if includes (String sep EmptyString) s' then last_segment sep s'
      else s
  end.

(** Neither an array nor an object: a value that is fully described by
    its content. *)
Definition primitive (v : value) : bool :=
  match v with
  | VArr _ | VObj _ => false
  | _ => true
  end.

(** A runtime for running examples.  Its conversions answer [NaN] and the
    empty string; no example depends on them. *)
Definition blind_runtime : Runtime :=
  {| StringToNumber := fun _ => NaN;
     NumberToString := fun _ => EmptyString;
     ObjectToString := fun _ => EmptyString |}.

(** *** Abrupt completion *)

(** The result of a call that may end in a thrown [TypeError]. *)
Inductive completion (A : Type) : Type :=
| Return (a : A)
| Throw (error : string).
Arguments Return {A} a.
Arguments Throw {A} error.

End JS.

(** ** The field normalisation adapter ([field-adapter.ts]) *)

Module Adapter.
Import JS.

Inductive DetectionType : Type := deepfake | ai_generated | mixed | unknown.

Record AiDetection : Type := {
  score : number;
  type : DetectionType;
  confidence : value
}.

Record DetailScore : Type := {
  index : nat;
  detail_score : value;
  text : value
}.

Record C2paValidation : Type := {
  valid : value;
  hasCredential : value;
  tampering : value;
  trustStatus : value
}.

Record Metadata : Type := {
  anomalies : value;
  details : value
}.

(** [Partial<UnifiedAnalysisResult>]: every field may be missing.  The
    adapters build partial results and [adaptToolResult] returns the same
    object after it has assigned [riskScore]. *)
Record UnifiedAnalysisResult : Type := {
  riskScore : option number;
  aiDetection : option AiDetection;
  detailScores : option (list DetailScore);
  c2paValidation : option C2paValidation;
  metadata : option Metadata;
  rawData : option value
}.

(** [{ ...a, ...b }] *)
Definition spread (a b : UnifiedAnalysisResult) : UnifiedAnalysisResult :=
  let pick {A} (x y : option A) := match y with Some _ => y | None => x end in
  {| riskScore := pick (riskScore a) (riskScore b);
     aiDetection := pick (aiDetection a) (aiDetection b);
     detailScores := pick (detailScores a) (detailScores b);
     c2paValidation := pick (c2paValidation a) (c2paValidation b);
     metadata := pick (metadata a) (metadata b);
     rawData := pick (rawData a) (rawData b) |}.

(** [FIELD_MAPPINGS] *)
Definition deepfake_score_fields : list string := ["deepfake_score"; "score"; "probability"].
Definition deepfake_confidence_fields : list string := ["confidence"; "certainty"].
Definition ai_generated_score_fields : list string := ["ai_generated_score"; "ai_score"; "score"].
Definition ai_generated_confidence_fields : list string := ["confidence"; "certainty"].
Definition text_score_fields : list string := ["score"; "ai_probability"].
Definition text_sentences_fields : list string := ["sentence_scores"; "sentences"; "details"].
Definition c2pa_valid_fields : list string := ["is_valid"; "valid"; "validation_status"].
Definition c2pa_tampering_fields : list string := ["tampering_detected"; "tampered"; "modified"].

(** [field.split('.')] *)
Fixpoint split_dots (acc : string) (s : string) : list string :=
  match s with
  | EmptyString => [acc]
  | String c s' =>
      if Ascii.eqb c "."%char then acc :: split_dots EmptyString s'
      else split_dots (acc +:+ String c EmptyString) s'
  end.

Fixpoint extractField_loop (data : value) (possibleFields : list string) : value :=
  match possibleFields with
  | [] => VUndef
  | field :: rest =>
      let v := path data (split_dots EmptyString field) in
      if negb (strict_eq v VUndef) then v else extractField_loop data rest
  end.

Definition extractField (data : value) (possibleFields : list string) : value :=
  if JS.not data then VUndef else extractField_loop data possibleFields.

(** The range the interface documents for [riskScore] and for the
    normalised scores: a number between 0 and 100. *)
Definition in_range (n : number) : Prop :=
  match n with
  | Num q => (0 <= q /\ q <= 100)%Q
  | NaN => False
  end.

(** The default [originalRange]. *)
Definition default_range : Q * Q := (0%Q, 1%Q).

Section WithRuntime.
Context {rt : Runtime}.

Definition normalizeScore (score : value) (originalRange : Q * Q) : number :=
  if strict_eq score VUndef || strict_eq score VNull then Num 0
  else
    let '(min, max) := originalRange in
    let normalized :=
      mul (div (sub (ToNumber score) (Num min)) (sub (Num max) (Num min))) (Num 100) in
    Math_max (Num 0) (Math_min (Num 100) normalized).



Definition adaptDeepfakeResult (data : value) : UnifiedAnalysisResult :=
  if truthy (prop data "video_analysis") then
    let videoAnalysis := prop data "video_analysis" in
    if truthy (prop videoAnalysis "comprehensive_mode") then
      let facial := prop videoAnalysis "facial_analysis" in
      let general := prop videoAnalysis "general_ai_analysis" in
      let facialScore : Q :=
        if truthy (JS.or (prop facial "average_deepfake_score") (prop facial "error"))
        then 0%Q else 50%Q in
      let aiScore : Q :=
        if truthy (JS.or (prop general "average_ai_score") (prop general "error"))
        then 0%Q else 50%Q in
      {| riskScore := None;
         aiDetection := Some
           {| score := normalizeScore (VNum (Math_max (Num facialScore) (Num aiScore))) (0%Q, 1%Q);
              type := mixed;
              confidence := VNum (Num (7 # 10)%Q) |};
         detailScores := None;
         c2paValidation := None;
         metadata := Some
           {| anomalies := if truthy (prop facial "error") then int 1 else int 0;
              details := VObj [("facial", facial); ("ai", general);
                               ("model", JS.or (prop videoAnalysis "model_used")
                                               (VStr "comprehensive"))] |};
         rawData := Some data |}
    else
      let score :=
        extractField videoAnalysis
          ["average_deepfake_score"; "average_ai_score"; "deepfake_score"] in
      {| riskScore := None;
         aiDetection := Some
           {| score := normalizeScore score (0%Q, 1%Q);
              type := if strict_eq (prop videoAnalysis "model_used") (VStr "genai")
                      then ai_generated else deepfake;
              confidence := VNum (Num (8 # 10)%Q) |};
         detailScores := None; c2paValidation := None; metadata := None;
         rawData := Some data |}
  else if truthy (prop data "sightengine_analysis") then
    let analysis := prop data "sightengine_analysis" in
    let score :=
      JS.or (JS.or (prop analysis "deepfake_score") (prop analysis "ai_generated_score"))
            (int 0) in
    {| riskScore := None;
       aiDetection := Some
         {| score := normalizeScore score (0%Q, 1%Q);
            type := if truthy (prop analysis "deepfake_score") then deepfake else ai_generated;
            confidence := VNum (Num (9 # 10)%Q) |};
       detailScores := None; c2paValidation := None; metadata := None;
       rawData := Some data |}
  else if truthy (prop data "error") then
    {| riskScore := None;
       aiDetection := Some {| score := Num 0; type := unknown; confidence := int 0 |};
       detailScores := None; c2paValidation := None;
       metadata := Some {| anomalies := int 1;
                           details := VObj [("error", prop data "error")] |};
       rawData := Some data |}
  else
    let score := extractField data deepfake_score_fields in
    let confidence := extractField data deepfake_confidence_fields in
    {| riskScore := None;
       aiDetection := Some
         {| score := normalizeScore score default_range;
            type := deepfake;
            confidence := JS.or confidence (int 0) |};
       detailScores := None; c2paValidation := None; metadata := None;
       rawData := Some data |}.

Definition adaptAIGeneratedResult (data : value) : UnifiedAnalysisResult :=
  let score := extractField data ai_generated_score_fields in
  let confidence := extractField data ai_generated_confidence_fields in
  {| riskScore := None;
     aiDetection := Some
       {| score := normalizeScore score default_range;
          type := ai_generated;
          confidence := JS.or confidence (int 0) |};
     detailScores := None; c2paValidation := None; metadata := None;
     rawData := Some data |}.

(** The callback of [sentences.map]. *)
Definition detail_of (index : nat) (item : value) : DetailScore :=
  {| index := index;
     detail_score := if is_number item then item else JS.or (prop item "score") (int 0);
     text := prop item "text" |}.

(** [sentences?.map(...)]: [undefined] on a nullish receiver, the mapped
    array on an array; any other receiver has no callable [map] and the
    call throws. *)
Definition map_sentences (sentences : value) : completion (option (list DetailScore)) :=
  match sentences with
  | VUndef | VNull => Return None
  | VArr items => Return (Some (imap detail_of items))
  | _ => Throw "TypeError: sentences?.map is not a function"
  end.

Definition adaptTextResult (data : value) : completion UnifiedAnalysisResult :=
  let score := extractField data text_score_fields in
  let sentences := extractField data text_sentences_fields in
  match map_sentences sentences with
  | Throw e => Throw e
  | Return detailScores =>
      Return
        {| riskScore := None;
           aiDetection := Some
             {| score := normalizeScore score default_range;
                type := ai_generated;
                confidence := int 0 |};
           detailScores := detailScores;
           c2paValidation := None; metadata := None;
           rawData := Some data |}
  end.

Definition adaptC2PAResult (data : value) : UnifiedAnalysisResult :=
  if truthy (prop data "validation_report") then
    let report := prop data "validation_report" in
    let hasCredential :=
      if negb (strict_eq (prop report "manifest_store") VUndef) then VBool true
      else prop data "has_manifest" in
    let isValid :=
      JS.or (prop report "is_valid")
            (JS.and hasCredential (VBool (JS.not (prop report "validation_errors")))) in
    {| riskScore := None; aiDetection := None; detailScores := None;
       c2paValidation := Some
         {| valid := isValid;
            hasCredential := hasCredential;
            tampering := JS.or (prop report "tampering_detected") (VBool false);
            trustStatus := JS.or (prop report "trust_status") (VStr "unknown") |};
       metadata := Some
         {| anomalies := JS.or (prop (prop report "validation_errors") "length") (int 0);
            details := VObj [("manifest_id", prop report "manifest_id");
                             ("errors", prop report "validation_errors")] |};
       rawData := Some data |}
  else if truthy (JS.or (prop data "error")
                        (VBool (strict_eq (prop data "status") (VStr "error")))) then
    {| riskScore := None; aiDetection := None; detailScores := None;
       c2paValidation := Some
         {| valid := VBool false;
            hasCredential := VBool false;
            tampering := VBool false;
            trustStatus := VStr "error" |};
       metadata := Some
         {| anomalies := int 1;
            details := VObj [("error", JS.or (prop data "error") (prop data "message"))] |};
       rawData := Some data |}
  else
    let valid := extractField data c2pa_valid_fields in
    let tampering := extractField data c2pa_tampering_fields in
    {| riskScore := None; aiDetection := None; detailScores := None;
       c2paValidation := Some
         {| valid := VBool (truthy valid);
            hasCredential :=
              if negb (strict_eq (prop data "manifest_store") VUndef) then VBool true
              else prop data "has_manifest";
            tampering := VBool (truthy tampering);
            trustStatus := path data ["validation_analysis"; "trust_status"] |};
       metadata := None;
       rawData := Some data |}.

(** The penalty contributed by a credential validation, if any. *)
Definition c2pa_scores (c : C2paValidation) : list number :=
  if JS.not (valid c) || truthy (tampering c) then [Num 80]
  else if truthy (JS.and (hasCredential c) (valid c)) then [Num 20]
  else [].

Definition calculateRiskScore (result : UnifiedAnalysisResult) : number :=
  let scores : list number :=
    (match aiDetection result with
     | Some ai => [score ai]
     | None => []
     end
     ++ match c2paValidation result with
        | Some c => c2pa_scores c
        | None => []
        end
     ++ match metadata result with
        | Some m =>
            if truthy (anomalies m)
            then [Math_min (Num 100) (mul (ToNumber (anomalies m)) (Num 10))]
            else []
        | None => []
        end)%list in
  if (0 <? length scores)%nat
  then Math_round (div (fold_left add scores (Num 0))
                       (Num (inject_Z (Z.of_nat (length scores)))))
  else Num 50.

Definition adaptToolResult (toolName : string) (data : value)
  : completion UnifiedAnalysisResult :=
  let result :=
    {| riskScore := None; aiDetection := None; detailScores := None;
       c2paValidation := None; metadata := None; rawData := Some data |} in
  let toolNameLower := toLowerCase toolName in
  let adapted : completion UnifiedAnalysisResult :=
    if includes "deepfake" toolNameLower then
      Return (spread result (adaptDeepfakeResult data))
    else if includes "ai" toolNameLower || includes "detect" toolNameLower then
      Return (spread result (adaptAIGeneratedResult data))
    else if includes "text" toolNameLower then
      match adaptTextResult data with
      | Return r => Return (spread result r)
      | Throw e => Throw e
      end
    else if includes "c2pa" toolNameLower then
      Return (spread result (adaptC2PAResult data))
    else Return result in
  match adapted with
  | Throw e => Throw e
  | Return result =>
      Return
        {| riskScore := Some (calculateRiskScore result);
           aiDetection := aiDetection result;
           detailScores := detailScores result;
           c2paValidation := c2paValidation result;
           metadata := metadata result;
           rawData := rawData result |}
  end.

End WithRuntime.


Definition selects_c2pa (toolName : string) : bool :=
  let l := toLowerCase toolName in
  negb (includes "deepfake" l) && negb (includes "ai" l || includes "detect" l)
  && negb (includes "text" l) && includes "c2pa" l.

Definition selects_ai (toolName : string) : bool :=
  let l := toLowerCase toolName in
  negb (includes "deepfake" l) && (includes "ai" l || includes "detect" l).

End Adapter.

(** ** The session store ([useAppStore]) *)

(** [Map], as the insertion-ordered list of its entries. *)
Module JSMap.
Import JS.

Definition t (V : Type) : Type := list (value * V).

Fixpoint get {V} (m : t V) (k : value) : option V :=
  match m with
  | [] => None
  | (k', v) :: m' => if same_value_zero k' k then Some v else get m' k
  end.

Definition has {V} (m : t V) (k : value) : bool :=
  match get m k with Some _ => true | None => false end.

(** [set] keeps the position of an existing key and appends a new one. *)
Fixpoint set {V} (m : t V) (k : value) (v : V) : t V :=
  match m with
  | [] => [(k, v)]
  | (k', v') :: m' =>
      if same_value_zero k' k then (k', v) :: m' else (k', v') :: set m' k v
  end.

Fixpoint delete {V} (m : t V) (k : value) : t V :=
  match m with
  | [] => []
  | (k', v') :: m' =>
      if same_value_zero k' k then m' else (k', v') :: delete m' k
  end.

(** No two entries of a map have the same key. *)
Fixpoint keys_unique {V} (m : t V) : Prop :=
  match m with
  | [] => True
  | (k, _) :: m' =>
      Forall (fun entry => same_value_zero k (fst entry) = false) m' /\ keys_unique m'
  end.

End JSMap.

Module Message.
Import JS.

Inductive MessageType : Type :=
| user | agent_thinking | tool_call | agent_reply | system_alert.

#[global] Instance MessageType_eq_dec : EqDecision MessageType.
Proof. solve_decision. Defined.

Record t : Type := {
  id : value;
  type : MessageType;
  content : value;
  timestamp : string;
  metadata : value
}.

End Message.

Module AnalysisResult.
Import JS.

Record t : Type := {
  id : value;
  type : value;
  content : value;
  timestamp : string;
  fileName : value;
  fileId : value
}.

End AnalysisResult.

(** The browser's [File]: its attributes, and its content as seen through
    [slice(start, end)] followed by [readAsDataURL] and the removal of the
    [data:] prefix. *)
Module File.

Record t : Type := {
  name : string;
  size : N;
  type : string;
  base64 : N -> N -> string
}.

End File.

Module Store.
Import JS.

Inductive ConnectionStatus : Type := connecting | connected | disconnected | error.

Record AppState : Type := {
  messages : list Message.t;
  currentAnalysis : option AnalysisResult.t;
  analysisHistory : list AnalysisResult.t;
  analysisResultsByFile : JSMap.t (list AnalysisResult.t);
  currentFileKey : value;
  currentToolType : value;
  connectionStatus : ConnectionStatus;
  selectedFiles : list File.t;
  fileIdMap : JSMap.t value;
  activeTools : JSMap.t value
}.

(** The state the store is created with, which is also the state written
    by [resetAll] and by [onRehydrateStorage]. *)
Definition initial : AppState :=
  {| messages := [];
     currentAnalysis := None;
     analysisHistory := [];
     analysisResultsByFile := [];
     currentFileKey := VNull;
     currentToolType := VNull;
     connectionStatus := disconnected;
     selectedFiles := [];
     fileIdMap := [];
     activeTools := [] |}.

Definition with_messages (ms : list Message.t) (s : AppState) : AppState :=
  {| messages := ms;
     currentAnalysis := currentAnalysis s;
     analysisHistory := analysisHistory s;
     analysisResultsByFile := analysisResultsByFile s;
     currentFileKey := currentFileKey s;
     currentToolType := currentToolType s;
     connectionStatus := connectionStatus s;
     selectedFiles := selectedFiles s;
     fileIdMap := fileIdMap s;
     activeTools := activeTools s |}.

Definition addMessage (message : Message.t) (s : AppState) : AppState :=
  with_messages (messages s ++ [message]) s.

Definition updateMessage (id : value) (updatedMessage : Message.t) (s : AppState)
  : AppState :=
  with_messages
    (map (fun msg => if strict_eq (Message.id msg) id then updatedMessage else msg)
         (messages s)) s.

Definition clearMessages (s : AppState) : AppState := with_messages [] s.

Definition with_currentAnalysis (a : option AnalysisResult.t) (s : AppState) : AppState :=
  {| messages := messages s;
     currentAnalysis := a;
     analysisHistory := analysisHistory s;
     analysisResultsByFile := analysisResultsByFile s;
     currentFileKey := currentFileKey s;
     currentToolType := currentToolType s;
     connectionStatus := connectionStatus s;
     selectedFiles := selectedFiles s;
     fileIdMap := fileIdMap s;
     activeTools := activeTools s |}.

Definition with_analysisResultsByFile
  (m : JSMap.t (list AnalysisResult.t)) (s : AppState) : AppState :=
  {| messages := messages s;
     currentAnalysis := currentAnalysis s;
     analysisHistory := analysisHistory s;
     analysisResultsByFile := m;
     currentFileKey := currentFileKey s;
     currentToolType := currentToolType s;
     connectionStatus := connectionStatus s;
     selectedFiles := selectedFiles s;
     fileIdMap := fileIdMap s;
     activeTools := activeTools s |}.

(** [analysis.fileId || analysis.fileName || 'unknown'] *)
Definition fileKeyOf (analysis : AnalysisResult.t) : value :=
  JS.or (JS.or (AnalysisResult.fileId analysis) (AnalysisResult.fileName analysis))
        (VStr "unknown").

(** The entries kept when a new result of type [ty] arrives. *)
Definition filteredExisting (ty : value) (existing : list AnalysisResult.t)
  : list AnalysisResult.t :=
  List.filter (fun r => negb (strict_eq (AnalysisResult.type r) ty)) existing.

Definition setCurrentAnalysis (analysis : option AnalysisResult.t) (s : AppState)
  : AppState :=
  let s := with_currentAnalysis analysis s in
  match analysis with
  | None => s
  | Some analysis =>
      let fileKey := fileKeyOf analysis in
      let newMap := analysisResultsByFile s in
      let existing := default [] (JSMap.get newMap fileKey) in
      with_analysisResultsByFile
        (JSMap.set newMap fileKey
           (filteredExisting (AnalysisResult.type analysis) existing ++ [analysis])) s
  end.

Definition addAnalysisHistory (analysis : AnalysisResult.t) (s : AppState) : AppState :=
  {| messages := messages s;
     currentAnalysis := currentAnalysis s;
     analysisHistory := analysisHistory s ++ [analysis];
     analysisResultsByFile := analysisResultsByFile s;
     currentFileKey := currentFileKey s;
     currentToolType := currentToolType s;
     connectionStatus := connectionStatus s;
     selectedFiles := selectedFiles s;
     fileIdMap := fileIdMap s;
     activeTools := activeTools s |}.

Definition setCurrentFileKey (key : value) (s : AppState) : AppState :=
  {| messages := messages s;
     currentAnalysis := currentAnalysis s;
     analysisHistory := analysisHistory s;
     analysisResultsByFile := analysisResultsByFile s;
     currentFileKey := key;
     currentToolType := currentToolType s;
     connectionStatus := connectionStatus s;
     selectedFiles := selectedFiles s;
     fileIdMap := fileIdMap s;
     activeTools := activeTools s |}.

Definition setCurrentToolType (type : value) (s : AppState) : AppState :=
  {| messages := messages s;
     currentAnalysis := currentAnalysis s;
     analysisHistory := analysisHistory s;
     analysisResultsByFile := analysisResultsByFile s;
     currentFileKey := currentFileKey s;
     currentToolType := type;
     connectionStatus := connectionStatus s;
     selectedFiles := selectedFiles s;
     fileIdMap := fileIdMap s;
     activeTools := activeTools s |}.

Definition getAnalysisForFile (fileKey : value) (s : AppState) : list AnalysisResult.t :=
  default [] (JSMap.get (analysisResultsByFile s) fileKey).

Definition getCurrentFileAnalysis (s : AppState) : list AnalysisResult.t :=
  if JS.not (currentFileKey s) then []
  else default [] (JSMap.get (analysisResultsByFile s) (currentFileKey s)).

Definition setConnectionStatus (status : ConnectionStatus) (s : AppState) : AppState :=
  {| messages := messages s;
     currentAnalysis := currentAnalysis s;
     analysisHistory := analysisHistory s;
     analysisResultsByFile := analysisResultsByFile s;
     currentFileKey := currentFileKey s;
     currentToolType := currentToolType s;
     connectionStatus := status;
     selectedFiles := selectedFiles s;
     fileIdMap := fileIdMap s;
     activeTools := activeTools s |}.

Definition setSelectedFiles (files : list File.t) (s : AppState) : AppState :=
  {| messages := messages s;
     currentAnalysis := currentAnalysis s;
     analysisHistory := analysisHistory s;
     analysisResultsByFile := analysisResultsByFile s;
     currentFileKey := currentFileKey s;
     currentToolType := currentToolType s;
     connectionStatus := connectionStatus s;
     selectedFiles := files;
     fileIdMap := fileIdMap s;
     activeTools := activeTools s |}.

Definition addFileMapping (filename fileId : value) (s : AppState) : AppState :=
  {| messages := messages s;
     currentAnalysis := currentAnalysis s;
     analysisHistory := analysisHistory s;
     analysisResultsByFile := analysisResultsByFile s;
     currentFileKey := currentFileKey s;
     currentToolType := currentToolType s;
     connectionStatus := connectionStatus s;
     selectedFiles := selectedFiles s;
     fileIdMap := JSMap.set (fileIdMap s) filename fileId;
     activeTools := activeTools s |}.

Definition updateToolStatus (toolId status : value) (s : AppState) : AppState :=
  {| messages := messages s;
     currentAnalysis := currentAnalysis s;
     analysisHistory := analysisHistory s;
     analysisResultsByFile := analysisResultsByFile s;
     currentFileKey := currentFileKey s;
     currentToolType := currentToolType s;
     connectionStatus := connectionStatus s;
     selectedFiles := selectedFiles s;
     fileIdMap := fileIdMap s;
     activeTools :=
       if strict_eq status VNull then JSMap.delete (activeTools s) toolId
       else JSMap.set (activeTools s) toolId status |}.

Definition resetAll (s : AppState) : AppState := initial.

(** The store changes only through its actions. *)
Inductive Action : Type :=
| AddMessage (message : Message.t)
| UpdateMessage (id : value) (updatedMessage : Message.t)
| ClearMessages
| SetCurrentAnalysis (analysis : option AnalysisResult.t)
| AddAnalysisHistory (analysis : AnalysisResult.t)
| SetCurrentFileKey (key : value)
| SetCurrentToolType (type : value)
| SetConnectionStatus (status : ConnectionStatus)
| SetSelectedFiles (files : list File.t)
| AddFileMapping (filename fileId : value)
| UpdateToolStatus (toolId status : value)
| ResetAll.

Definition dispatch (a : Action) : AppState -> AppState :=
  match a with
  | AddMessage m => addMessage m
  | UpdateMessage i m => updateMessage i m
  | ClearMessages => clearMessages
  | SetCurrentAnalysis r => setCurrentAnalysis r
  | AddAnalysisHistory r => addAnalysisHistory r
  | SetCurrentFileKey k => setCurrentFileKey k
  | SetCurrentToolType t => setCurrentToolType t
  | SetConnectionStatus c => setConnectionStatus c
  | SetSelectedFiles fs => setSelectedFiles fs
  | AddFileMapping n i => addFileMapping n i
  | UpdateToolStatus i st => updateToolStatus i st
  | ResetAll => resetAll
  end.

(** No two results of a list have the same [type]. *)
Fixpoint distinct_types (rs : list AnalysisResult.t) : Prop :=
  match rs with
  | [] => True
  | r :: rs' =>
      Forall (fun r' => strict_eq (AnalysisResult.type r) (AnalysisResult.type r') = false) rs'
      /\ distinct_types rs'
  end.

(** The invariant of [analysisResultsByFile]: under every file key, at most
    one result per tool type. *)
Definition results_distinct (s : AppState) : Prop :=
  forall key rs, JSMap.get (analysisResultsByFile s) key = Some rs -> distinct_types rs.

Inductive reachable : AppState -> Prop :=
| reachable_initial : reachable initial
| reachable_dispatch a s : reachable s -> reachable (dispatch a s).

End Store.

(** ** The socket manager ([SocketManager]) *)

Module Socket.
Import JS.

(** Outbound envelopes.  The transport carries their [JSON.stringify]
    image, which is not modelled. *)
Record FileInfo : Type := {
  info_name : string;
  info_size : N;
  info_type : string
}.

Inductive ClientMessage : Type :=
| chat (message session_id : string)
| analyze (content source_type : string)
| file_chunk (upload_id : string) (chunk_index total_chunks : N)
             (data : string) (file_info : FileInfo)
| tool_execute (tool_name : string) (args : value)
| ping.

(** *** The browser side *)

Inductive ReadyState : Type := CONNECTING | OPEN | CLOSING | CLOSED.

#[global] Instance ReadyState_eq_dec : EqDecision ReadyState.
Proof. solve_decision. Defined.

(** A [WebSocket] object: its state and the frames handed to it so far. *)
Record WebSocket : Type := {
  readyState : ReadyState;
  sent : list ClientMessage
}.

(** The callbacks the manager passes to [setTimeout]. *)
Inductive Callback : Type :=
| AutoReconnect                  (* [() => this.connect(this.clientId)] *)
| ManualConnect                  (* [() => this.connect()] *)
| UploadTimeout (upload : nat).   (* the 30 s timeout of an upload in flight *)

Record Timer : Type := {
  delay : Z;
  callback : Callback
}.

(** What a clock and a random source answer during one call: the decimal
    image of the k-th [Date.now()], the k-th
    [Math.random().toString(36).substr(2, 9)], and the ISO time. *)
Record Env : Type := {
  dateNow : nat -> string;
  random : nat -> string;
  isoNow : string
}.

Inductive Promise : Type :=
| Pending
| Resolved (file_id : value)
| Rejected (message : value).

(** One call of [sendFile] in flight. *)
Record Upload : Type := {
  uploadId : string;
  file : File.t;
  totalChunks : N;
  nextChunk : N;
  listener : option nat;   (* the socket [handleUploadResult] listens on *)
  promise : Promise
}.

(** *** The manager's fields *)

Record Manager : Type := {
  socket : option nat;
  reconnectAttempts : nat;
  clientId : string;
  messageQueue : list ClientMessage;
  connected : bool;
  currentStreamingMessageId : value
}.

Definition maxReconnectAttempts : nat := 5.
Definition reconnectDelays : list Z := [1000; 2000; 4000; 8000; 16000]%Z.

Definition new_manager : Manager :=
  {| socket := None; reconnectAttempts := 0; clientId := EmptyString;
     messageQueue := []; connected := false;
     currentStreamingMessageId := VNull |}.

Definition set_socket (x : option nat) (m : Manager) : Manager :=
  {| socket := x; reconnectAttempts := reconnectAttempts m; clientId := clientId m;
     messageQueue := messageQueue m; connected := connected m;
     currentStreamingMessageId := currentStreamingMessageId m |}.

Definition set_reconnectAttempts (x : nat) (m : Manager) : Manager :=
  {| socket := socket m; reconnectAttempts := x; clientId := clientId m;
     messageQueue := messageQueue m; connected := connected m;
     currentStreamingMessageId := currentStreamingMessageId m |}.

Definition set_clientId (x : string) (m : Manager) : Manager :=
  {| socket := socket m; reconnectAttempts := reconnectAttempts m; clientId := x;
     messageQueue := messageQueue m; connected := connected m;
     currentStreamingMessageId := currentStreamingMessageId m |}.

Definition set_messageQueue (x : list ClientMessage) (m : Manager) : Manager :=
  {| socket := socket m; reconnectAttempts := reconnectAttempts m; clientId := clientId m;
     messageQueue := x; connected := connected m;
     currentStreamingMessageId := currentStreamingMessageId m |}.

Definition set_connected (x : bool) (m : Manager) : Manager :=
  {| socket := socket m; reconnectAttempts := reconnectAttempts m; clientId := clientId m;
     messageQueue := messageQueue m; connected := x;
     currentStreamingMessageId := currentStreamingMessageId m |}.

Definition set_currentStreamingMessageId (x : value) (m : Manager) : Manager :=
  {| socket := socket m; reconnectAttempts := reconnectAttempts m; clientId := clientId m;
     messageQueue := messageQueue m; connected := connected m;
     currentStreamingMessageId := x |}.

(** *** Everything the manager's methods read and write *)

Record World : Type := {
  manager : Manager;
  store : Store.AppState;
  sockets : list WebSocket;      (* every socket created so far, by handle *)
  timers : list Timer;           (* pending [setTimeout] calls *)
  uploads : list Upload
}.

Definition boot : World :=
  {| manager := new_manager; store := Store.initial;
     sockets := []; timers := []; uploads := [] |}.

Definition on_manager (f : Manager -> Manager) (w : World) : World :=
  {| manager := f (manager w); store := store w; sockets := sockets w;
     timers := timers w; uploads := uploads w |}.

Definition on_store (f : Store.AppState -> Store.AppState) (w : World) : World :=
  {| manager := manager w; store := f (store w); sockets := sockets w;
     timers := timers w; uploads := uploads w |}.

Definition on_sockets (f : list WebSocket -> list WebSocket) (w : World) : World :=
  {| manager := manager w; store := store w; sockets := f (sockets w);
     timers := timers w; uploads := uploads w |}.

Definition on_timers (f : list Timer -> list Timer) (w : World) : World :=
  {| manager := manager w; store := store w; sockets := sockets w;
     timers := f (timers w); uploads := uploads w |}.

Definition on_uploads (f : list Upload -> list Upload) (w : World) : World :=
  {| manager := manager w; store := store w; sockets := sockets w;
     timers := timers w; uploads := f (uploads w) |}.

(** [setTimeout(callback, delay)] *)
Definition setTimeout (c : Callback) (d : Z) : World -> World :=
  on_timers (fun ts => ts ++ [{| delay := d; callback := c |}]).

(** [`${prefix}${Date.now()}${sep}${random}`], for the k-th identifier
    generated during a call. *)
Definition fresh_id (env : Env) (prefix sep : string) (k : nat) : string :=
  prefix +:+ dateNow env k +:+ sep +:+ random env k.

(** *** Connection handling *)

(** [connect(clientId?)].  The URL of the socket has no influence on the
    manager and is left out. *)
Definition connect (env : Env) (clientId : option string) (w : World) : World :=
  let clientId :=
    match clientId with
    | Some c => if String.eqb c EmptyString then fresh_id env "client_" "_" 0 else c
    | None => fresh_id env "client_" "_" 0
    end in
  let handle := length (sockets w) in
  on_store (Store.setConnectionStatus Store.connecting)
    (on_manager (set_socket (Some handle))
       (on_sockets (fun ss => ss ++ [{| readyState := CONNECTING; sent := [] |}])
          (on_manager (set_clientId clientId) w))).

(** Is [this.socket && this.socket.readyState === WebSocket.OPEN]? *)
Definition socket_open (w : World) : option nat :=
  match socket (manager w) with
  | Some h =>
      match sockets w !! h with
      | Some ws => if decide (readyState ws = OPEN) then Some h else None
      | None => None
      end
  | None => None
  end.

Definition transmit (h : nat) (message : ClientMessage) : World -> World :=
  on_sockets (alter (fun ws => {| readyState := readyState ws;
                                  sent := sent ws ++ [message] |}) h).

Definition send (message : ClientMessage) (w : World) : World :=
  match socket_open w with
  | Some h => transmit h message w
  | None => on_manager (fun m => set_messageQueue (messageQueue m ++ [message]) m) w
  end.

(** [flushMessageQueue].  The loop has no bound of its own, so the model
    takes fuel and answers [None] when it runs out. *)
Fixpoint flushMessageQueue (fuel : nat) (w : World) : option World :=
  match fuel with
  | O => None
  | S fuel' =>
      match messageQueue (manager w) with
      | message :: rest =>
          if connected (manager w)
          then flushMessageQueue fuel'
                 (send message (on_manager (set_messageQueue rest) w))
          else Some w
      | [] => Some w
      end
  end.

Definition handleReconnect (w : World) : World :=
  let m := manager w in
  if (maxReconnectAttempts <=? reconnectAttempts m)%nat then
    on_store (Store.setConnectionStatus Store.error) w
  else
    let delay := default 0%Z (reconnectDelays !! reconnectAttempts m) in
    setTimeout AutoReconnect delay
      (on_manager (set_reconnectAttempts (S (reconnectAttempts m))) w).

(** [socket.close()] as the browser performs it: an open or connecting
    socket starts closing; the [close] event follows later. *)
Definition close_socket (h : nat) : World -> World :=
  on_sockets (alter (fun ws =>
    {| readyState := match readyState ws with
                     | CONNECTING | OPEN => CLOSING
                     | st => st
                     end;
       sent := sent ws |}) h).

Definition disconnect (w : World) : World :=
  match socket (manager w) with
  | Some h =>
      on_store (Store.setConnectionStatus Store.disconnected)
        (on_manager (set_connected false)
           (on_manager (set_socket None) (close_socket h w)))
  | None => w
  end.

Definition reconnect (w : World) : World :=
  setTimeout ManualConnect 100
    (on_manager (set_reconnectAttempts 0) (disconnect w)).

Definition set_readyState (h : nat) (st : ReadyState) : World -> World :=
  on_sockets (alter (fun ws => {| readyState := st; sent := sent ws |}) h).

(** The [open] event of socket [h] followed by the [onopen] handler. *)
Definition onopen (fuel : nat) (h : nat) (w : World) : option World :=
  let w := set_readyState h OPEN w in
  flushMessageQueue fuel
    (on_store (Store.setConnectionStatus Store.connected)
       (on_manager (set_reconnectAttempts 0)
          (on_manager (set_connected true) w))).

(** The [close] event of socket [h] followed by the [onclose] handler. *)
Definition onclose (h : nat) (w : World) : World :=
  let w := set_readyState h CLOSED w in
  handleReconnect
    (on_store (Store.setConnectionStatus Store.disconnected)
       (on_manager (set_connected false) w)).

(** The [onerror] handler. *)
Definition onerror (h : nat) (w : World) : World :=
  on_store (Store.setConnectionStatus Store.error) w.

Definition sendChat (message : string) (w : World) : World :=
  send (chat message ("session_" +:+ clientId (manager w))) w.

Definition sendAnalysis (content sourceType : string) (w : World) : World :=
  send (analyze content sourceType) w.

Definition executeToolDirectly (toolName : string) (args : value) (w : World) : World :=
  send (tool_execute toolName args) w.

Definition sendPing (w : World) : World := send ping w.

Definition isConnected (w : World) : bool := connected (manager w).

(** *** The inbound message state machine *)

(** The outcome of [handleServerMessage]: the world it leaves behind and,
    when it ended in an exception, the error.  [onmessage] catches the
    exception, so the changes made before the throw stay. *)
Record Handled : Type := {
  after : World;
  thrown : option string
}.

Definition done (w : World) : Handled := {| after := w; thrown := None |}.

Definition is_tool_call (m : Message.t) : bool :=
  match Message.type m with Message.tool_call => true | _ => false end.

Definition is_thinking (m : Message.t) : bool :=
  match Message.type m with Message.agent_thinking => true | _ => false end.

(** [m.metadata?.status === 'pending' || m.metadata?.status === 'executing'] *)
Definition in_progress (m : Message.t) : bool :=
  let status := prop (Message.metadata m) "status" in
  strict_eq status (VStr "pending") || strict_eq status (VStr "executing").

Fixpoint set_field (k : string) (v : value) (fs : list (string * value))
  : list (string * value) :=
  match fs with
  | [] => [(k, v)]
  | (k', v') :: fs' =>
      if String.eqb k k' then (k', v) :: fs' else (k', v') :: set_field k v fs'
  end.

(** [{ ...toolMessage, metadata: { ...toolMessage.metadata, status } }].
    The messages this is applied to have an object as metadata. *)
Definition with_status (status : string) (m : Message.t) : Message.t :=
  let fields := match Message.metadata m with VObj fs => fs | _ => [] end in
  {| Message.id := Message.id m;
     Message.type := Message.type m;
     Message.content := Message.content m;
     Message.timestamp := Message.timestamp m;
     Message.metadata := VObj (set_field "status" (VStr status) fields) |}.

Definition findLast {A} (f : A -> bool) (l : list A) : option A :=
  List.find f (rev l).

(** [tool_name?.toLowerCase().includes(..) || ...]: the names of the
    detection tools.  A name that is neither nullish nor a string has no
    [toLowerCase], and the call throws. *)
Definition is_detection_tool (tool_name : value) : completion bool :=
  match tool_name with
  | VUndef | VNull => Return false
  | VStr s =>
      let lower := toLowerCase s in
      Return (includes "detect" lower || includes "verify" lower || includes "c2pa" lower)
  | _ => Throw "TypeError: data.tool_name?.toLowerCase is not a function"
  end.

(** The name under which [fileIdMap] holds the id [fileId], if any: the
    first entry in insertion order. *)
Definition name_of_file_id (fileIdMap : JSMap.t value) (fileId : value) : option value :=
  fst <$> List.find (fun entry => strict_eq (snd entry) fileId) fileIdMap.

(** [path.split('/').pop() || path.split('\\').pop() || path] *)
Definition base_name (path : string) : string :=
  let after_slash := last_segment "/"%char path in
  if negb (String.eqb after_slash EmptyString) then after_slash
  else
    let after_backslash := last_segment "\"%char path in
    if negb (String.eqb after_backslash EmptyString) then after_backslash else path.

(** The first of the candidate arguments that is a non-empty string. *)
Definition first_path (original_args : value) : option string :=
  let possiblePaths :=
    [prop original_args "image_path"; prop original_args "media_path";
     prop original_args "file_path"; prop original_args "content"] in
  match List.find (fun p => truthy p && is_string p) possiblePaths with
  | Some (VStr p) => Some p
  | _ => None
  end.

(** The file a [tool_result] belongs to: the pair [(fileName, fileId)]
    the handler has computed when it builds the analysis result. *)
Definition resolve_file (fileIdMap : JSMap.t value) (data : value) : value * value :=
  let from_args : value * value :=
    if truthy (prop data "original_args") then
      match first_path (prop data "original_args") with
      | Some p =>
          if startsWith "file:" p then
            let fileId := VStr (substring_from 5 p) in
            (default (VStr "unknown") (name_of_file_id fileIdMap fileId), fileId)
          else (VStr (base_name p), VNull)
      | None => (VStr "unknown", VNull)
      end
    else (VStr "unknown", VNull) in
  let '(fileName, fileId) := from_args in
  let fileName :=
    if strict_eq fileName (VStr "unknown") then
      let result := prop data "result" in
      if truthy (prop result "file_name") then prop result "file_name"
      else if truthy (prop result "media_path") then prop result "media_path"
      else if truthy (path result ["local_analysis"; "file_path"])
           then path result ["local_analysis"; "file_path"]
      else fileName
    else fileName in
  let fileId :=
    if JS.not fileId && negb (strict_eq fileName (VStr "unknown"))
       && JSMap.has fileIdMap fileName
    then default VUndef (JSMap.get fileIdMap fileName)
    else fileId in
  (fileName, fileId).

Section Handler.
Context {rt : Runtime}.
Variable env : Env.

Definition case_chat_start (data : value) (w : World) : World :=
  let messageId := VStr (fresh_id env "msg-" "-" 0) in
  on_store (Store.addMessage
              {| Message.id := messageId;
                 Message.type := Message.agent_thinking;
                 Message.content := VStr "考え中...";
                 Message.timestamp := isoNow env;
                 Message.metadata := VUndef |})
    (on_manager (set_currentStreamingMessageId messageId) w).

Definition case_chat_content (data : value) (w : World) : World :=
  let current := currentStreamingMessageId (manager w) in
  if truthy current then
    let messages := Store.messages (store w) in
    match List.find (fun m => strict_eq (Message.id m) current) messages with
    | Some targetMessage =>
        let isFirstContent := is_thinking targetMessage in
        on_store (Store.updateMessage current
                    {| Message.id := Message.id targetMessage;
                       Message.type := Message.agent_reply;
                       Message.content :=
                         if isFirstContent then prop data "content"
                         else plus (Message.content targetMessage) (prop data "content");
                       Message.timestamp := Message.timestamp targetMessage;
                       Message.metadata := Message.metadata targetMessage |}) w
    | None =>
        on_store (Store.addMessage
                    {| Message.id := current;
                       Message.type := Message.agent_reply;
                       Message.content := prop data "content";
                       Message.timestamp := isoNow env;
                       Message.metadata := VUndef |}) w
    end
  else w.

(** [pendingTools.forEach(...)] *)
Definition mark_tools (status : string) (tools : list Message.t) (s : Store.AppState)
  : Store.AppState :=
  fold_left (fun s toolMessage =>
               Store.updateMessage (Message.id toolMessage)
                 (with_status status toolMessage) s)
            tools s.

Definition case_chat_complete (data : value) (w : World) : World :=
  let w' := on_manager (set_currentStreamingMessageId VNull) w in
  let messages := Store.messages (store w) in
  let pendingTools :=
    List.filter (fun m => is_tool_call m && in_progress m) messages in
  on_store (mark_tools "success" pendingTools) w'.

Definition case_tool_call (data : value) (w : World) : World :=
  let w :=
    if truthy (currentStreamingMessageId (manager w))
    then on_manager (set_currentStreamingMessageId VNull) w else w in
  let w :=
    on_store (Store.addMessage
                {| Message.id := VStr (fresh_id env "tool-" "-" 0);
                   Message.type := Message.tool_call;
                   Message.content :=
                     VStr ("ツール実行: " +:+ ToString (prop data "tool_name"));
                   Message.timestamp := isoNow env;
                   Message.metadata :=
                     VObj [("status", VStr "executing");
                           ("tool", prop data "tool_name");
                           ("args", prop data "parameters")] |}) w in
  on_manager (set_currentStreamingMessageId
                (VStr (fresh_id env "msg-after-tool-" "-" 1))) w.

(** The most recent tool call of [tool_name] still in progress. *)
Definition find_tool_call (tool_name : value) (messages : list Message.t)
  : option Message.t :=
  findLast (fun m => is_tool_call m
                     && strict_eq (prop (Message.metadata m) "tool") tool_name
                     && in_progress m) messages.

Definition mark_tool_call (status : string) (tool_name : value)
  (snapshot : Store.AppState) (w : World) : World :=
  match find_tool_call tool_name (Store.messages snapshot) with
  | Some toolMessage =>
      on_store (Store.updateMessage (Message.id toolMessage)
                  (with_status status toolMessage)) w
  | None => w
  end.

(** The [analysisResult] object built for a [tool_result]. *)
Definition tool_analysis (fileIdMap : JSMap.t value) (data : value) : AnalysisResult.t :=
  let '(fileName, fileId) := resolve_file fileIdMap data in
  {| AnalysisResult.id := VStr (fresh_id env "analysis-" "-" 0);
     AnalysisResult.type := prop data "tool_name";
     AnalysisResult.content := prop data "result";
     AnalysisResult.timestamp := isoNow env;
     AnalysisResult.fileName := fileName;
     AnalysisResult.fileId := JS.or fileId fileName |}.

Definition case_tool_result (data : value) (w : World) : Handled :=
  let snapshot := store w in
  let '(fileName, fileId) := resolve_file (Store.fileIdMap snapshot) data in
  let analysisResult := tool_analysis (Store.fileIdMap snapshot) data in
  let w := on_store (Store.setCurrentAnalysis (Some analysisResult)) w in
  let w :=
    if truthy fileId || negb (strict_eq fileName (VStr "unknown"))
    then on_store (Store.setCurrentFileKey (JS.or fileId fileName)) w
    else w in
  match is_detection_tool (prop data "tool_name") with
  | Throw e => {| after := w; thrown := Some e |}
  | Return detection =>
      let w :=
        if detection then on_store (Store.addAnalysisHistory analysisResult) w else w in
      done (mark_tool_call "success" (prop data "tool_name") snapshot w)
  end.

Definition case_analysis_start (data : value) (w : World) : World :=
  let analysisMessageId :=
    JS.or (prop data "request_id") (VStr (fresh_id env "analysis-" "-" 0)) in
  on_store (Store.addMessage
              {| Message.id := analysisMessageId;
                 Message.type := Message.agent_thinking;
                 Message.content := VStr "分析中...";
                 Message.timestamp := isoNow env;
                 Message.metadata := VUndef |})
    (on_manager (set_currentStreamingMessageId analysisMessageId) w).

Definition case_analysis_progress (data : value) (w : World) : World :=
  on_store (Store.addMessage
              {| Message.id := VStr (fresh_id env "progress-" "-" 0);
                 Message.type := Message.system_alert;
                 Message.content := prop data "status";
                 Message.timestamp := isoNow env;
                 Message.metadata := VObj [("level", VStr "info")] |}) w.

Definition case_analysis_tool_result (data : value) (w : World) : Handled :=
  let toolAnalysisResult :=
    {| AnalysisResult.id := VStr (fresh_id env "result-" "-" 0);
       AnalysisResult.type := prop data "tool_name";
       AnalysisResult.content := prop data "result";
       AnalysisResult.timestamp := isoNow env;
       AnalysisResult.fileName := VUndef;
       AnalysisResult.fileId := VUndef |} in
  let w := on_store (Store.setCurrentAnalysis (Some toolAnalysisResult)) w in
  match is_detection_tool (prop data "tool_name") with
  | Throw e => {| after := w; thrown := Some e |}
  | Return detection =>
      done (if detection
            then on_store (Store.addAnalysisHistory toolAnalysisResult) w else w)
  end.

Definition case_analysis_complete (data : value) (w : World) : World :=
  let current := currentStreamingMessageId (manager w) in
  let messages := Store.messages (store w) in
  let w :=
    if truthy current then
      let w :=
        match List.find (fun m => strict_eq (Message.id m) current) messages with
        | Some targetMessage =>
            if is_thinking targetMessage then
              on_store (Store.updateMessage current
                          {| Message.id := Message.id targetMessage;
                             Message.type := Message.agent_reply;
                             Message.content :=
                               VStr "分析が完了しました。結果をご確認ください。";
                             Message.timestamp := Message.timestamp targetMessage;
                             Message.metadata := Message.metadata targetMessage |}) w
            else w
        | None => w
        end in
      on_manager (set_currentStreamingMessageId VNull) w
    else w in
  let completeResult :=
    {| AnalysisResult.id :=
         JS.or (prop data "request_id") (VStr (fresh_id env "analysis-" "-" 0));
       AnalysisResult.type := VStr "complete";
       AnalysisResult.content := prop data "result";
       AnalysisResult.timestamp := isoNow env;
       AnalysisResult.fileName := VUndef;
       AnalysisResult.fileId := VUndef |} in
  on_store (Store.addAnalysisHistory completeResult)
    (on_store (Store.setCurrentAnalysis (Some completeResult)) w).

Definition case_error (data : value) (w : World) : World :=
  let snapshot := store w in
  let w :=
    on_store (Store.addMessage
                {| Message.id := VStr (fresh_id env "error-" "-" 0);
                   Message.type := Message.system_alert;
                   Message.content := VStr ("エラー: " +:+ ToString (prop data "message"));
                   Message.timestamp := isoNow env;
                   Message.metadata := VObj [("level", VStr "error")] |}) w in
  if truthy (prop data "tool_name")
  then mark_tool_call "error" (prop data "tool_name") snapshot w
  else w.

Definition case_upload_complete (data : value) (w : World) : World :=
  if truthy (prop data "file_id") && truthy (prop data "file_info")
     && truthy (path data ["file_info"; "name"])
  then on_store (Store.addFileMapping (path data ["file_info"; "name"])
                                      (prop data "file_id")) w
  else w.

(** The discriminators of [ServerMessage]. *)
Definition ServerMessage_types : list string :=
  ["connection"; "chat_start"; "chat_content"; "chat_complete";
   "tool_call"; "tool_result"; "analysis_start"; "analysis_progress";
   "analysis_tool_result"; "analysis_complete"; "error"; "pong";
   "upload_progress"; "upload_complete"].

(** [handleServerMessage].  Console output and toast notifications are
    outside the modelled state.  Reading [data.type] of [null] throws
    before anything else happens. *)
Definition handleServerMessage (data : value) (w : World) : Handled :=
  if nullish data then
    {| after := w; thrown := Some "TypeError: cannot read properties of null" |}
  else
    let type := prop data "type" in
    let type_is (name : string) := strict_eq type (VStr name) in
    if type_is "connection" then done w
    else if type_is "chat_start" then done (case_chat_start data w)
    else if type_is "chat_content" then done (case_chat_content data w)
    else if type_is "chat_complete" then done (case_chat_complete data w)
    else if type_is "tool_call" then done (case_tool_call data w)
    else if type_is "tool_result" then case_tool_result data w
    else if type_is "analysis_start" then done (case_analysis_start data w)
    else if type_is "analysis_progress" then done (case_analysis_progress data w)
    else if type_is "analysis_tool_result" then case_analysis_tool_result data w
    else if type_is "analysis_complete" then done (case_analysis_complete data w)
    else if type_is "error" then done (case_error data w)
    else if type_is "upload_progress" then done w
    else if type_is "upload_complete" then done (case_upload_complete data w)
    else if type_is "pong" then done w
    else done w.

(** The [message] event of socket [h], as seen by the [onmessage] handler.
    [parsed] is the result of [JSON.parse], [None] when it throws. *)
Definition onmessage (parsed : option value) (w : World) : World :=
  match parsed with
  | Some data => after (handleServerMessage data w)
  | None => w
  end.

End Handler.

(** *** Chunked upload ([sendFile]) *)

Definition CHUNK_SIZE : N := 1048576.

(** [Math.ceil(file.size / CHUNK_SIZE)] *)
Definition chunk_count (size : N) : N :=
  Z.to_N (Qceiling (inject_Z (Z.of_N size) / inject_Z (Z.of_N CHUNK_SIZE))).

(** The envelope built in iteration [i] of the chunk loop. *)
Definition chunk_envelope (up : Upload) (i : N) : ClientMessage :=
  let f := file up in
  let start := (i * CHUNK_SIZE)%N in
  let end_ := N.min (start + CHUNK_SIZE) (File.size f) in
  file_chunk (uploadId up) i (totalChunks up) (File.base64 f start end_)
    {| info_name := File.name f; info_size := File.size f; info_type := File.type f |}.

(** [sendFile(file)] up to its first suspension: the listener is added to
    the current socket, if there is one, the chunk loop starts reading the
    first chunk, and the timeout is armed.  The result is the handle of the
    new upload. *)
Definition sendFile (env : Env) (f : File.t) (w : World) : World :=
  let up :=
    {| uploadId := fresh_id env "upload_" "_" 0;
       file := f;
       totalChunks := chunk_count (File.size f);
       nextChunk := 0%N;
       listener := socket (manager w);
       promise := Pending |} in
  setTimeout (UploadTimeout (length (uploads w))) 30000
    (on_uploads (fun ups => ups ++ [up]) w).

Definition advance (up : Upload) : Upload :=
  {| uploadId := uploadId up; file := file up; totalChunks := totalChunks up;
     nextChunk := N.succ (nextChunk up);
     listener := listener up; promise := promise up |}.

(** One turn of the chunk loop of upload [u]: the pending read completes,
    the envelope is sent, and after the pacing delay the loop moves on.
    Past the last chunk the loop has ended and nothing happens. *)
Definition sendChunk (u : nat) (w : World) : World :=
  match uploads w !! u with
  | Some up =>
      if (nextChunk up <? totalChunks up)%N
      then on_uploads (alter advance u) (send (chunk_envelope up (nextChunk up)) w)
      else w
  | None => w
  end.

(** [this.socket?.removeEventListener('message', handleUploadResult)]: the
    listener goes away when the current socket is the one it was added to. *)
Definition removeListener (w : World) (up : Upload) : Upload :=
  match socket (manager w), listener up with
  | Some h, Some h' =>
      if decide (h = h')
      then {| uploadId := uploadId up; file := file up; totalChunks := totalChunks up;
              nextChunk := nextChunk up; listener := None; promise := promise up |}
      else up
  | _, _ => up
  end.

(** [resolve] and [reject] settle a promise once. *)
Definition settle (p : Promise) (up : Upload) : Upload :=
  match promise up with
  | Pending =>
      {| uploadId := uploadId up; file := file up; totalChunks := totalChunks up;
         nextChunk := nextChunk up; listener := listener up; promise := p |}
  | _ => up
  end.

(** The listener [handleUploadResult] of one upload. *)
Definition handleUploadResult (parsed : option value) (w : World) (up : Upload) : Upload :=
  match parsed with
  | None => up
  | Some data =>
      if nullish data then up
      else if strict_eq (prop data "type") (VStr "upload_complete")
              && strict_eq (prop data "upload_id") (VStr (uploadId up))
      then settle (Resolved (prop data "file_id")) (removeListener w up)
      else if strict_eq (prop data "type") (VStr "error")
              && strict_eq (prop data "upload_id") (VStr (uploadId up))
      then settle (Rejected (prop data "message")) (removeListener w up)
      else up
  end.

(** A [message] event of socket [h]: the [onmessage] handler runs, then
    the listeners of the uploads that listen on [h]. *)
Definition message_event {rt : Runtime} (env : Env) (h : nat) (parsed : option value)
  (w : World) : World :=
  let w := onmessage env parsed w in
  on_uploads (map (fun up => if decide (listener up = Some h)
                             then handleUploadResult parsed w up else up)) w.

(** A pending timer fires. *)
Definition fire (env : Env) (i : nat) (w : World) : World :=
  match timers w !! i with
  | None => w
  | Some t =>
      let w := on_timers (delete i) w in
      match callback t with
      | AutoReconnect => connect env (Some (clientId (manager w))) w
      | ManualConnect => connect env None w
      | UploadTimeout u =>
          on_uploads (alter (fun up =>
            settle (Rejected (VStr "ファイルアップロードタイムアウト"))
                   (removeListener w up)) u) w
      end
  end.

(** One automatic reconnection attempt that fails: the pending timer
    fires and calls [connect], and the new socket reports an error and
    closes.  Without a pending timer no attempt takes place. *)
Definition failed_attempt (env : Env) (w : World) : World :=
  match timers w with
  | [] => w
  | _ :: _ =>
      let w := fire env 0 w in
      match socket (manager w) with
      | Some h => onclose h (onerror h w)
      | None => w
      end
  end.

(** The message a reply is streamed into, at its successive stages. *)
Definition reply_message (env : Env) (type : Message.MessageType) (content : string)
  : Message.t :=
  {| Message.id := VStr (fresh_id env "msg-" "-" 0);
     Message.type := type;
     Message.content := VStr content;
     Message.timestamp := isoNow env;
     Message.metadata := VUndef |}.

(** The world once [connect()] has been called at start-up and the socket
    has opened. *)
Definition connected_world (env : Env) : World :=
  default boot (onopen 1 0 (connect env None boot)).

(** A clock and random source for running examples. *)
Definition sample_env : Env :=
  {| dateNow := fun _ => "1700000000000";
     random := fun k => "r" +:+ String (ascii_of_nat (48 + k)) EmptyString;
     isoNow := "2024-01-01T00:00:00.000Z" |}.

(** The message [tool_call] adds for an invocation, with its status. *)
Definition tool_message {rt : Runtime} (env : Env) (data : value) (status : string)
  : Message.t :=
  {| Message.id := VStr (fresh_id env "tool-" "-" 0);
     Message.type := Message.tool_call;
     Message.content := VStr ("ツール実行: " +:+ ToString (prop data "tool_name"));
     Message.timestamp := isoNow env;
     Message.metadata :=
       VObj [("status", VStr status); ("tool", prop data "tool_name");
             ("args", prop data "parameters")] |}.

(** An upload whose chunk loop has reached chunk [i]. *)
Definition at_chunk (up : Upload) (i : N) : Upload :=
  {| uploadId := uploadId up; file := file up; totalChunks := totalChunks up;
     nextChunk := i; listener := listener up; promise := promise up |}.

(** A file of 2.5 MiB for running examples. *)
Definition sample_file : File.t :=
  {| File.name := "clip.mp4"; File.size := 2621440;
     File.type := "video/mp4"; File.base64 := fun _ _ => "AAAA" |}.

End Socket.

(** ** The query client ([makeQueryClient]) *)

Module Query.

(** The retry delay of queries, in milliseconds.  The query library calls
    it with the number of failures so far, a natural number:
    [retryDelay: (attemptIndex) => Math.min(1000 * 2 ** attemptIndex, 30000)] *)
Definition retryDelay (attemptIndex : nat) : Z :=
  Z.min (1000 * 2 ^ Z.of_nat attemptIndex) 30000.

End Query.

(** * Properties *)

Import JS.

(** ** The adapter *)

Section AdapterProperties.
Import Adapter.
Context {rt : Runtime}.

(** *** What keeps the risk score between 0 and 100 *)

Lemma clamp_in_range n : in_range (Math_max (Num 0) (Math_min (Num 100) (Num n))).
Proof.
  simpl. unfold Qmax, Qmin.
  destruct (Qle_bool 100 n) eqn:E1.
  - simpl. split; [discriminate|apply Qle_refl].
  - destruct (Qle_bool 0 n) eqn:E2.
    + apply Qle_bool_iff in E2. split; [exact E2|].
      apply Qlt_le_weak, Qnot_le_lt. intros Hle. apply Qle_bool_iff in Hle. congruence.
    + split; [apply Qle_refl|discriminate].
Qed.

Lemma normalizeScore_in_range score :
  (nullish score = true \/ exists q, ToNumber score = Num q) ->
  in_range (normalizeScore score default_range).
Proof.
  intros Hs. unfold normalizeScore.
  destruct (strict_eq score VUndef || strict_eq score VNull) eqn:E.
  - simpl. split; [apply Qle_refl|discriminate].
  - destruct Hs as [Hn|[q Hq]].
    + destruct score; simpl in *; discriminate.
    + unfold default_range. rewrite Hq. apply clamp_in_range.
Qed.

Lemma sum_in_range scores : forall acc,
  Forall in_range scores ->
  exists s, fold_left add scores (Num acc) = Num s
            /\ (acc <= s /\ s <= acc + 100 * inject_Z (Z.of_nat (length scores)))%Q.
Proof.
  induction scores as [|e scores IH]; intros acc Hall.
  - exists acc. simpl. split; [reflexivity|]. split; [apply Qle_refl|].
    rewrite Qmult_0_r, Qplus_0_r. apply Qle_refl.
  - apply Forall_cons in Hall as [He Hall].
    destruct e as [|q]; [contradiction|]. simpl in He.
    destruct (IH (acc + q)%Q Hall) as (s & Hs & Hlo & Hhi).
    exists s. split; [exact Hs|].
    cbn [length]. rewrite Nat2Z.inj_succ. unfold Z.succ. rewrite inject_Z_plus.
    change (inject_Z 1) with 1%Q.
    set (n := inject_Z (Z.of_nat (length scores))) in *.
    split; lra.
Qed.

Lemma mean_in_range scores :
  Forall in_range scores -> (0 < length scores)%nat ->
  in_range (Math_round (div (fold_left add scores (Num 0))
                            (Num (inject_Z (Z.of_nat (length scores)))))).
Proof.
  intros Hall Hlen.
  destruct (sum_in_range scores 0 Hall) as (s & Hs & Hlo & Hhi). rewrite Hs.
  set (n := inject_Z (Z.of_nat (length scores))) in *.
  assert (Hn : (0 < n)%Q).
  { unfold n. change 0%Q with (inject_Z 0). rewrite <- Zlt_Qlt. lia. }
  unfold div.
  assert (Hz : is_zero n = false).
  { unfold is_zero. destruct (Qeq_bool n 0) eqn:E; [|reflexivity].
    apply Qeq_bool_iff in E. rewrite E in Hn. apply Qlt_irrefl in Hn. contradiction. }
  rewrite Hz. unfold Math_round, in_range.
  assert (Hm : (0 <= s / n /\ s / n <= 100)%Q).
  { split.
    - apply Qle_shift_div_l; [exact Hn|]. lra.
    - apply Qle_shift_div_r; [exact Hn|]. lra. }
  destruct Hm as [Hm0 Hm1]. set (x := (s / n)%Q) in *. split.
  - change 0%Q with (inject_Z 0). rewrite <- Zle_Qle.
    rewrite <- (Qfloor_Z 0). apply Qfloor_resp_le.
    change (inject_Z 0) with 0%Q. lra.
  - change 100%Q with (inject_Z 100). rewrite <- Zle_Qle.
    change 100%Z with (Qfloor (100 + (1 # 2))). apply Qfloor_resp_le. lra.
Qed.

Lemma anomaly_score_in_range q :
  (0 <= q)%Q -> in_range (Math_min (Num 100) (mul (Num q) (Num 10))).
Proof.
  intros Hq. simpl. unfold Qmin.
  destruct (Qle_bool 100 (q * 10)) eqn:E.
  - split; [discriminate|apply Qle_refl].
  - split; [lra|].
    apply Qlt_le_weak, Qnot_le_lt. intros Hle. apply Qle_bool_iff in Hle. congruence.
Qed.

Lemma calculateRiskScore_in_range r :
  (forall ai, aiDetection r = Some ai -> in_range (score ai)) ->
  (forall m, metadata r = Some m -> truthy (anomalies m) = true ->
             exists q, ToNumber (anomalies m) = Num q /\ (0 <= q)%Q) ->
  in_range (calculateRiskScore r).
Proof.
  intros Hai Hmeta. unfold calculateRiskScore.
  match goal with
  | |- context [length ?l] => set (scores := l)
  end.
  assert (Hall : Forall in_range scores).
  { unfold scores. repeat apply Forall_app_2.
    - destruct (aiDetection r) as [ai|]; [|constructor].
      constructor; [exact (Hai ai eq_refl)|constructor].
    - destruct (c2paValidation r) as [c|]; [|constructor].
      unfold c2pa_scores.
      destruct (JS.not (valid c) || truthy (tampering c));
        [|destruct (truthy (JS.and (hasCredential c) (valid c)))];
        repeat constructor; discriminate.
    - destruct (metadata r) as [m|]; [|constructor].
      destruct (truthy (anomalies m)) eqn:E; [|constructor].
      destruct (Hmeta m eq_refl E) as (q & Hq & Hpos). rewrite Hq.
      constructor; [apply anomaly_score_in_range; exact Hpos|constructor]. }
  destruct (0 <? length scores)%nat eqn:Elen.
  - apply mean_in_range; [exact Hall|]. apply Nat.ltb_lt. exact Elen.
  - simpl. split; discriminate.
Qed.

(** C9.  [adaptToolResult] applied to ["c2pa_verify"] and the payload
    [{error: "no manifest"}] returns normally; the credential validation
    has [valid = false] and [hasCredential = false], the metadata records
    one anomaly, and the risk score is the rounded mean of the penalty 80
    and of [min(100, 1 * 10)], which is 45. *)
Theorem c2pa_error_payload :
  exists r c m,
    adaptToolResult "c2pa_verify" (VObj [("error", VStr "no manifest")]) = Return r
    /\ c2paValidation r = Some c
    /\ valid c = VBool false
    /\ hasCredential c = VBool false
    /\ metadata r = Some m
    /\ anomalies m = int 1
    /\ aiDetection r = None
    /\ riskScore r =
         Some (Math_round (div (add (Num 80) (Math_min (Num 100) (mul (Num 1) (Num 10))))
                               (Num 2)))
    /\ riskScore r = Some (Num 45).
Proof.
  do 3 eexists. repeat split; vm_compute; reflexivity.
Qed.

(** C8, at the failing input.  For the tool ["c2pa_verify"] and a
    validation report that is valid and whose [validation_errors] has the
    [length] -5, [adaptToolResult] records -5 anomalies and returns the
    risk score [min(100, -5 * 10) = -50], which is below 0. *)
Theorem risk_score_below_range :
  exists r m,
    adaptToolResult "c2pa_verify"
      (VObj [("validation_report",
              VObj [("is_valid", VBool true);
                    ("validation_errors", VObj [("length", int (-5))])])]) = Return r
    /\ metadata r = Some m
    /\ anomalies m = int (-5)
    /\ riskScore r = Some (Num (-50))
    /\ ~ in_range (Num (-50)).
Proof.
  do 2 eexists. repeat apply conj; try (vm_compute; reflexivity).
  intros [Hlow _]. apply Hlow. reflexivity.
Qed.

(** The other way out of the range: a score that does not read as a number
    passes through [normalizeScore] as [NaN] and becomes the risk score. *)
Lemma risk_score_nan :
  StringToNumber "n/a" = NaN ->
  exists r,
    adaptToolResult "ai_detector" (VObj [("score", VStr "n/a")]) = Return r
    /\ riskScore r = Some NaN.
Proof.
  intros Hnan. eexists. split; [reflexivity|].
  vm_compute in Hnan |- *. rewrite Hnan. reflexivity.
Qed.

End AdapterProperties.

(** ** The inbound message state machine *)

Import Socket.

Section HandlerProperties.
Context {rt : Runtime}.

Lemma prop_nullish (data : value) (k : string) :
  nullish data = true -> prop data k = VUndef.
Proof. destruct data; simpl; congruence. Qed.

Lemma typed_not_nullish (data : value) (name : string) :
  prop data "type" = VStr name -> nullish data = false.
Proof.
  intros Hty. destruct (nullish data) eqn:Hn; [|reflexivity].
  rewrite (prop_nullish _ _ Hn) in Hty. discriminate.
Qed.

(** C10.  A message that is not [null] and whose [type] is none of the
    discriminators of [ServerMessage] is handled without an exception and
    leaves the whole world, in particular every component of the store,
    as it was. *)
Theorem unknown_type_ignored (env : Env) (data : value) (w : World) :
  nullish data = false ->
  Forall (fun name => strict_eq (prop data "type") (VStr name) = false)
         ServerMessage_types ->
  handleServerMessage env data w = {| after := w; thrown := None |}
  /\ onmessage env (Some data) w = w
  /\ store (after (handleServerMessage env data w)) = store w.
Proof.
  intros Hnull Hty.
  assert (Hh : handleServerMessage env data w = {| after := w; thrown := None |}).
  { unfold handleServerMessage. rewrite Hnull.
    unfold ServerMessage_types in Hty.
    repeat match goal with
           | Hf : Forall _ (_ :: _) |- _ =>
               let Hhd := fresh "Hhd" in
               apply Forall_cons in Hf as [Hhd Hf]; cbv beta in Hhd
           end.
    cbv zeta.
    repeat match goal with
           | Hhd : strict_eq _ _ = false |- _ => rewrite Hhd; clear Hhd
           end.
    reflexivity. }
  split; [exact Hh|]. split.
  - unfold onmessage. rewrite Hh. reflexivity.
  - rewrite Hh. reflexivity.
Qed.

End HandlerProperties.

Lemma unknown_type_ignored_witness :
  handleServerMessage (rt := blind_runtime) sample_env
    (VObj [("type", VStr "totally_unknown")]) boot
  = {| after := boot; thrown := None |}
  /\ onmessage (rt := blind_runtime) sample_env
       (Some (VObj [("type", VStr "totally_unknown")])) boot = boot
  /\ store (after (handleServerMessage (rt := blind_runtime) sample_env
                     (VObj [("type", VStr "totally_unknown")]) boot)) = store boot.
Proof.
  apply (unknown_type_ignored (rt := blind_runtime)).
  - reflexivity.
  - repeat constructor.
Defined.


(** ** Streaming a reply *)

Section Streaming.
Context {rt : Runtime}.

(** Each recognised discriminator selects its case. *)
Ltac select_case Hty :=
  unfold handleServerMessage;
  rewrite (typed_not_nullish _ _ Hty), Hty; reflexivity.

Lemma handle_chat_start env data w :
  prop data "type" = VStr "chat_start" ->
  handleServerMessage env data w = done (case_chat_start env data w).
Proof. intros Hty. select_case Hty. Qed.

Lemma handle_chat_content env data w :
  prop data "type" = VStr "chat_content" ->
  handleServerMessage env data w = done (case_chat_content env data w).
Proof. intros Hty. select_case Hty. Qed.

Lemma handle_chat_complete env data w :
  prop data "type" = VStr "chat_complete" ->
  handleServerMessage env data w = done (case_chat_complete data w).
Proof. intros Hty. select_case Hty. Qed.

Lemma handle_tool_result env data w :
  prop data "type" = VStr "tool_result" ->
  handleServerMessage env data w = case_tool_result env data w.
Proof. intros Hty. select_case Hty. Qed.

Lemma num_eqb_sym a b : num_eqb a b = num_eqb b a.
Proof.
  destruct a, b; simpl; try reflexivity.
  unfold Qeq_bool. apply Z.eqb_sym.
Qed.

Lemma strict_eq_sym a b : strict_eq a b = strict_eq b a.
Proof.
  destruct a, b; simpl; try reflexivity.
  - destruct b, b0; reflexivity.
  - apply num_eqb_sym.
  - apply String.eqb_sym.
Qed.

Lemma strict_eq_string_refl s : strict_eq (VStr s) (VStr s) = true.
Proof. simpl. apply String.eqb_refl. Qed.

Lemma find_app_none {A} (f : A -> bool) (l : list A) (x : A) :
  (forall y, In y l -> f y = false) ->
  List.find f (l ++ [x]) = if f x then Some x else None.
Proof.
  induction l as [|a l IH]; intros Hl; simpl.
  - reflexivity.
  - rewrite (Hl a) by (left; reflexivity). apply IH.
    intros y Hy. apply Hl. right. exact Hy.
Qed.

Lemma map_replace_fresh (i : value) (u : Message.t) (l : list Message.t) :
  (forall y, In y l -> strict_eq (Message.id y) i = false) ->
  map (fun msg => if strict_eq (Message.id msg) i then u else msg) l = l.
Proof.
  induction l as [|a l IH]; intros Hl; simpl.
  - reflexivity.
  - rewrite (Hl a) by (left; reflexivity). f_equal. apply IH.
    intros y Hy. apply Hl. right. exact Hy.
Qed.

Lemma mark_tools_messages status tools s :
  Store.messages (mark_tools status tools s)
  = fold_left (fun ms toolMessage =>
                 map (fun msg => if strict_eq (Message.id msg) (Message.id toolMessage)
                                 then with_status status toolMessage else msg) ms)
              tools (Store.messages s).
Proof.
  revert s. induction tools as [|t tools IH]; intros s; simpl; [reflexivity|].
  rewrite IH. reflexivity.
Qed.

Lemma mark_tools_app_fresh status tools (old : list Message.t) (x : Message.t) :
  (forall t, In t tools -> strict_eq (Message.id x) (Message.id t) = false) ->
  fold_left (fun ms toolMessage =>
               map (fun msg => if strict_eq (Message.id msg) (Message.id toolMessage)
                               then with_status status toolMessage else msg) ms)
            tools (old ++ [x])
  = fold_left (fun ms toolMessage =>
                 map (fun msg => if strict_eq (Message.id msg) (Message.id toolMessage)
                                 then with_status status toolMessage else msg) ms)
              tools old ++ [x].
Proof.
  revert old. induction tools as [|t tools IH]; intros old Hx; simpl; [reflexivity|].
  rewrite map_app. simpl. rewrite (Hx t) by (left; reflexivity).
  apply IH. intros t' Ht'. apply Hx. right. exact Ht'.
Qed.

Lemma filter_app_last {A} (f : A -> bool) (l : list A) (x : A) :
  f x = false -> List.filter f (l ++ [x]) = List.filter f l.
Proof.
  intros Hx. rewrite List.filter_app. simpl. rewrite Hx. apply app_nil_r.
Qed.

Lemma chat_content_update env data w (old : list Message.t) (m : Message.t) :
  Message.id m = currentStreamingMessageId (manager w) ->
  Store.messages (store w) = old ++ [m] ->
  (forall y, In y old -> strict_eq (Message.id y) (Message.id m) = false) ->
  truthy (Message.id m) = true ->
  strict_eq (Message.id m) (Message.id m) = true ->
  case_chat_content env data w
  = on_store (Store.with_messages
      (old ++ [{| Message.id := Message.id m;
                  Message.type := Message.agent_reply;
                  Message.content :=
                    if is_thinking m then prop data "content"
                    else plus (Message.content m) (prop data "content");
                  Message.timestamp := Message.timestamp m;
                  Message.metadata := Message.metadata m |}])) w.
Proof.
  intros Hcur Hmsgs Hfresh Htruthy Hrefl.
  unfold case_chat_content. rewrite <- Hcur, Htruthy, Hmsgs.
  rewrite (find_app_none _ _ _ Hfresh), Hrefl.
  unfold Store.updateMessage, on_store. rewrite Hmsgs, map_app.
  rewrite (map_replace_fresh _ _ _ Hfresh). simpl. rewrite Hrefl. reflexivity.
Qed.

(** C1.  From any world in which no message carries the id that
    [chat_start] generates, the events [chat_start], [chat_content("A")],
    [chat_content("B")], [chat_complete] are handled without exception and
    add exactly one message: a thinking placeholder, which the first
    fragment turns into an [agent-reply] with content ["A"] and the second
    extends to ["AB"].  The earlier messages are left as [chat_complete]
    alone would leave them, and the current-streaming id ends up [null]. *)
Theorem streamed_reply env1 env2 env3 env4 d1 d2 d3 d4 (w : World) :
  prop d1 "type" = VStr "chat_start" ->
  prop d2 "type" = VStr "chat_content" ->
  prop d2 "content" = VStr "A" ->
  prop d3 "type" = VStr "chat_content" ->
  prop d3 "content" = VStr "B" ->
  prop d4 "type" = VStr "chat_complete" ->
  (forall m, In m (Store.messages (store w)) ->
             strict_eq (Message.id m) (VStr (fresh_id env1 "msg-" "-" 0)) = false) ->
  let h1 := handleServerMessage env1 d1 w in
  let h2 := handleServerMessage env2 d2 (after h1) in
  let h3 := handleServerMessage env3 d3 (after h2) in
  let h4 := handleServerMessage env4 d4 (after h3) in
  let old := Store.messages (store w) in
  (thrown h1 = None /\ thrown h2 = None /\ thrown h3 = None /\ thrown h4 = None)
  /\ Store.messages (store (after h1))
     = old ++ [reply_message env1 Message.agent_thinking "考え中..."]
  /\ currentStreamingMessageId (manager (after h1)) = VStr (fresh_id env1 "msg-" "-" 0)
  /\ Store.messages (store (after h2)) = old ++ [reply_message env1 Message.agent_reply "A"]
  /\ Store.messages (store (after h3)) = old ++ [reply_message env1 Message.agent_reply "AB"]
  /\ Store.messages (store (after h4))
     = Store.messages (store (after (handleServerMessage env4 d4 w)))
       ++ [reply_message env1 Message.agent_reply "AB"]
  /\ currentStreamingMessageId (manager (after h4)) = VNull.
Proof.
  intros T1 T2 C2 T3 C3 T4 Hfresh h1 h2 h3 h4 old.
  subst h4 h3 h2 h1.
  rewrite (handle_chat_start _ _ _ T1). simpl after.
  rewrite (handle_chat_content _ _ _ T2). simpl after.
  set (w1 := case_chat_start env1 d1 w).
  assert (M1 : Store.messages (store w1)
               = old ++ [reply_message env1 Message.agent_thinking "考え中..."])
    by reflexivity.
  assert (S1 : currentStreamingMessageId (manager w1) = VStr (fresh_id env1 "msg-" "-" 0))
    by reflexivity.
  assert (E2 : case_chat_content env2 d2 w1
               = on_store (Store.with_messages
                             (old ++ [reply_message env1 Message.agent_reply "A"])) w1).
  { rewrite (chat_content_update env2 d2 w1 old
               (reply_message env1 Message.agent_thinking "考え中...")
               (eq_sym S1) M1 Hfresh);
      [|reflexivity|apply strict_eq_string_refl].
    simpl. rewrite C2. reflexivity. }
  rewrite E2.
  set (w2 := on_store _ w1).
  assert (M2 : Store.messages (store w2)
               = old ++ [reply_message env1 Message.agent_reply "A"])
    by reflexivity.
  assert (S2 : currentStreamingMessageId (manager w2) = VStr (fresh_id env1 "msg-" "-" 0))
    by reflexivity.
  rewrite (handle_chat_content _ _ _ T3). simpl after.
  assert (E3 : case_chat_content env3 d3 w2
               = on_store (Store.with_messages
                             (old ++ [reply_message env1 Message.agent_reply "AB"])) w2).
  { rewrite (chat_content_update env3 d3 w2 old
               (reply_message env1 Message.agent_reply "A")
               (eq_sym S2) M2 Hfresh);
      [|reflexivity|apply strict_eq_string_refl].
    simpl. rewrite C3. reflexivity. }
  rewrite E3.
  set (w3 := on_store _ w2).
  assert (M3 : Store.messages (store w3)
               = old ++ [reply_message env1 Message.agent_reply "AB"])
    by reflexivity.
  rewrite !(handle_chat_complete _ _ _ T4). simpl after. simpl thrown.
  repeat split; try assumption.
  - unfold case_chat_complete. cbn [store on_store on_manager].
    rewrite !mark_tools_messages, M3.
    rewrite filter_app_last by reflexivity.
    apply mark_tools_app_fresh.
    intros t Ht. apply List.filter_In in Ht as [Ht _].
    rewrite strict_eq_sym. apply Hfresh. exact Ht.
Qed.

(** C7, as the handler has it.  Take a [chat_content] event that arrives
    when no message of the store carries the current-streaming id (ids are
    compared as values, so the id is assumed not to be an object).  When
    the id is set, as after a [tool_call], a new [agent-reply] message is
    appended under that id with the incoming fragment as its whole
    content.  When the id is [null], as after [chat_complete], the event
    changes nothing. *)
Theorem chat_content_without_message env data (w : World) :
  prop data "type" = VStr "chat_content" ->
  primitive (currentStreamingMessageId (manager w)) = true ->
  List.find (fun m => strict_eq (Message.id m) (currentStreamingMessageId (manager w)))
            (Store.messages (store w)) = None ->
  handleServerMessage env data w
  = done (if truthy (currentStreamingMessageId (manager w))
          then on_store (Store.addMessage
                           {| Message.id := currentStreamingMessageId (manager w);
                              Message.type := Message.agent_reply;
                              Message.content := prop data "content";
                              Message.timestamp := isoNow env;
                              Message.metadata := VUndef |}) w
          else w).
Proof.
  intros Hty _ Hfind.
  rewrite (handle_chat_content _ _ _ Hty). unfold case_chat_content.
  rewrite Hfind. reflexivity.
Qed.

End Streaming.

Lemma streamed_reply_witness :
  let user_message :=
    {| Message.id := VStr "user-1"; Message.type := Message.user;
       Message.content := VStr "hello"; Message.timestamp := "t0";
       Message.metadata := VUndef |} in
  let w := on_store (Store.addMessage user_message) boot in
  let handle ty fields w :=
    after (handleServerMessage (rt := blind_runtime) sample_env
             (VObj (("type", VStr ty) :: fields)) w) in
  let w4 :=
    handle "chat_complete" []
      (handle "chat_content" [("content", VStr "B")]
         (handle "chat_content" [("content", VStr "A")]
            (handle "chat_start" [] w))) in
  Store.messages (store w4)
  = [user_message; reply_message sample_env Message.agent_reply "AB"]
  /\ currentStreamingMessageId (manager w4) = VNull.
Proof.
  intros user_message w handle w4.
  pose proof (streamed_reply (rt := blind_runtime)
                sample_env sample_env sample_env sample_env
                (VObj [("type", VStr "chat_start")])
                (VObj [("type", VStr "chat_content"); ("content", VStr "A")])
                (VObj [("type", VStr "chat_content"); ("content", VStr "B")])
                (VObj [("type", VStr "chat_complete")])
                w eq_refl eq_refl eq_refl eq_refl eq_refl eq_refl) as Hrun.
  destruct Hrun as (_ & _ & _ & _ & _ & Hmessages & Hcurrent).
  - intros m [<-|[]]. reflexivity.
  - split; [exact Hmessages|exact Hcurrent].
Defined.

(** C7 as stated fails: in the initial world there is no current-streaming
    message, and a [chat_content] event with the fragment ["A"] is handled
    without creating any message. *)
Lemma chat_content_fragment_dropped :
  let data := VObj [("type", VStr "chat_content"); ("content", VStr "A")] in
  let w' := after (handleServerMessage (rt := blind_runtime) sample_env data boot) in
  currentStreamingMessageId (manager boot) = VNull
  /\ Store.messages (store boot) = []
  /\ Store.messages (store w') = []
  /\ ~ (exists m, In m (Store.messages (store w'))
                  /\ Message.type m = Message.agent_reply
                  /\ Message.content m = VStr "A").
Proof.
  repeat split. intros (m & Hin & _). exact Hin.
Qed.

Lemma chat_content_without_message_witness :
  let data := VObj [("type", VStr "chat_content"); ("content", VStr "late")] in
  let w := on_manager (set_currentStreamingMessageId (VStr "msg-after-tool-1-r")) boot in
  Store.messages
    (store (after (handleServerMessage (rt := blind_runtime) sample_env data w)))
  = [{| Message.id := VStr "msg-after-tool-1-r";
        Message.type := Message.agent_reply;
        Message.content := VStr "late";
        Message.timestamp := isoNow sample_env;
        Message.metadata := VUndef |}].
Proof.
  intros data w.
  rewrite (chat_content_without_message (rt := blind_runtime) sample_env data w
             eq_refl eq_refl eq_refl).
  reflexivity.
Defined.

(** ** Analysis results per file and tool *)

Section AnalysisResults.
Context {rt : Runtime}.

Lemma distinct_types_filter (f : AnalysisResult.t -> bool) rs :
  Store.distinct_types rs -> Store.distinct_types (List.filter f rs).
Proof.
  induction rs as [|r rs IH]; simpl; [trivial|].
  intros [Hr Hrs]. destruct (f r); simpl; [|auto].
  split; [|auto].
  apply List.Forall_forall. intros r' Hin. apply List.filter_In in Hin as [Hin _].
  revert r' Hin. apply List.Forall_forall. exact Hr.
Qed.

Lemma distinct_types_snoc rs a :
  Store.distinct_types rs ->
  (forall r, In r rs ->
             strict_eq (AnalysisResult.type r) (AnalysisResult.type a) = false) ->
  Store.distinct_types (rs ++ [a]).
Proof.
  induction rs as [|r rs IH]; simpl.
  - intros _ _. split; [constructor|trivial].
  - intros [Hr Hrs] Ha. split.
    + apply Forall_app. split; [exact Hr|].
      constructor; [|constructor]. apply Ha. left. reflexivity.
    + apply IH; [exact Hrs|]. intros r' Hr'. apply Ha. right. exact Hr'.
Qed.

Lemma filteredExisting_other ty rs r :
  In r (Store.filteredExisting ty rs) -> strict_eq (AnalysisResult.type r) ty = false.
Proof.
  unfold Store.filteredExisting. intros Hin.
  apply List.filter_In in Hin as [_ Hne].
  apply negb_true_iff in Hne. exact Hne.
Qed.

Lemma filter_filteredExisting ty rs :
  List.filter (fun r => strict_eq (AnalysisResult.type r) ty)
              (Store.filteredExisting ty rs) = [].
Proof.
  unfold Store.filteredExisting.
  induction rs as [|r rs IH]; simpl; [reflexivity|].
  destruct (strict_eq (AnalysisResult.type r) ty) eqn:E; simpl; [exact IH|].
  rewrite E. exact IH.
Qed.

(** Index-wise reading of [distinct_types]. *)
Lemma distinct_types_lookup rs :
  Store.distinct_types rs ->
  forall i j r1 r2, i <> j -> rs !! i = Some r1 -> rs !! j = Some r2 ->
    strict_eq (AnalysisResult.type r1) (AnalysisResult.type r2) = false.
Proof.
  induction rs as [|r rs IH]; intros Hd i j r1 r2 Hij H1 H2.
  - destruct i; discriminate.
  - destruct Hd as [Hr Hrs].
    destruct i as [|i], j as [|j]; simpl in H1, H2.
    + congruence.
    + injection H1 as <-. apply list_elem_of_lookup_2 in H2.
      rewrite Forall_forall in Hr. apply Hr. exact H2.
    + injection H2 as <-. apply list_elem_of_lookup_2 in H1.
      rewrite strict_eq_sym. rewrite Forall_forall in Hr. apply Hr. exact H1.
    + apply (IH Hrs i j); [congruence|assumption|assumption].
Qed.

Lemma get_set_cases {V} (m : JSMap.t V) k v k' v' :
  JSMap.get (JSMap.set m k v) k' = Some v' ->
  v' = v \/ JSMap.get m k' = Some v'.
Proof.
  induction m as [|[k0 v0] m IH]; simpl.
  - destruct (same_value_zero k k'); [|discriminate].
    intros [= <-]. left. reflexivity.
  - destruct (same_value_zero k0 k) eqn:E0; simpl.
    + destruct (same_value_zero k0 k'); [|auto].
      intros [= <-]. left. reflexivity.
    + destruct (same_value_zero k0 k'); [auto|]. exact IH.
Qed.

Lemma get_set_same {V} (m : JSMap.t V) k v :
  same_value_zero k k = true -> JSMap.get (JSMap.set m k v) k = Some v.
Proof.
  intros Hk. induction m as [|[k0 v0] m IH]; simpl.
  - rewrite Hk. reflexivity.
  - destruct (same_value_zero k0 k) eqn:E0; simpl; rewrite E0; [reflexivity|exact IH].
Qed.

Lemma setCurrentAnalysis_distinct analysis s :
  Store.results_distinct s -> Store.results_distinct (Store.setCurrentAnalysis analysis s).
Proof.
  intros Hs. destruct analysis as [a|]; [|exact Hs].
  intros key rs. unfold Store.setCurrentAnalysis. simpl.
  intros Hget. apply get_set_cases in Hget as [->|Hget]; [|exact (Hs _ _ Hget)].
  apply distinct_types_snoc.
  - apply distinct_types_filter.
    destruct (JSMap.get (Store.analysisResultsByFile s) (Store.fileKeyOf a)) as [ex|] eqn:E;
      simpl; [exact (Hs _ _ E)|trivial].
  - intros r Hr. apply (filteredExisting_other _ _ _ Hr).
Qed.

Lemma reachable_distinct s : Store.reachable s -> Store.results_distinct s.
Proof.
  induction 1 as [|a s Hs IH].
  - intros key rs Hget. discriminate.
  - destruct a; try exact IH.
    + apply setCurrentAnalysis_distinct. exact IH.
    + intros key rs Hget. discriminate.
Qed.

(** What a [tool_result] does to the maps of the store, whether or not the
    handler completes. *)
Lemma case_tool_result_maps env data w :
  Store.analysisResultsByFile (store (after (case_tool_result env data w)))
  = Store.analysisResultsByFile
      (Store.setCurrentAnalysis
         (Some (tool_analysis env (Store.fileIdMap (store w)) data)) (store w))
  /\ Store.fileIdMap (store (after (case_tool_result env data w)))
     = Store.fileIdMap (store w).
Proof.
  unfold case_tool_result, mark_tool_call.
  destruct (resolve_file (Store.fileIdMap (store w)) data) as [fileName fileId].
  destruct (truthy fileId || negb (strict_eq fileName (VStr "unknown")));
    destruct (is_detection_tool (prop data "tool_name")) as [[|]|];
    try destruct (find_tool_call _ _); split; reflexivity.
Qed.

(** Every path of the handler goes through the actions of the store. *)
Lemma on_store_reachable (a : Store.Action) w :
  Store.reachable (store w) -> Store.reachable (store (on_store (Store.dispatch a) w)).
Proof. intros Hw. apply Store.reachable_dispatch. exact Hw. Qed.

Lemma mark_tools_reachable status tools s :
  Store.reachable s -> Store.reachable (mark_tools status tools s).
Proof.
  revert s. induction tools as [|t tools IH]; intros s Hs; simpl; [exact Hs|].
  apply IH. apply (Store.reachable_dispatch (Store.UpdateMessage _ _)). exact Hs.
Qed.

Ltac expose := cbn [after store on_store on_manager manager done].


Lemma reachable_addMessage m s :
  Store.reachable s -> Store.reachable (Store.addMessage m s).
Proof. apply (Store.reachable_dispatch (Store.AddMessage m)). Qed.

Lemma reachable_updateMessage i m s :
  Store.reachable s -> Store.reachable (Store.updateMessage i m s).
Proof. apply (Store.reachable_dispatch (Store.UpdateMessage i m)). Qed.

Lemma reachable_setCurrentAnalysis a s :
  Store.reachable s -> Store.reachable (Store.setCurrentAnalysis a s).
Proof. apply (Store.reachable_dispatch (Store.SetCurrentAnalysis a)). Qed.

Lemma reachable_addAnalysisHistory a s :
  Store.reachable s -> Store.reachable (Store.addAnalysisHistory a s).
Proof. apply (Store.reachable_dispatch (Store.AddAnalysisHistory a)). Qed.

Lemma reachable_setCurrentFileKey k s :
  Store.reachable s -> Store.reachable (Store.setCurrentFileKey k s).
Proof. apply (Store.reachable_dispatch (Store.SetCurrentFileKey k)). Qed.

Lemma reachable_addFileMapping n i s :
  Store.reachable s -> Store.reachable (Store.addFileMapping n i s).
Proof. apply (Store.reachable_dispatch (Store.AddFileMapping n i)). Qed.

Ltac by_action :=
  repeat first
    [ assumption
    | apply mark_tools_reachable
    | apply reachable_addMessage
    | apply reachable_updateMessage
    | apply reachable_setCurrentAnalysis
    | apply reachable_addAnalysisHistory
    | apply reachable_setCurrentFileKey
    | apply reachable_addFileMapping ].

Lemma handler_keeps_reachable env data w :
  Store.reachable (store w) ->
  Store.reachable (store (after (handleServerMessage env data w))).
Proof.
  intros Hw. unfold handleServerMessage.
  destruct (nullish data); [exact Hw|]. cbv zeta.
  repeat match goal with
         | |- context [if strict_eq ?a ?b then _ else _] => destruct (strict_eq a b)
         end; try exact Hw; cbn [after done].
  - unfold case_chat_start. expose; by_action.
  - unfold case_chat_content.
    destruct (truthy _); [|exact Hw]. destruct (List.find _ _); expose; by_action.
  - unfold case_chat_complete. expose; by_action.
  - unfold case_tool_call. destruct (truthy _); expose; by_action.
  - unfold case_tool_result, mark_tool_call.
    destruct (resolve_file _ _) as [fileName fileId].
    destruct (truthy fileId || negb (strict_eq fileName (VStr "unknown")));
      destruct (is_detection_tool _) as [[|]|];
      try destruct (find_tool_call _ _); expose; by_action.
  - unfold case_analysis_start. expose; by_action.
  - unfold case_analysis_progress. expose; by_action.
  - unfold case_analysis_tool_result.
    destruct (is_detection_tool _) as [[|]|]; expose; by_action.
  - unfold case_analysis_complete.
    destruct (truthy _); [destruct (List.find _ _) as [m|]; [destruct (is_thinking m)|]|];
      expose; by_action.
  - unfold case_error, mark_tool_call.
    destruct (truthy _); [destruct (find_tool_call _ _)|]; expose; by_action.
  - unfold case_upload_complete.
    destruct (_ && _); expose; by_action.
Qed.

Lemma tool_analysis_type env fileIdMap data :
  AnalysisResult.type (tool_analysis env fileIdMap data) = prop data "tool_name".
Proof. unfold tool_analysis. destruct (resolve_file _ _). reflexivity. Qed.

Lemma tool_analysis_content env fileIdMap data :
  AnalysisResult.content (tool_analysis env fileIdMap data) = prop data "result".
Proof. unfold tool_analysis. destruct (resolve_file _ _). reflexivity. Qed.

(** C2.  In every state the store can reach through its actions, the
    results held under one file key have pairwise different tool types;
    the message handler only acts through those actions, so the states it
    produces are reachable; and after two [tool_result] events with the
    same tool name that resolve to the same file key, the list under that
    key holds exactly one result of that tool, with the payload of the
    second event. *)
Theorem one_result_per_tool :
  (forall s, Store.reachable s ->
     forall key rs i j r1 r2,
       JSMap.get (Store.analysisResultsByFile s) key = Some rs ->
       i <> j -> rs !! i = Some r1 -> rs !! j = Some r2 ->
       strict_eq (AnalysisResult.type r1) (AnalysisResult.type r2) = false)
  /\ (forall env data w,
        Store.reachable (store w) ->
        Store.reachable (store (after (handleServerMessage env data w))))
  /\ (forall env1 env2 d1 d2 w tool key,
        prop d1 "type" = VStr "tool_result" ->
        prop d2 "type" = VStr "tool_result" ->
        prop d1 "tool_name" = VStr tool ->
        prop d2 "tool_name" = VStr tool ->
        Store.fileKeyOf (tool_analysis env1 (Store.fileIdMap (store w)) d1) = VStr key ->
        Store.fileKeyOf (tool_analysis env2 (Store.fileIdMap (store w)) d2) = VStr key ->
        let w2 := after (handleServerMessage env2 d2
                           (after (handleServerMessage env1 d1 w))) in
        exists rs r,
          JSMap.get (Store.analysisResultsByFile (store w2)) (VStr key) = Some rs
          /\ List.filter (fun x => strict_eq (AnalysisResult.type x) (VStr tool)) rs = [r]
          /\ AnalysisResult.content r = prop d2 "result").
Proof.
  split; [|split].
  - intros s Hs key rs i j r1 r2 Hget.
    apply distinct_types_lookup. exact (reachable_distinct s Hs key rs Hget).
  - exact handler_keeps_reachable.
  - intros env1 env2 d1 d2 w tool key T1 T2 N1 N2 K1 K2 w2. subst w2.
    rewrite (handle_tool_result _ _ _ T1), (handle_tool_result _ _ _ T2).
    destruct (case_tool_result_maps env1 d1 w) as [_ Hids].
    destruct (case_tool_result_maps env2 d2 (after (case_tool_result env1 d1 w)))
      as [Hmap _].
    rewrite Hmap, Hids. clear Hmap Hids.
    set (a2 := tool_analysis env2 (Store.fileIdMap (store w)) d2) in *.
    set (s1 := store (after (case_tool_result env1 d1 w))).
    unfold Store.setCurrentAnalysis. cbn [Store.analysisResultsByFile
      Store.with_analysisResultsByFile Store.with_currentAnalysis].
    rewrite K2.
    eexists. exists a2. split; [|split].
    + apply get_set_same. apply strict_eq_string_refl.
    + rewrite List.filter_app.
      unfold a2 at 1. rewrite tool_analysis_type, N2.
      rewrite filter_filteredExisting. simpl.
      unfold a2. rewrite tool_analysis_type, N2, strict_eq_string_refl. reflexivity.
    + apply tool_analysis_content.
Qed.

End AnalysisResults.

Lemma one_result_per_tool_witness :
  let event payload :=
    VObj [("type", VStr "tool_result");
          ("tool_name", VStr "deepfake_detector");
          ("original_args", VObj [("image_path", VStr "/uploads/cat.png")]);
          ("result", payload)] in
  let first := VObj [("score", int 1)] in
  let second := VObj [("score", int 0)] in
  let w2 :=
    after (handleServerMessage (rt := blind_runtime) sample_env (event second)
             (after (handleServerMessage (rt := blind_runtime) sample_env
                       (event first) boot))) in
  exists rs r,
    JSMap.get (Store.analysisResultsByFile (store w2)) (VStr "cat.png") = Some rs
    /\ List.filter (fun x => strict_eq (AnalysisResult.type x) (VStr "deepfake_detector")) rs
       = [r]
    /\ AnalysisResult.content r = second.
Proof.
  intros event first second w2.
  destruct (one_result_per_tool (rt := blind_runtime)) as (_ & _ & Hscenario).
  apply (Hscenario sample_env sample_env (event first) (event second) boot
           "deepfake_detector" "cat.png"); reflexivity.
Defined.

(** ** The connection manager *)

Section Connection.

Lemma send_closed message w :
  socket_open w = None ->
  send message w
  = on_manager (fun m => set_messageQueue (messageQueue m ++ [message]) m) w.
Proof. intros Hclosed. unfold send. rewrite Hclosed. reflexivity. Qed.

Lemma sends_closed msgs w :
  socket_open w = None ->
  fold_left (fun w message => send message w) msgs w
  = on_manager (fun m => set_messageQueue (messageQueue m ++ msgs) m) w.
Proof.
  revert w. induction msgs as [|message msgs IH]; intros w Hclosed; simpl.
  - destruct w as [[] ? ? ? ?]. unfold on_manager, set_messageQueue. simpl.
    rewrite app_nil_r. reflexivity.
  - rewrite (send_closed _ _ Hclosed), IH by exact Hclosed.
    unfold on_manager, set_messageQueue. simpl. rewrite <- app_assoc. reflexivity.
Qed.

(** With the manager's socket open, [flushMessageQueue] returns as soon as
    it has more fuel than there are queued messages: it hands them to the
    socket in order and leaves everything else alone. *)
Lemma flush_open queue : forall fuel w h ws,
  messageQueue (manager w) = queue ->
  connected (manager w) = true ->
  socket (manager w) = Some h ->
  sockets w !! h = Some ws ->
  readyState ws = OPEN ->
  length queue < fuel ->
  exists w',
    flushMessageQueue fuel w = Some w'
    /\ messageQueue (manager w') = []
    /\ sockets w' !! h = Some {| readyState := OPEN; sent := sent ws ++ queue |}
    /\ (forall h', h' <> h -> sockets w' !! h' = sockets w !! h')
    /\ store w' = store w
    /\ timers w' = timers w
    /\ uploads w' = uploads w
    /\ reconnectAttempts (manager w') = reconnectAttempts (manager w)
    /\ socket (manager w') = socket (manager w).
Proof.
  induction queue as [|message rest IH]; intros fuel w h ws Hq Hc Hs Hh Hopen Hfuel.
  - destruct fuel as [|fuel]; [lia|]. simpl. rewrite Hq.
    exists w. rewrite app_nil_r. destruct ws as [st sn]. simpl in Hopen. subst st.
    repeat split; auto.
  - destruct fuel as [|fuel]; [simpl in Hfuel; lia|].
    simpl. rewrite Hq, Hc.
    set (w1 := on_manager (set_messageQueue rest) w).
    assert (Hopen1 : socket_open w1 = Some h).
    { unfold socket_open. simpl. rewrite Hs, Hh, Hopen. reflexivity. }
    unfold send. rewrite Hopen1.
    destruct (IH fuel (transmit h message w1) h
                {| readyState := readyState ws; sent := sent ws ++ [message] |})
      as (w' & Hflush & Hq' & Hsent & Hothers & Hstore & Htimers & Huploads & Hatt & Hsock).
    + reflexivity.
    + exact Hc.
    + exact Hs.
    + simpl. rewrite list_lookup_alter_eq, Hh. reflexivity.
    + exact Hopen.
    + simpl in Hfuel. lia.
    + exists w'. split; [exact Hflush|]. split; [exact Hq'|]. split.
      { rewrite Hsent. simpl. rewrite <- app_assoc. reflexivity. }
      split.
      { intros h' Hne. rewrite (Hothers h' Hne). simpl.
        apply list_lookup_alter_ne. congruence. }
      repeat split; assumption.
Qed.

(** The loop is bounded by nothing else: while [connected] is set and the
    manager's socket is not open (the socket whose [open] event is being
    handled is not the current one), every message taken from the queue is
    queued again and no amount of fuel is enough. *)
Lemma flush_spins fuel : forall w,
  connected (manager w) = true ->
  messageQueue (manager w) <> [] ->
  socket_open w = None ->
  flushMessageQueue fuel w = None.
Proof.
  induction fuel as [|fuel IH]; intros w Hc Hq Hclosed; simpl; [reflexivity|].
  destruct (messageQueue (manager w)) as [|message rest] eqn:Eq; [contradiction|].
  rewrite Hc. apply IH.
  - unfold send. destruct (socket_open _); exact Hc.
  - unfold send.
    replace (socket_open (on_manager (set_messageQueue rest) w)) with (socket_open w)
      by reflexivity.
    rewrite Hclosed. simpl. destruct rest; discriminate.
  - unfold send.
    replace (socket_open (on_manager (set_messageQueue rest) w)) with (socket_open w)
      by reflexivity.
    rewrite Hclosed. exact Hclosed.
Qed.

Lemma onopen_current fuel w h ws :
  socket (manager w) = Some h ->
  sockets w !! h = Some ws ->
  length (messageQueue (manager w)) < fuel ->
  exists w',
    onopen fuel h w = Some w'
    /\ messageQueue (manager w') = []
    /\ sockets w' !! h
       = Some {| readyState := OPEN; sent := sent ws ++ messageQueue (manager w) |}
    /\ (forall h', h' <> h -> sockets w' !! h' = sockets w !! h')
    /\ reconnectAttempts (manager w') = 0
    /\ Store.connectionStatus (store w') = Store.connected.
Proof.
  intros Hs Hh Hfuel. unfold onopen.
  edestruct (flush_open (messageQueue (manager w)) fuel
               (on_store (Store.setConnectionStatus Store.connected)
                  (on_manager (set_reconnectAttempts 0)
                     (on_manager (set_connected true) (set_readyState h OPEN w))))
               h {| readyState := OPEN; sent := sent ws |})
    as (w' & Hflush & Hq & Hsent & Hothers & Hstore & _ & _ & Hatt & _);
    try reflexivity; try assumption.
  - simpl. rewrite list_lookup_alter_eq, Hh. reflexivity.
  - exists w'. split; [exact Hflush|]. split; [exact Hq|]. split; [exact Hsent|].
    split.
    + intros h' Hne. rewrite (Hothers h' Hne). simpl.
      apply list_lookup_alter_ne. congruence.
    + split; [exact Hatt|]. rewrite Hstore. reflexivity.
Qed.

(** Messages passed to [send] while the manager's socket is not open are
    appended to the queue in call order and nothing is transmitted.  When
    afterwards the socket that opens is the one the manager holds, with
    that queue still in place, [onopen] returns, the queue is empty, and
    the socket has been handed the messages queued before followed by the
    new ones, in their order of insertion, each once. *)
Theorem queued_messages_flushed (msgs : list ClientMessage) (w w' : World)
  (h : nat) (ws : WebSocket) (fuel : nat) :
  socket_open w = None ->
  messageQueue (manager w')
  = messageQueue (manager (fold_left (fun w message => send message w) msgs w)) ->
  socket (manager w') = Some h ->
  sockets w' !! h = Some ws ->
  length (messageQueue (manager w')) < fuel ->
  let w1 := fold_left (fun w message => send message w) msgs w in
  messageQueue (manager w1) = messageQueue (manager w) ++ msgs
  /\ sockets w1 = sockets w
  /\ exists w2,
       onopen fuel h w' = Some w2
       /\ messageQueue (manager w2) = []
       /\ sockets w2 !! h
          = Some {| readyState := OPEN;
                    sent := sent ws ++ messageQueue (manager w) ++ msgs |}
       /\ (forall h', h' <> h -> sockets w2 !! h' = sockets w' !! h').
Proof.
  intros Hclosed Hqueue Hs Hh Hfuel w1. subst w1.
  rewrite (sends_closed msgs w Hclosed) in *.
  split; [reflexivity|]. split; [reflexivity|].
  destruct (onopen_current fuel w' h ws Hs Hh Hfuel)
    as (w2 & Hopen & Hq & Hsent & Hothers & _).
  exists w2. rewrite Hqueue in Hsent.
  split; [exact Hopen|]. split; [exact Hq|]. split; [exact Hsent|exact Hothers].
Qed.

(** *** Reconnection *)

Lemma failed_attempt_step env w t :
  timers w = [t] ->
  callback t = AutoReconnect ->
  let w' := failed_attempt env w in
  let n := reconnectAttempts (manager w) in
  reconnectAttempts (manager w') = (if (maxReconnectAttempts <=? n)%nat then n else S n)
  /\ timers w'
     = (if (maxReconnectAttempts <=? n)%nat then []
        else [{| delay := default 0%Z (reconnectDelays !! n);
                 callback := AutoReconnect |}])
  /\ Store.connectionStatus (store w')
     = (if (maxReconnectAttempts <=? n)%nat then Store.error else Store.disconnected).
Proof.
  intros Ht Hcb.
  destruct w as [[sock n cid queue conn cur] st ss ts ups]. simpl in Ht. subst ts.
  unfold failed_attempt, fire. simpl. rewrite Hcb. simpl.
  unfold onclose, handleReconnect. simpl.
  destruct n as [|[|[|[|[|n]]]]]; simpl; repeat split; reflexivity.
Qed.

(** The state of the manager after the connection dropped and [k]
    reconnection attempts failed. *)
Lemma after_failed_attempts env w h k :
  reconnectAttempts (manager w) = 0 ->
  timers w = [] ->
  let wk := Nat.iter k (failed_attempt env) (onclose h w) in
  if (k <? 5)%nat then
    timers wk = [{| delay := default 0%Z (reconnectDelays !! k);
                    callback := AutoReconnect |}]
    /\ reconnectAttempts (manager wk) = S k
  else
    timers wk = []
    /\ reconnectAttempts (manager wk) = 5
    /\ Store.connectionStatus (store wk) = Store.error.
Proof.
  intros Hatt Htimers. induction k as [|k IH].
  - simpl. unfold onclose, handleReconnect. simpl.
    rewrite Hatt. simpl. rewrite Htimers. split; reflexivity.
  - cbv zeta in *. simpl Nat.iter.
    set (wk := Nat.iter k (failed_attempt env) (onclose h w)) in *.
    destruct (k <? 5)%nat eqn:Ek.
    + destruct IH as [Ht Ha].
      destruct (failed_attempt_step env wk _ Ht eq_refl) as (Ha' & Ht' & Hst').
      rewrite Ha in Ha', Ht', Hst'.
      apply Nat.ltb_lt in Ek.
      destruct (S k <? 5)%nat eqn:Ek'.
      * apply Nat.ltb_lt in Ek'.
        assert (Hle : (maxReconnectAttempts <=? S k)%nat = false)
          by (apply Nat.leb_gt; unfold maxReconnectAttempts; lia).
        rewrite Hle in Ha', Ht'. split; assumption.
      * apply Nat.ltb_ge in Ek'.
        assert (Hle : (maxReconnectAttempts <=? S k)%nat = true)
          by (apply Nat.leb_le; unfold maxReconnectAttempts; lia).
        rewrite Hle in Ha', Ht', Hst'.
        repeat split; try assumption. rewrite Ha'. lia.
    + destruct IH as (Ht & Ha & Hst).
      apply Nat.ltb_ge in Ek.
      assert (Ek' : (S k <? 5)%nat = false) by (apply Nat.ltb_ge; lia).
      rewrite Ek'. unfold failed_attempt. rewrite Ht. repeat split; assumption.
Qed.

Lemma flush_attempts fuel : forall w w',
  flushMessageQueue fuel w = Some w' ->
  reconnectAttempts (manager w') = reconnectAttempts (manager w).
Proof.
  induction fuel as [|fuel IH]; intros w w'; simpl; [discriminate|].
  destruct (messageQueue (manager w)) as [|message rest]; [congruence|].
  destruct (connected (manager w)); [|congruence].
  intros Hflush. rewrite (IH _ _ Hflush). unfold send.
  destruct (socket_open _); reflexivity.
Qed.

(** C3.  Let the connection drop (a close event that [disconnect] did not
    cause) with the attempt counter at 0 and no timer pending, and let
    every reconnection attempt fail.  Before the n-th attempt, for n from
    1 to 5, exactly one timer is pending and its delay is the n-th of
    1000, 2000, 4000, 8000, 16000 ms.  Once five attempts have failed the
    state is [error] and no timer is pending, however long one waits, so a
    sixth attempt never takes place.  Whenever [onopen] returns the
    counter is 0, and it returns when the socket that opened is the
    manager's current one. *)
Theorem reconnect_backoff env (w : World) (h : nat) :
  reconnectAttempts (manager w) = 0 ->
  timers w = [] ->
  let after_failures k := Nat.iter k (failed_attempt env) (onclose h w) in
  (forall n, 1 <= n <= 5 ->
     reconnectDelays !! (n - 1) = Some (1000 * 2 ^ Z.of_nat (n - 1))%Z
     /\ timers (after_failures (n - 1))
        = [{| delay := (1000 * 2 ^ Z.of_nat (n - 1))%Z; callback := AutoReconnect |}])
  /\ (forall k, 5 <= k ->
        timers (after_failures k) = []
        /\ Store.connectionStatus (store (after_failures k)) = Store.error)
  /\ (forall fuel h' w1 w2,
        onopen fuel h' w1 = Some w2 -> reconnectAttempts (manager w2) = 0)
  /\ (forall fuel h' ws w1,
        socket (manager w1) = Some h' ->
        sockets w1 !! h' = Some ws ->
        length (messageQueue (manager w1)) < fuel ->
        exists w2, onopen fuel h' w1 = Some w2 /\ reconnectAttempts (manager w2) = 0).
Proof.
  intros Hatt Htimers after_failures. repeat apply conj.
  - intros n Hn.
    pose proof (after_failed_attempts env w h (n - 1) Hatt Htimers) as Hk.
    cbv zeta in Hk. fold (after_failures (n - 1)) in Hk.
    assert (Hlt : (n - 1 <? 5)%nat = true) by (apply Nat.ltb_lt; lia).
    rewrite Hlt in Hk. destruct Hk as [Ht _]. rewrite Ht.
    destruct n as [|[|[|[|[|[|n]]]]]]; try lia; split; reflexivity.
  - intros k Hk.
    pose proof (after_failed_attempts env w h k Hatt Htimers) as Hwk.
    cbv zeta in Hwk. fold (after_failures k) in Hwk.
    assert (Hge : (k <? 5)%nat = false) by (apply Nat.ltb_ge; lia).
    rewrite Hge in Hwk. destruct Hwk as (Ht & _ & Hst). split; assumption.
  - intros fuel h' w1 w2 Hopen. unfold onopen in Hopen.
    rewrite (flush_attempts _ _ _ Hopen). reflexivity.
  - intros fuel h' ws w1 Hs Hh Hfuel.
    destruct (onopen_current fuel w1 h' ws Hs Hh Hfuel)
      as (w2 & Hopen & _ & _ & _ & Ha & _).
    exists w2. split; assumption.
Qed.

(** [disconnect()] on a manager that holds a socket drops the reference
    and sets the state to [disconnected]; it schedules nothing.  The close
    event that follows runs the same [onclose] handler as any other close:
    with fewer than five attempts on the counter it schedules [connect]
    after the delay the counter selects and counts one attempt, otherwise
    it sets the state to [error]. *)
Theorem disconnect_then_close (w : World) (h : nat) :
  socket (manager w) = Some h ->
  let w1 := disconnect w in
  let w2 := onclose h w1 in
  let n := reconnectAttempts (manager w) in
  (socket (manager w1) = None
   /\ connected (manager w1) = false
   /\ Store.connectionStatus (store w1) = Store.disconnected
   /\ timers w1 = timers w
   /\ reconnectAttempts (manager w1) = n)
  /\ (if (maxReconnectAttempts <=? n)%nat
      then timers w2 = timers w
           /\ Store.connectionStatus (store w2) = Store.error
      else timers w2 = timers w ++ [{| delay := default 0%Z (reconnectDelays !! n);
                                       callback := AutoReconnect |}]
           /\ reconnectAttempts (manager w2) = S n
           /\ Store.connectionStatus (store w2) = Store.disconnected).
Proof.
  intros Hs w1 w2 n. subst w1 w2 n.
  unfold disconnect. rewrite Hs. split; [repeat split|].
  unfold onclose, handleReconnect.
  cbn [manager on_manager on_store on_sockets set_readyState close_socket
       reconnectAttempts set_connected set_socket].
  destruct (maxReconnectAttempts <=? reconnectAttempts (manager w))%nat;
    repeat split.
Qed.

End Connection.

(** C4, at the failing run.  The manager is started and its socket opens;
    the user calls [disconnect()], and nothing else closes the connection.
    [disconnect()] starts closing the socket, drops the manager's reference
    to it and sets the state to [disconnected], with no timer pending.  The
    close event it has caused then runs [onclose] as any other close does:
    a reconnection is scheduled after 1000 ms and the counter goes to 1.
    When that timer fires, [connect] runs again without any action of the
    user: a second socket is connecting, the manager holds it, and the
    state is [connecting]. *)
Theorem disconnect_reconnects :
  let w := connected_world sample_env in
  let w1 := disconnect w in
  let w2 := onclose 0 w1 in
  let w3 := fire sample_env 0 w2 in
  (sockets w = [{| readyState := OPEN; sent := [] |}]
   /\ socket (manager w) = Some 0
   /\ reconnectAttempts (manager w) = 0
   /\ Store.connectionStatus (store w) = Store.connected
   /\ timers w = [])
  /\ (sockets w1 = [{| readyState := CLOSING; sent := [] |}]
      /\ socket (manager w1) = None
      /\ connected (manager w1) = false
      /\ Store.connectionStatus (store w1) = Store.disconnected
      /\ timers w1 = [])
  /\ (sockets w2 = [{| readyState := CLOSED; sent := [] |}]
      /\ timers w2 = [{| delay := 1000; callback := AutoReconnect |}]
      /\ reconnectAttempts (manager w2) = 1
      /\ Store.connectionStatus (store w2) = Store.disconnected)
  /\ (sockets w3 = [{| readyState := CLOSED; sent := [] |};
                    {| readyState := CONNECTING; sent := [] |}]
      /\ socket (manager w3) = Some 1
      /\ Store.connectionStatus (store w3) = Store.connecting
      /\ timers w3 = []).
Proof.
  vm_compute. repeat split.
Qed.

Lemma disconnect_then_close_witness :
  let w := connected_world sample_env in
  timers (disconnect w) = []
  /\ Store.connectionStatus (store (disconnect w)) = Store.disconnected
  /\ timers (onclose 0 (disconnect w)) = [{| delay := 1000; callback := AutoReconnect |}].
Proof.
  intros w.
  destruct (disconnect_then_close w 0 eq_refl) as [(_ & _ & Hst & Ht & _) Hclose].
  split; [exact Ht|]. split; [exact Hst|]. exact (proj1 Hclose).
Defined.

Lemma reconnect_backoff_witness :
  let w := connected_world sample_env in
  let after_failures k := Nat.iter k (failed_attempt sample_env) (onclose 0 w) in
  timers (after_failures 2) = [{| delay := 4000; callback := AutoReconnect |}]
  /\ timers (after_failures 5) = []
  /\ Store.connectionStatus (store (after_failures 7)) = Store.error.
Proof.
  intros w after_failures.
  destruct (reconnect_backoff sample_env w 0 eq_refl eq_refl) as (Hdelay & Hstop & _).
  split; [exact (proj2 (Hdelay 3 (conj (le_S _ _ (le_S _ _ (le_n 1)))
                                       (le_S _ _ (le_S _ _ (le_n 3))))))|].
  split; [exact (proj1 (Hstop 5 (le_n 5)))|].
  exact (proj2 (Hstop 7 (le_S _ _ (le_S _ _ (le_n 5))))).
Defined.

Lemma queued_messages_flushed_witness :
  let w := connect sample_env None boot in
  let msgs := [chat "one" "session_x"; ping; chat "two" "session_x"] in
  let w1 := fold_left (fun w message => send message w) msgs w in
  messageQueue (manager w1) = msgs
  /\ exists w2,
       onopen 4 0 w1 = Some w2
       /\ messageQueue (manager w2) = []
       /\ sockets w2 !! 0 = Some {| readyState := OPEN; sent := msgs |}.
Proof.
  intros w msgs w1.
  destruct (queued_messages_flushed msgs w w1 0
              {| readyState := CONNECTING; sent := [] |} 4
              eq_refl eq_refl eq_refl eq_refl)
    as (Hqueue & _ & w2 & Hopen & Hempty & Hsent & _).
  - vm_compute. lia.
  - split; [exact Hqueue|]. exists w2.
    split; [exact Hopen|]. split; [exact Hempty|exact Hsent].
Defined.

(** C5, at the failing run.  The manager is started and its socket opens;
    the user asks for a manual [reconnect()]; the close event of the old
    socket arrives, and the manual and the automatic connection attempt
    both take place.  Two sockets are then connecting and the manager holds
    the second.  A chat message sent now is queued, and nothing has been
    transmitted.  The next transport to open is the first of the two
    connecting sockets: its [onopen] handler sets [connected] and calls
    [flushMessageQueue], which finds the manager's socket not open, so that
    [send] queues again what the loop takes from the queue.  The handler
    returns for no amount of fuel: the queued message is never handed to a
    socket.  Had the socket the manager holds opened instead, the message
    would have been handed to it. *)
Theorem queued_message_never_flushed :
  let w0 := onclose 0 (reconnect (connected_world sample_env)) in
  let w := sendChat "hello" (fire sample_env 0 (fire sample_env 0 w0)) in
  let message := chat "hello" ("session_" +:+ fresh_id sample_env "client_" "_" 0) in
  (sockets w = [{| readyState := CLOSED; sent := [] |};
                {| readyState := CONNECTING; sent := [] |};
                {| readyState := CONNECTING; sent := [] |}]
   /\ socket (manager w) = Some 2
   /\ messageQueue (manager w) = [message])
  /\ (forall fuel, onopen fuel 1 w = None)
  /\ (exists w', onopen 2 2 w = Some w'
                 /\ messageQueue (manager w') = []
                 /\ sockets w' !! 2 = Some {| readyState := OPEN; sent := [message] |}).
Proof.
  split; [vm_compute; repeat split|]. split.
  - intros fuel. unfold onopen. apply flush_spins.
    + reflexivity.
    + vm_compute. discriminate.
    + vm_compute. reflexivity.
  - eexists. split; [vm_compute; reflexivity|]. split; reflexivity.
Qed.

(** ** Chunked upload *)

Section Upload.
Context {rt : Runtime}.

Lemma send_uploads message w : uploads (send message w) = uploads w.
Proof. unfold send. destruct (socket_open w); reflexivity. Qed.

Lemma lookup_map {A B} (f : A -> B) (l : list A) (i : nat) :
  map f l !! i = f <$> l !! i.
Proof.
  revert i. induction l as [|a l IH]; intros [|i]; simpl; try reflexivity. apply IH.
Qed.

Lemma strict_eq_string v s : strict_eq v (VStr s) = true <-> v = VStr s.
Proof.
  destruct v; simpl; split; try discriminate.
  - intros Heq. apply String.eqb_eq in Heq. congruence.
  - intros [= ->]. apply String.eqb_refl.
Qed.

(** The handler of inbound messages leaves the uploads alone. *)
Lemma handler_uploads env data w :
  uploads (after (handleServerMessage env data w)) = uploads w.
Proof.
  unfold handleServerMessage.
  destruct (nullish data); [reflexivity|]. cbv zeta.
  repeat match goal with
         | |- context [if strict_eq ?a ?b then _ else _] => destruct (strict_eq a b)
         end; try reflexivity; cbn [after done].
  - unfold case_chat_content.
    destruct (truthy _); [|reflexivity]. destruct (List.find _ _); reflexivity.
  - unfold case_tool_call. destruct (truthy _); reflexivity.
  - unfold case_tool_result, mark_tool_call.
    destruct (resolve_file _ _) as [fileName fileId].
    destruct (truthy fileId || negb (strict_eq fileName (VStr "unknown")));
      destruct (is_detection_tool _) as [[|]|];
      try destruct (find_tool_call _ _); reflexivity.
  - unfold case_analysis_tool_result.
    destruct (is_detection_tool _) as [[|]|]; reflexivity.
  - unfold case_analysis_complete.
    destruct (truthy _); [destruct (List.find _ _) as [m|]; [destruct (is_thinking m)|]|];
      reflexivity.
  - unfold case_error, mark_tool_call.
    destruct (truthy _); [destruct (find_tool_call _ _)|]; reflexivity.
  - unfold case_upload_complete. destruct (_ && _); reflexivity.
Qed.

(** One turn of the chunk loop, whatever else has happened in between. *)
Lemma sendChunk_turn u w up :
  uploads w !! u = Some up ->
  sendChunk u w
  = if (nextChunk up <? totalChunks up)%N
    then on_uploads (alter advance u) (send (chunk_envelope up (nextChunk up)) w)
    else w.
Proof. intros Hu. unfold sendChunk. rewrite Hu. reflexivity. Qed.

Lemma sendChunk_advances u w up :
  uploads w !! u = Some up ->
  (nextChunk up <? totalChunks up)%N = true ->
  uploads (sendChunk u w) !! u = Some (advance up).
Proof.
  intros Hu Hlt. rewrite (sendChunk_turn _ _ _ Hu), Hlt. simpl.
  rewrite list_lookup_alter_eq, send_uploads, Hu. reflexivity.
Qed.

(** The listener of a pending upload, on one parsed message. *)
Lemma handleUploadResult_pending data w up :
  promise up = Pending ->
  (forall v,
     promise (handleUploadResult (Some data) w up) = Resolved v
     <-> prop data "type" = VStr "upload_complete"
         /\ prop data "upload_id" = VStr (uploadId up)
         /\ v = prop data "file_id")
  /\ (prop data "type" = VStr "upload_complete" ->
      prop data "upload_id" <> VStr (uploadId up) ->
      handleUploadResult (Some data) w up = up).
Proof.
  intros Hpending. unfold handleUploadResult.
  destruct (nullish data) eqn:Hnull.
  { rewrite (prop_nullish _ "type" Hnull). split.
    - intros v. rewrite Hpending. split; [discriminate|]. intros [Hty _]. discriminate.
    - discriminate. }
  destruct (strict_eq (prop data "type") (VStr "upload_complete")) eqn:Ety.
  - apply strict_eq_string in Ety. rewrite Ety.
    destruct (strict_eq (prop data "upload_id") (VStr (uploadId up))) eqn:Eid.
    + apply strict_eq_string in Eid. simpl. split.
      * intros v. unfold settle, removeListener.
        destruct (socket (manager w)) as [h0|], (listener up) as [h1|];
          try destruct (decide (h0 = h1)); simpl; rewrite Hpending; simpl;
          (split; [intros [= <-]; auto | intros (_ & _ & ->); reflexivity]).
      * intros _ Hne. contradiction.
    + simpl. split; [|reflexivity].
      intros v. rewrite Hpending. split; [discriminate|].
      intros (_ & Hid & _). apply strict_eq_string in Hid. congruence.
  - simpl.
    assert (Hne : prop data "type" <> VStr "upload_complete").
    { intros Hty. apply strict_eq_string in Hty. congruence. }
    split; [|intros Hty; contradiction].
    intros v. split; [|intros [Hty _]; contradiction].
    destruct (strict_eq (prop data "type") (VStr "error")
              && strict_eq (prop data "upload_id") (VStr (uploadId up))).
    + unfold settle, removeListener.
      destruct (socket (manager w)) as [h0|], (listener up) as [h1|];
        try destruct (decide (h0 = h1)); simpl; rewrite Hpending; discriminate.
    + rewrite Hpending. discriminate.
Qed.

(** For a file of 2.5 MiB (2621440 bytes), [sendFile] registers a
    pending upload of [ceil(size / CHUNK_SIZE) = 3] chunks.  The chunk loop
    then passes exactly three [file_chunk] envelopes to [send], with
    [chunk_index] 0, 1, 2 in that order and [total_chunks] 3 in each, and
    its fourth turn sends nothing.  While the upload is pending and its
    listener sits on the socket that delivers a message, the promise is
    resolved by that message exactly when it is an [upload_complete] whose
    [upload_id] is the generated id, and then with the message's
    [file_id]; an [upload_complete] with another [upload_id] leaves the
    upload as it was. *)
Theorem chunked_upload env (f : File.t) (w : World) :
  File.size f = 2621440%N ->
  let u := length (uploads w) in
  let id := fresh_id env "upload_" "_" 0 in
  let envelope (i : N) :=
    file_chunk id i 3
      (File.base64 f (i * 1048576)%N (N.min (i * 1048576 + 1048576) 2621440)%N)
      {| info_name := File.name f; info_size := 2621440%N; info_type := File.type f |} in
  let w0 := sendFile env f w in
  let w1 := sendChunk u w0 in
  let w2 := sendChunk u w1 in
  let w3 := sendChunk u w2 in
  chunk_count (File.size f) = 3%N
  /\ uploads w0 !! u
     = Some {| uploadId := id; file := f; totalChunks := 3; nextChunk := 0;
               listener := socket (manager w); promise := Pending |}
  /\ w1 = on_uploads (alter advance u) (send (envelope 0%N) w0)
  /\ w2 = on_uploads (alter advance u) (send (envelope 1%N) w1)
  /\ w3 = on_uploads (alter advance u) (send (envelope 2%N) w2)
  /\ sendChunk u w3 = w3
  /\ (forall env' h data w' up,
        uploads w' !! u = Some up ->
        uploadId up = id ->
        listener up = Some h ->
        promise up = Pending ->
        exists up',
          uploads (message_event env' h (Some data) w') !! u = Some up'
          /\ (forall v,
                promise up' = Resolved v
                <-> prop data "type" = VStr "upload_complete"
                    /\ prop data "upload_id" = VStr id
                    /\ v = prop data "file_id")
          /\ (prop data "type" = VStr "upload_complete" ->
              prop data "upload_id" <> VStr id ->
              up' = up)).
Proof.
  intros Hsize u id envelope w0 w1 w2 w3.
  assert (Hcount : chunk_count (File.size f) = 3%N) by (rewrite Hsize; reflexivity).
  set (up0 := {| uploadId := id; file := f; totalChunks := 3; nextChunk := 0;
                 listener := socket (manager w); promise := Pending |}).
  assert (H0 : uploads w0 !! u = Some up0).
  { unfold w0, sendFile. cbn [uploads setTimeout on_timers on_uploads].
    rewrite Hcount. subst u. rewrite lookup_app_r by lia.
    rewrite Nat.sub_diag. reflexivity. }
  assert (H1 : uploads w1 !! u = Some (advance up0))
    by (apply sendChunk_advances; [exact H0|reflexivity]).
  assert (H2 : uploads w2 !! u = Some (advance (advance up0)))
    by (apply sendChunk_advances; [exact H1|reflexivity]).
  assert (H3 : uploads w3 !! u = Some (advance (advance (advance up0))))
    by (apply sendChunk_advances; [exact H2|reflexivity]).
  assert (Henv : forall up i, uploadId up = id -> file up = f -> totalChunks up = 3%N ->
                              chunk_envelope up i = envelope i).
  { intros up i Hid Hf Ht. unfold chunk_envelope, envelope.
    rewrite Hid, Hf, Ht, Hsize. reflexivity. }
  split; [exact Hcount|]. split; [exact H0|].
  split; [|split; [|split; [|split]]].
  - unfold w1. rewrite (sendChunk_turn _ _ _ H0). simpl (_ <? _)%N. cbv iota.
    rewrite Henv by reflexivity. reflexivity.
  - unfold w2. rewrite (sendChunk_turn _ _ _ H1). simpl (_ <? _)%N. cbv iota.
    rewrite Henv by reflexivity. reflexivity.
  - unfold w3. rewrite (sendChunk_turn _ _ _ H2). simpl (_ <? _)%N. cbv iota.
    rewrite Henv by reflexivity. reflexivity.
  - rewrite (sendChunk_turn _ _ _ H3). reflexivity.
  - intros env' h data w' up Hu Hid Hl Hp.
    unfold message_event. cbn [uploads on_uploads].
    rewrite lookup_map. unfold onmessage. rewrite handler_uploads, Hu.
    cbn [fmap option_fmap option_map]. rewrite Hl.
    destruct (decide (Some h = Some h)) as [_|Hne]; [|congruence].
    eexists. split; [reflexivity|].
    rewrite <- Hid. apply handleUploadResult_pending. exact Hp.
Qed.

End Upload.

Lemma chunked_upload_witness :
  let f := {| File.name := "clip.mp4"; File.size := 2621440;
              File.type := "video/mp4"; File.base64 := fun _ _ => "AAAA" |} in
  let w := connected_world sample_env in
  let id := fresh_id sample_env "upload_" "_" 0 in
  let info := {| info_name := "clip.mp4"; info_size := 2621440;
                 info_type := "video/mp4" |} in
  let w3 := sendChunk 0 (sendChunk 0 (sendChunk 0 (sendFile sample_env f w))) in
  (sent <$> sockets w3 !! 0)
  = Some [file_chunk id 0 3 "AAAA" info; file_chunk id 1 3 "AAAA" info;
          file_chunk id 2 3 "AAAA" info]
  /\ sendChunk 0 w3 = w3.
Proof.
  intros f w id info w3.
  destruct (chunked_upload (rt := blind_runtime) sample_env f w eq_refl)
    as (_ & _ & _ & _ & _ & Hstop & _).
  split; [vm_compute; reflexivity|exact Hstop].
Defined.

Section UploadWhileDown.
Context {rt : Runtime}.

(** C6, at the failing run.  The connection drops and, before the
    reconnection takes place, [sendFile] is called with a file of 2.5 MiB:
    the upload is registered with [ceil(size / CHUNK_SIZE) = 3] chunks, and
    its listener is added to the socket the manager still holds, which is
    closed.  The chunk loop passes exactly three [file_chunk] envelopes to
    [send], with [chunk_index] 0, 1, 2 and [total_chunks] 3, which are
    queued; a fourth turn does nothing.  The reconnection then creates a
    new socket, and when it opens the three envelopes are transmitted on it
    in order.  The [upload_complete] that answers them, with the generated
    [upload_id], arrives on the new socket: the handler records the file id
    of the file, but the listener of the upload is not on that socket, and
    the promise stays pending (the same message on the old socket would
    have resolved it with the file id).  It is rejected when the timeout
    fires. *)
Theorem upload_complete_missed :
  let id := fresh_id sample_env "upload_" "_" 0 in
  let info := {| info_name := "clip.mp4"; info_size := 2621440;
                 info_type := "video/mp4" |} in
  let completed := VObj [("type", VStr "upload_complete"); ("upload_id", VStr id);
                         ("file_id", VStr "f1");
                         ("file_info", VObj [("name", VStr "clip.mp4")])] in
  let w1 := onclose 0 (connected_world sample_env) in
  let w2 := sendFile sample_env sample_file w1 in
  let w3 := sendChunk 0 (sendChunk 0 (sendChunk 0 w2)) in
  let w4 := fire sample_env 0 w3 in
  let w5 := default w4 (onopen 4 1 w4) in
  let w6 := message_event sample_env 1 (Some completed) w5 in
  let w7 := fire sample_env 0 w6 in
  (sockets w1 = [{| readyState := CLOSED; sent := [] |}]
   /\ timers w1 = [{| delay := 1000; callback := AutoReconnect |}])
  /\ (uploads w2
      = [{| uploadId := id; file := sample_file; totalChunks := 3; nextChunk := 0;
            listener := Some 0; promise := Pending |}])
  /\ (messageQueue (manager w3)
      = [file_chunk id 0 3 "AAAA" info; file_chunk id 1 3 "AAAA" info;
         file_chunk id 2 3 "AAAA" info]
      /\ sendChunk 0 w3 = w3)
  /\ (socket (manager w4) = Some 1
      /\ onopen 4 1 w4 = Some w5
      /\ sockets w5
         = [{| readyState := CLOSED; sent := [] |};
            {| readyState := OPEN;
               sent := [file_chunk id 0 3 "AAAA" info; file_chunk id 1 3 "AAAA" info;
                        file_chunk id 2 3 "AAAA" info] |}]
      /\ messageQueue (manager w5) = [])
  /\ (JSMap.get (Store.fileIdMap (store w6)) (VStr "clip.mp4") = Some (VStr "f1")
      /\ promise <$> uploads w6 !! 0 = Some Pending)
  /\ promise <$> uploads (message_event sample_env 0 (Some completed) w5) !! 0
     = Some (Resolved (VStr "f1"))
  /\ promise <$> uploads w7 !! 0
     = Some (Rejected (VStr "ファイルアップロードタイムアウト")).
Proof.
  vm_compute. repeat split.
Qed.

End UploadWhileDown.

(** * Further properties of the code *)

(** ** The adapter: strategies, normalisation and risk score *)

Section AdapterStrategies.
Import Adapter.
Context {rt : Runtime}.

Lemma normalized_value q :
  exists r,
    mul (div (sub (Num q) (Num 0)) (sub (Num 1) (Num 0))) (Num 100) = Num r
    /\ (r == q * 100)%Q.
Proof.
  eexists. split; [reflexivity|]. field.
Qed.

Lemma Qmin_le_r x y : (y <= x)%Q -> (Qmin x y == y)%Q.
Proof.
  intros Hle. unfold Qmin. destruct (Qle_bool x y) eqn:E; [|reflexivity].
  apply Qle_bool_iff in E. apply Qle_antisym; assumption.
Qed.

Lemma Qmin_le_l x y : (x <= y)%Q -> Qmin x y = x.
Proof.
  intros Hle. unfold Qmin. apply Qle_bool_iff in Hle. rewrite Hle. reflexivity.
Qed.

Lemma Qmax_le_r x y : (x <= y)%Q -> Qmax x y = y.
Proof.
  intros Hle. unfold Qmax. apply Qle_bool_iff in Hle. rewrite Hle. reflexivity.
Qed.

Lemma Qmax_le_l x y : (y <= x)%Q -> (Qmax x y == x)%Q.
Proof.
  intros Hle. unfold Qmax. destruct (Qle_bool x y) eqn:E; [|reflexivity].
  apply Qle_bool_iff in E. apply Qle_antisym; assumption.
Qed.

Lemma Qle_bool_false a b : Qle_bool a b = false -> (b < a)%Q.
Proof.
  intros E. apply Qnot_le_lt. intros H. apply Qle_bool_iff in H. congruence.
Qed.

Lemma clamp_monotone n n' :
  (n <= n')%Q -> (Qmax 0 (Qmin 100 n) <= Qmax 0 (Qmin 100 n'))%Q.
Proof.
  intros Hle. unfold Qmax, Qmin.
  destruct (Qle_bool 100 n) eqn:E1;
    [apply Qle_bool_iff in E1|apply Qle_bool_false in E1];
    (destruct (Qle_bool 100 n') eqn:E2;
     [apply Qle_bool_iff in E2|apply Qle_bool_false in E2]);
    repeat match goal with
           | |- context [Qle_bool ?a ?b] =>
               let E := fresh "E" in
               destruct (Qle_bool a b) eqn:E;
               [apply Qle_bool_iff in E|apply Qle_bool_false in E]
           end; lra.
Qed.

(** X1.  [normalizeScore] with the default range [0, 1], on scores that are
    neither [undefined] nor [null] and read as numbers.  The result is a
    number between 0 and 100; it is 0 for a score of at most 0 and 100 for
    a score of at least 1; and of two scores, the larger one never gets the
    smaller result. *)
Theorem normalizeScore_clamps (score score' : value) (q q' : Q) :
  nullish score = false ->
  ToNumber score = Num q ->
  nullish score' = false ->
  ToNumber score' = Num q' ->
  (q <= q')%Q ->
  exists r r',
    normalizeScore score default_range = Num r
    /\ normalizeScore score' default_range = Num r'
    /\ (0 <= r /\ r <= r' /\ r' <= 100)%Q
    /\ ((q <= 0)%Q -> (r == 0)%Q)
    /\ ((q' <= 0)%Q -> (r' == 0)%Q)
    /\ ((1 <= q)%Q -> (r == 100)%Q)
    /\ ((1 <= q')%Q -> (r' == 100)%Q).
Proof.
  intros Hnull Hnum Hnull' Hnum' Hle. unfold normalizeScore.
  assert (Hguard : strict_eq score VUndef || strict_eq score VNull = false)
    by (destruct score; simpl in *; congruence).
  assert (Hguard' : strict_eq score' VUndef || strict_eq score' VNull = false)
    by (destruct score'; simpl in *; congruence).
  rewrite Hguard, Hguard', Hnum, Hnum'. unfold default_range.
  destruct (normalized_value q) as (n & Hn & Hnq). rewrite Hn.
  destruct (normalized_value q') as (n' & Hn' & Hnq'). rewrite Hn'.
  assert (Hzero : forall x m, (m == x * 100)%Q -> (x <= 0)%Q -> (Qmax 0 (Qmin 100 m) == 0)%Q).
  { intros x m Hm H0. apply Qmax_le_l. unfold Qmin.
    destruct (Qle_bool 100 m) eqn:E.
    - apply Qle_bool_iff in E. rewrite Hm in E. lra.
    - rewrite Hm. lra. }
  assert (Hfull : forall x m, (m == x * 100)%Q -> (1 <= x)%Q ->
                              (Qmax 0 (Qmin 100 m) == 100)%Q).
  { intros x m Hm H1. rewrite Qmin_le_l by (rewrite Hm; lra).
    rewrite Qmax_le_r by discriminate. reflexivity. }
  exists (Qmax 0 (Qmin 100 n)), (Qmax 0 (Qmin 100 n')).
  split; [reflexivity|]. split; [reflexivity|]. split.
  - split; [exact (proj1 (clamp_in_range n))|].
    split; [|exact (proj2 (clamp_in_range n'))].
    apply clamp_monotone. rewrite Hnq, Hnq'. lra.
  - repeat split; eauto.
Qed.

(** X2.  Whatever the tool name and the payload, when [adaptToolResult]
    returns a result whose AI-detection score, if there is one, lies between
    0 and 100 and whose anomaly count, if it is truthy, reads as a number
    that is not negative, the risk score of the result lies between 0 and
    100. *)
Theorem adaptToolResult_risk_in_range (toolName : string) (data : value)
  (r : UnifiedAnalysisResult) :
  adaptToolResult toolName data = Return r ->
  (forall ai, aiDetection r = Some ai -> in_range (score ai)) ->
  (forall m, metadata r = Some m -> truthy (anomalies m) = true ->
             exists q, ToNumber (anomalies m) = Num q /\ (0 <= q)%Q) ->
  exists n, riskScore r = Some n /\ in_range n.
Proof.
  unfold adaptToolResult. cbv zeta.
  match goal with
  | |- match ?adapted with _ => _ end = _ -> _ => destruct adapted as [result|e]
  end; [|discriminate].
  intros [= <-] Hai Hmeta. cbn [riskScore aiDetection metadata] in *.
  eexists. split; [reflexivity|].
  apply calculateRiskScore_in_range; assumption.
Qed.


(** X4.  Whenever [adaptToolResult] returns, whichever strategy the tool
    name selects, the result carries the payload itself as [rawData], and a
    risk score. *)
Theorem adaptToolResult_keeps_rawData (toolName : string) (data : value)
  (r : UnifiedAnalysisResult) :
  adaptToolResult toolName data = Return r ->
  rawData r = Some data /\ riskScore r <> None.
Proof.
  unfold adaptToolResult. cbv zeta.
  destruct (includes "deepfake" (toLowerCase toolName)).
  { intros [= <-]. split; [|discriminate]. cbn [rawData spread].
    unfold adaptDeepfakeResult.
    repeat match goal with
           | |- context [if ?b then _ else _] =>
               match type of b with bool => destruct b end
           end; reflexivity. }
  destruct (includes "ai" (toLowerCase toolName) || includes "detect" (toLowerCase toolName)).
  { intros [= <-]. split; [reflexivity|discriminate]. }
  destruct (includes "text" (toLowerCase toolName)).
  { unfold adaptTextResult.
    destruct (map_sentences _); [|discriminate].
    intros [= <-]. split; [reflexivity|discriminate]. }
  destruct (includes "c2pa" (toLowerCase toolName)).
  { intros [= <-]. split; [|discriminate]. cbn [rawData spread].
    unfold adaptC2PAResult.
    repeat match goal with
           | |- context [if ?b then _ else _] =>
               match type of b with bool => destruct b end
           end; reflexivity. }
  intros [= <-]. split; [reflexivity|discriminate].
Qed.

(** X5.  A video payload in comprehensive mode.  The detection has the
    type [mixed].  As [a || b ? 0 : 50] reads [(a || b) ? 0 : 50], each of
    the two partial scores is 0 when its analysis carries a truthy score or
    an error and 50 otherwise, and the maximum of the two is normalised from
    the range [0, 1]: the score is 0 when both analyses carry a score or an
    error, and 100 in every other case. *)
Theorem comprehensive_mode_score (data : value) :
  let videoAnalysis := prop data "video_analysis" in
  let facial := prop videoAnalysis "facial_analysis" in
  let general := prop videoAnalysis "general_ai_analysis" in
  truthy videoAnalysis = true ->
  truthy (prop videoAnalysis "comprehensive_mode") = true ->
  exists ai,
    aiDetection (adaptDeepfakeResult data) = Some ai
    /\ type ai = mixed
    /\ score ai
       = if truthy (JS.or (prop facial "average_deepfake_score") (prop facial "error"))
            && truthy (JS.or (prop general "average_ai_score") (prop general "error"))
         then Num 0 else Num 100.
Proof.
  intros videoAnalysis facial general Hva Hmode.
  unfold adaptDeepfakeResult. fold videoAnalysis. rewrite Hva, Hmode.
  fold facial general. eexists. split; [reflexivity|]. split; [reflexivity|].
  cbn [score].
  destruct (truthy (JS.or (prop facial "average_deepfake_score") (prop facial "error")));
    destruct (truthy (JS.or (prop general "average_ai_score") (prop general "error")));
    reflexivity.
Qed.

Lemma c2pa_dispatch toolName data :
  selects_c2pa toolName = true ->
  adaptToolResult toolName data
  = Return
      (let result := spread {| riskScore := None; aiDetection := None; detailScores := None;
                               c2paValidation := None; metadata := None;
                               rawData := Some data |} (adaptC2PAResult data) in
       {| riskScore := Some (calculateRiskScore result);
          aiDetection := aiDetection result;
          detailScores := detailScores result;
          c2paValidation := c2paValidation result;
          metadata := metadata result;
          rawData := rawData result |}).
Proof.
  unfold selects_c2pa, adaptToolResult. cbv zeta.
  destruct (includes "deepfake" _); [discriminate|].
  destruct (includes "ai" _ || includes "detect" _); [discriminate|].
  destruct (includes "text" _); [discriminate|].
  destruct (includes "c2pa" _); [|discriminate]. reflexivity.
Qed.

(** X6.  For every tool name made of ASCII characters that selects the
    C2PA strategy and every payload without validation report whose [error] is truthy or whose
    [status] is ['error'], [adaptToolResult] returns a validation that is
    not valid, has no credential and no tampering, with the trust status
    ['error'], and the risk score is 45. *)
Theorem c2pa_error_forces_invalid (toolName : string) (data : value) :
  is_ascii toolName = true ->
  selects_c2pa toolName = true ->
  truthy (prop data "validation_report") = false ->
  truthy (JS.or (prop data "error")
                (VBool (strict_eq (prop data "status") (VStr "error")))) = true ->
  exists r c,
    adaptToolResult toolName data = Return r
    /\ c2paValidation r = Some c
    /\ valid c = VBool false
    /\ hasCredential c = VBool false
    /\ tampering c = VBool false
    /\ trustStatus c = VStr "error"
    /\ riskScore r = Some (Num 45).
Proof.
  intros _ Hsel Hreport Herror.
  rewrite (c2pa_dispatch _ _ Hsel). unfold adaptC2PAResult. rewrite Hreport, Herror.
  do 2 eexists. repeat split; reflexivity.
Qed.

(** X7.  For every tool name made of ASCII characters that selects the
    C2PA strategy and every payload whose validation report lists its [validation_errors] in an
    array, the anomaly count of the result is the length of that array and
    the risk score lies between 0 and 100. *)
Theorem c2pa_report_errors_counted (toolName : string) (data : value)
  (errors : list value) :
  is_ascii toolName = true ->
  selects_c2pa toolName = true ->
  truthy (prop data "validation_report") = true ->
  prop (prop data "validation_report") "validation_errors" = VArr errors ->
  exists r m n,
    adaptToolResult toolName data = Return r
    /\ metadata r = Some m
    /\ anomalies m = int (Z.of_nat (length errors))
    /\ riskScore r = Some n
    /\ in_range n.
Proof.
  intros _ Hsel Hreport Herrors.
  rewrite (c2pa_dispatch _ _ Hsel). unfold adaptC2PAResult. rewrite Hreport.
  cbv zeta. rewrite !Herrors. cbn [spread metadata].
  assert (Hanomalies :
            JS.or (prop (VArr errors) "length") (int 0) = int (Z.of_nat (length errors))).
  { simpl. unfold JS.or. destruct errors; reflexivity. }
  do 3 eexists. split; [reflexivity|]. split; [reflexivity|].
  split; [exact Hanomalies|]. split; [reflexivity|].
  apply calculateRiskScore_in_range.
  - intros ai Hai. discriminate.
  - intros m Hm _. cbn [metadata] in Hm. injection Hm as <-. cbn [anomalies].
    change (JS.or (int (Z.of_nat (length errors))) (int 0))
      with (JS.or (prop (VArr errors) "length") (int 0)).
    rewrite Hanomalies. eexists. split; [reflexivity|].
    change 0%Q with (inject_Z 0). rewrite <- Zle_Qle. lia.
Qed.

(** X8.  For every tool name made of ASCII characters that selects the
    AI-generation strategy (lower-cased, it contains ['ai'] or ['detect']
    and not ['deepfake']) and every payload
    in which the score, read from the first of the score fields that is
    present, is missing, [null] or reads as a number, [adaptToolResult]
    returns a detection of type [ai_generated] whose score
    is the normalised score, no credential validation and no metadata, and
    a risk score between 0 and 100. *)
Theorem ai_strategy_result (toolName : string) (data : value) :
  is_ascii toolName = true ->
  selects_ai toolName = true ->
  let raw := extractField data ai_generated_score_fields in
  (nullish raw = true \/ exists q, ToNumber raw = Num q) ->
  exists r ai n,
    adaptToolResult toolName data = Return r
    /\ aiDetection r = Some ai
    /\ type ai = ai_generated
    /\ score ai = normalizeScore raw default_range
    /\ c2paValidation r = None
    /\ metadata r = None
    /\ riskScore r = Some n
    /\ in_range n.
Proof.
  intros _ Hsel raw Hraw.
  unfold selects_ai in Hsel. cbv zeta in Hsel.
  unfold adaptToolResult. cbv zeta.
  destruct (includes "deepfake" _); [discriminate|].
  destruct (includes "ai" _ || includes "detect" _); [|discriminate].
  do 3 eexists. split; [reflexivity|]. split; [reflexivity|].
  repeat split.
  apply calculateRiskScore_in_range.
  - intros ai [= <-]. apply normalizeScore_in_range. exact Hraw.
  - intros m Hm. discriminate.
Qed.

End AdapterStrategies.

Lemma normalizeScore_clamps_witness :
  exists r r',
    Adapter.normalizeScore (rt := blind_runtime) (VNum (Num (1 # 4))) Adapter.default_range
    = Num r
    /\ Adapter.normalizeScore (rt := blind_runtime) (VNum (Num (3 # 2))) Adapter.default_range
       = Num r'
    /\ (0 <= r /\ r <= r' /\ r' <= 100)%Q
    /\ (r' == 100)%Q.
Proof.
  destruct (normalizeScore_clamps (rt := blind_runtime)
              (VNum (Num (1 # 4))) (VNum (Num (3 # 2))) (1 # 4) (3 # 2)
              eq_refl eq_refl eq_refl eq_refl)
    as (r & r' & Hr & Hr' & Hrange & _ & _ & _ & Hfull).
  - discriminate.
  - exists r, r'. split; [exact Hr|]. split; [exact Hr'|]. split; [exact Hrange|].
    apply Hfull. discriminate.
Defined.

Lemma adaptToolResult_risk_in_range_witness :
  exists r n,
    Adapter.adaptToolResult (rt := blind_runtime) "c2pa_verify"
      (VObj [("validation_report",
              VObj [("is_valid", VBool false);
                    ("validation_errors", VArr [VStr "signature"; VStr "hash"])])])
    = Return r
    /\ Adapter.riskScore r = Some n
    /\ Adapter.in_range n.
Proof.
  eexists.
  destruct (adaptToolResult_risk_in_range (rt := blind_runtime) "c2pa_verify"
              (VObj [("validation_report",
                      VObj [("is_valid", VBool false);
                            ("validation_errors", VArr [VStr "signature"; VStr "hash"])])])
              _ eq_refl) as (n & Hn & Hrange).
  - intros ai Hai. discriminate.
  - intros m [= <-] _. exists 2%Q. split; [reflexivity|discriminate].
  - exists n. split; [reflexivity|]. split; [exact Hn|exact Hrange].
Defined.


Lemma adaptToolResult_keeps_rawData_witness :
  exists r,
    Adapter.adaptToolResult (rt := blind_runtime) "deepfake_detector"
      (VObj [("error", VStr "timeout")]) = Return r
    /\ Adapter.rawData r = Some (VObj [("error", VStr "timeout")]).
Proof.
  eexists. split; [reflexivity|].
  apply (adaptToolResult_keeps_rawData (rt := blind_runtime) "deepfake_detector"
           (VObj [("error", VStr "timeout")]) _ eq_refl).
Defined.

Lemma comprehensive_mode_score_witness :
  exists ai,
    Adapter.aiDetection
      (Adapter.adaptDeepfakeResult (rt := blind_runtime)
         (VObj [("video_analysis",
                 VObj [("comprehensive_mode", VBool true);
                       ("facial_analysis",
                        VObj [("average_deepfake_score", VNum (Num (9 # 10)))]);
                       ("general_ai_analysis",
                        VObj [("average_ai_score", VNum (Num (8 # 10)))])])]))
    = Some ai
    /\ Adapter.type ai = Adapter.mixed
    /\ Adapter.score ai = Num 0.
Proof.
  destruct (comprehensive_mode_score (rt := blind_runtime)
              (VObj [("video_analysis",
                      VObj [("comprehensive_mode", VBool true);
                            ("facial_analysis",
                             VObj [("average_deepfake_score", VNum (Num (9 # 10)))]);
                            ("general_ai_analysis",
                             VObj [("average_ai_score", VNum (Num (8 # 10)))])])])
              eq_refl eq_refl) as (ai & Hai & Hty & Hscore).
  exists ai. split; [exact Hai|]. split; [exact Hty|exact Hscore].
Defined.

Lemma c2pa_error_forces_invalid_witness :
  exists r c,
    Adapter.adaptToolResult (rt := blind_runtime) "verify_C2PA"
      (VObj [("status", VStr "error"); ("message", VStr "unreadable file")]) = Return r
    /\ Adapter.c2paValidation r = Some c
    /\ Adapter.valid c = VBool false
    /\ Adapter.hasCredential c = VBool false
    /\ Adapter.tampering c = VBool false
    /\ Adapter.trustStatus c = VStr "error"
    /\ Adapter.riskScore r = Some (Num 45).
Proof.
  apply (c2pa_error_forces_invalid (rt := blind_runtime)); reflexivity.
Defined.

Lemma c2pa_report_errors_counted_witness :
  exists r m n,
    Adapter.adaptToolResult (rt := blind_runtime) "c2pa_verify"
      (VObj [("validation_report",
              VObj [("validation_errors", VArr [VStr "signature"; VStr "hash"])])])
    = Return r
    /\ Adapter.metadata r = Some m
    /\ Adapter.anomalies m = int 2
    /\ Adapter.riskScore r = Some n
    /\ Adapter.in_range n.
Proof.
  apply (c2pa_report_errors_counted (rt := blind_runtime) "c2pa_verify"
           (VObj [("validation_report",
                   VObj [("validation_errors", VArr [VStr "signature"; VStr "hash"])])])
           [VStr "signature"; VStr "hash"]); reflexivity.
Defined.

Lemma ai_strategy_result_witness :
  exists r ai n,
    Adapter.adaptToolResult (rt := blind_runtime) "image_detector"
      (VObj [("ai_score", VNum (Num (3 # 10)))]) = Return r
    /\ Adapter.aiDetection r = Some ai
    /\ Adapter.type ai = Adapter.ai_generated
    /\ Adapter.score ai
       = Adapter.normalizeScore (rt := blind_runtime) (VNum (Num (3 # 10)))
           Adapter.default_range
    /\ Adapter.c2paValidation r = None
    /\ Adapter.metadata r = None
    /\ Adapter.riskScore r = Some n
    /\ Adapter.in_range n.
Proof.
  apply (ai_strategy_result (rt := blind_runtime) "image_detector"
           (VObj [("ai_score", VNum (Num (3 # 10)))])); [reflexivity..|].
  right. exists (3 # 10). reflexivity.
Defined.

(** ** The session store: lookups after updates *)

Section StoreLookups.

Lemma same_value_zero_sym a b : same_value_zero a b = same_value_zero b a.
Proof.
  destruct a as [| | |[|x]| | |], b as [| | |[|y]| | |]; simpl; try reflexivity.
  - destruct b, b0; reflexivity.
  - unfold Qeq_bool. apply Z.eqb_sym.
  - apply String.eqb_sym.
Qed.

Lemma same_value_zero_string k s : same_value_zero k (VStr s) = true <-> k = VStr s.
Proof.
  destruct k as [| | |[|x]| | |]; simpl; split; try discriminate.
  - intros Heq. apply String.eqb_eq in Heq. congruence.
  - intros [= ->]. apply String.eqb_refl.
Qed.

Lemma get_absent {V} (m : JSMap.t V) k :
  Forall (fun entry => same_value_zero (fst entry) k = false) m -> JSMap.get m k = None.
Proof.
  induction m as [|[k0 v0] m IH]; intros Hall; simpl; [reflexivity|].
  apply Forall_cons in Hall as [Hk Hall]. simpl in Hk. rewrite Hk. apply IH. exact Hall.
Qed.

Lemma set_keys {V} (P : value -> Prop) (m : JSMap.t V) k v :
  Forall (fun entry => P (fst entry)) m -> P k ->
  Forall (fun entry => P (fst entry)) (JSMap.set m k v).
Proof.
  induction m as [|[k0 v0] m IH]; intros Hall Hk; simpl.
  - constructor; [exact Hk|constructor].
  - apply Forall_cons in Hall as [H0 Hall].
    destruct (same_value_zero k0 k); constructor; auto.
Qed.

Lemma set_keys_unique {V} (m : JSMap.t V) k v :
  JSMap.keys_unique m -> JSMap.keys_unique (JSMap.set m k v).
Proof.
  induction m as [|[k0 v0] m IH]; intros Hu; simpl.
  - split; [constructor|exact I].
  - destruct Hu as [H0 Hu].
    destruct (same_value_zero k0 k) eqn:E; simpl.
    + split; assumption.
    + split; [|apply IH; exact Hu].
      apply (set_keys (fun key => same_value_zero k0 key = false)); assumption.
Qed.

Lemma delete_keys {V} (P : value -> Prop) (m : JSMap.t V) k :
  Forall (fun entry => P (fst entry)) m ->
  Forall (fun entry => P (fst entry)) (JSMap.delete m k).
Proof.
  induction m as [|[k0 v0] m IH]; intros Hall; simpl; [constructor|].
  apply Forall_cons in Hall as [H0 Hall].
  destruct (same_value_zero k0 k); [exact Hall|constructor; auto].
Qed.

Lemma delete_keys_unique {V} (m : JSMap.t V) k :
  JSMap.keys_unique m -> JSMap.keys_unique (JSMap.delete m k).
Proof.
  induction m as [|[k0 v0] m IH]; intros Hu; simpl; [exact I|].
  destruct Hu as [H0 Hu].
  destruct (same_value_zero k0 k); [exact Hu|]. simpl. split; [|apply IH; exact Hu].
  apply (delete_keys (fun key => same_value_zero k0 key = false)). exact H0.
Qed.

Lemma get_delete_same {V} (m : JSMap.t V) s :
  JSMap.keys_unique m -> JSMap.get (JSMap.delete m (VStr s)) (VStr s) = None.
Proof.
  induction m as [|[k0 v0] m IH]; intros Hu; simpl; [reflexivity|].
  destruct Hu as [H0 Hu].
  destruct (same_value_zero k0 (VStr s)) eqn:E.
  - apply same_value_zero_string in E. subst k0. apply get_absent.
    eapply Forall_impl; [exact H0|]. intros [k1 v1] Hk. simpl in *.
    rewrite same_value_zero_sym. exact Hk.
  - simpl. rewrite E. apply IH. exact Hu.
Qed.

Lemma get_delete_other {V} (m : JSMap.t V) s s' :
  s <> s' -> JSMap.get (JSMap.delete m (VStr s)) (VStr s') = JSMap.get m (VStr s').
Proof.
  intros Hne. induction m as [|[k0 v0] m IH]; simpl; [reflexivity|].
  destruct (same_value_zero k0 (VStr s)) eqn:E.
  - apply same_value_zero_string in E. subst k0. simpl.
    destruct (String.eqb_spec s s'); [contradiction|reflexivity].
  - simpl. destruct (same_value_zero k0 (VStr s')); [reflexivity|exact IH].
Qed.

Lemma get_set_other {V} (m : JSMap.t V) s s' v :
  s <> s' -> JSMap.get (JSMap.set m (VStr s) v) (VStr s') = JSMap.get m (VStr s').
Proof.
  intros Hne. induction m as [|[k0 v0] m IH]; simpl.
  - destruct (String.eqb_spec s s'); [contradiction|reflexivity].
  - destruct (same_value_zero k0 (VStr s)) eqn:E; simpl.
    + apply same_value_zero_string in E. subst k0. simpl.
      destruct (String.eqb_spec s s'); [contradiction|reflexivity].
    + destruct (same_value_zero k0 (VStr s')); [reflexivity|exact IH].
Qed.

Lemma set_length {V} (m : JSMap.t V) k v :
  length (JSMap.set m k v) = if JSMap.has m k then length m else S (length m).
Proof.
  unfold JSMap.has. induction m as [|[k0 v0] m IH]; simpl; [reflexivity|].
  destruct (same_value_zero k0 k); simpl; [reflexivity|].
  rewrite IH. destruct (JSMap.get m k); reflexivity.
Qed.

(** The maps of a store the actions can reach have unique keys. *)
Lemma reachable_keys_unique s :
  Store.reachable s ->
  JSMap.keys_unique (Store.analysisResultsByFile s)
  /\ JSMap.keys_unique (Store.fileIdMap s)
  /\ JSMap.keys_unique (Store.activeTools s).
Proof.
  induction 1 as [|a s Hs (Ha & Hf & Ht)].
  - repeat split.
  - destruct a as [| | |[an|]| | | | | | | |]; simpl; repeat split;
      try assumption; try (apply set_keys_unique; assumption).
    destruct (strict_eq status VNull);
      [apply delete_keys_unique|apply set_keys_unique]; exact Ht.
Qed.

(** X9.  [updateMessage] with an id that is not an object.  When no
    message has the id, the store is left exactly as it was.  Otherwise the
    update takes the place of every message with the id and of no other:
    the list keeps its length, a message with another id stays where it
    is, and every message of the new list is the update or a message of
    the old list with another id.  Updating a second time with the same
    arguments changes nothing more. *)
Theorem updateMessage_by_id (id : value) (u : Message.t) (s : Store.AppState) :
  primitive id = true ->
  let s' := Store.updateMessage id u s in
  ((forall m, In m (Store.messages s) -> strict_eq (Message.id m) id = false) -> s' = s)
  /\ length (Store.messages s') = length (Store.messages s)
  /\ (forall i m, Store.messages s !! i = Some m ->
                  strict_eq (Message.id m) id = false ->
                  Store.messages s' !! i = Some m)
  /\ (forall m, In m (Store.messages s') ->
                m = u \/ (In m (Store.messages s) /\ strict_eq (Message.id m) id = false))
  /\ Store.updateMessage id u s' = s'.
Proof.
  intros _ s'. subst s'. unfold Store.updateMessage.
  cbn [Store.messages Store.with_messages].
  split; [|split; [apply length_map|split; [|split]]].
  - intros Habsent. destruct s. unfold Store.with_messages. cbn in *.
    f_equal. induction messages as [|m ms IH]; simpl; [reflexivity|].
    rewrite (Habsent m) by (left; reflexivity). f_equal.
    apply IH. intros m' Hm'. apply Habsent. right. exact Hm'.
  - intros i m Hi Hother. rewrite lookup_map, Hi. cbn. rewrite Hother. reflexivity.
  - intros m Hm.
    destruct (proj1 (List.in_map_iff _ _ _) Hm) as (m0 & Hm0 & Hin).
    destruct (strict_eq (Message.id m0) id) eqn:E.
    + left. symmetry. exact Hm0.
    + right. rewrite <- Hm0. split; assumption.
  - unfold Store.with_messages. cbn. f_equal. rewrite List.map_map.
    apply List.map_ext. intros m.
    destruct (strict_eq (Message.id m) id) eqn:E; [|rewrite E; reflexivity].
    destruct (strict_eq (Message.id u) id); reflexivity.
Qed.

Lemma filter_out_then_in {A} (f : A -> bool) (l : list A) :
  List.filter f (List.filter (fun x => negb (f x)) l) = [].
Proof.
  induction l as [|x l IH]; simpl; [reflexivity|].
  destruct (f x) eqn:E; simpl; [exact IH|]. rewrite E. exact IH.
Qed.

(** X10.  Storing a result and reading it back.  After
    [setCurrentAnalysis] of a result of the tool type [ty] whose file key
    is the string [k], the result is the current analysis, and
    [getAnalysisForFile k] answers the results it answered before that are
    of another tool type, in their order, followed by the new result: the
    new result is the only one of its type under [k], and every earlier
    result of another type is still there.  The results of every other
    file key, the messages and the file-id map are unchanged. *)
Theorem setCurrentAnalysis_lookup (a : AnalysisResult.t) (s : Store.AppState)
  (k ty : string) :
  Store.fileKeyOf a = VStr k ->
  AnalysisResult.type a = VStr ty ->
  let s' := Store.setCurrentAnalysis (Some a) s in
  let earlier := Store.getAnalysisForFile (VStr k) s in
  let later := Store.getAnalysisForFile (VStr k) s' in
  Store.currentAnalysis s' = Some a
  /\ later
     = List.filter (fun r => negb (strict_eq (AnalysisResult.type r) (VStr ty))) earlier
       ++ [a]
  /\ List.filter (fun r => strict_eq (AnalysisResult.type r) (VStr ty)) later = [a]
  /\ (forall r, In r earlier -> strict_eq (AnalysisResult.type r) (VStr ty) = false ->
                In r later)
  /\ (forall k', k' <> k ->
        Store.getAnalysisForFile (VStr k') s' = Store.getAnalysisForFile (VStr k') s)
  /\ Store.messages s' = Store.messages s
  /\ Store.fileIdMap s' = Store.fileIdMap s.
Proof.
  intros Hkey Hty s' earlier later.
  assert (Hlater : later
                   = List.filter (fun r => negb (strict_eq (AnalysisResult.type r) (VStr ty)))
                       earlier ++ [a]).
  { subst later earlier s'. unfold Store.setCurrentAnalysis, Store.getAnalysisForFile.
    cbn [Store.analysisResultsByFile Store.with_analysisResultsByFile
         Store.with_currentAnalysis].
    rewrite Hkey, get_set_same by apply String.eqb_refl.
    unfold Store.filteredExisting. rewrite Hty. reflexivity. }
  split; [reflexivity|]. split; [exact Hlater|]. split; [|split; [|split]].
  - rewrite Hlater, List.filter_app.
    rewrite (filter_out_then_in
               (fun r => strict_eq (AnalysisResult.type r) (VStr ty))).
    simpl. rewrite Hty. simpl. rewrite String.eqb_refl. reflexivity.
  - intros r Hin Hother. rewrite Hlater. apply List.in_or_app. left.
    apply List.filter_In. split; [exact Hin|]. rewrite Hother. reflexivity.
  - intros k' Hne. subst s'. unfold Store.setCurrentAnalysis, Store.getAnalysisForFile.
    cbn [Store.analysisResultsByFile Store.with_analysisResultsByFile
         Store.with_currentAnalysis].
    rewrite Hkey, get_set_other by congruence. reflexivity.
  - split; reflexivity.
Qed.

(** X11.  [addFileMapping] registers the id under the file name: looking
    the name up afterwards gives that id, every other name answers as
    before, and the map has one more entry exactly when the name was not in
    it. *)
Theorem addFileMapping_lookup (name : string) (id : value) (s : Store.AppState) :
  let s' := Store.addFileMapping (VStr name) id s in
  JSMap.get (Store.fileIdMap s') (VStr name) = Some id
  /\ (forall other, other <> name ->
        JSMap.get (Store.fileIdMap s') (VStr other)
        = JSMap.get (Store.fileIdMap s) (VStr other))
  /\ length (Store.fileIdMap s')
     = (if JSMap.has (Store.fileIdMap s) (VStr name)
        then length (Store.fileIdMap s) else S (length (Store.fileIdMap s))).
Proof.
  intros s'. subst s'. cbn [Store.addFileMapping Store.fileIdMap].
  split; [apply get_set_same, String.eqb_refl|]. split.
  - intros other Hne. apply get_set_other. congruence.
  - apply set_length.
Qed.

(** X12.  [updateToolStatus] on a store the actions can reach.  A status
    other than [null] is what the tool id answers afterwards; the status
    [null] removes the tool id, which then answers nothing; and in both
    cases every other tool id answers as before. *)
Theorem tool_status_lifecycle (s : Store.AppState) (toolId : string) :
  Store.reachable s ->
  (forall status, strict_eq status VNull = false ->
     JSMap.get (Store.activeTools (Store.updateToolStatus (VStr toolId) status s))
               (VStr toolId) = Some status)
  /\ JSMap.get (Store.activeTools (Store.updateToolStatus (VStr toolId) VNull s))
               (VStr toolId) = None
  /\ (forall other status, other <> toolId ->
        JSMap.get (Store.activeTools (Store.updateToolStatus (VStr toolId) status s))
                  (VStr other)
        = JSMap.get (Store.activeTools s) (VStr other)).
Proof.
  intros Hs. destruct (reachable_keys_unique s Hs) as (_ & _ & Hunique).
  cbn [Store.updateToolStatus Store.activeTools]. split; [|split].
  - intros status Hst. rewrite Hst. apply get_set_same, String.eqb_refl.
  - cbn [strict_eq]. apply get_delete_same. exact Hunique.
  - intros other status Hne. destruct (strict_eq status VNull).
    + apply get_delete_other. congruence.
    + apply get_set_other. congruence.
Qed.

End StoreLookups.

Lemma updateMessage_by_id_witness :
  let first := {| Message.id := VStr "m1"; Message.type := Message.agent_thinking;
                  Message.content := VStr "..."; Message.timestamp := "t1";
                  Message.metadata := VUndef |} in
  let second := {| Message.id := VStr "m2"; Message.type := Message.user;
                   Message.content := VStr "hello"; Message.timestamp := "t2";
                   Message.metadata := VUndef |} in
  let update := {| Message.id := VStr "m1"; Message.type := Message.agent_reply;
                   Message.content := VStr "A"; Message.timestamp := "t1";
                   Message.metadata := VUndef |} in
  let s := Store.addMessage second (Store.addMessage first Store.initial) in
  let s' := Store.updateMessage (VStr "m1") update s in
  Store.messages s' !! 1 = Some second
  /\ Store.updateMessage (VStr "m1") update s' = s'
  /\ Store.updateMessage (VStr "m3") update s = s.
Proof.
  intros first second update s s'.
  destruct (updateMessage_by_id (VStr "m1") update s eq_refl)
    as (_ & _ & Hkept & _ & Hagain).
  destruct (updateMessage_by_id (VStr "m3") update s eq_refl) as (Habsent & _).
  split; [apply (Hkept 1 second); reflexivity|]. split; [exact Hagain|].
  apply Habsent. intros m [<-|[<-|[]]]; reflexivity.
Defined.

Lemma setCurrentAnalysis_lookup_witness :
  let result ident tool payload :=
    {| AnalysisResult.id := VStr ident;
       AnalysisResult.type := VStr tool;
       AnalysisResult.content := payload;
       AnalysisResult.timestamp := "2024-01-01T00:00:00.000Z";
       AnalysisResult.fileName := VStr "cat.png";
       AnalysisResult.fileId := VStr "f1" |} in
  let first := result "analysis-1" "c2pa_verify" (int 1) in
  let other := result "analysis-2" "deepfake_detector" (int 2) in
  let second := result "analysis-3" "c2pa_verify" (int 3) in
  let s := Store.setCurrentAnalysis (Some other)
             (Store.setCurrentAnalysis (Some first) Store.initial) in
  Store.getAnalysisForFile (VStr "f1") s = [first; other]
  /\ Store.getAnalysisForFile (VStr "f1") (Store.setCurrentAnalysis (Some second) s)
     = [other; second].
Proof.
  intros result first other second s.
  split; [reflexivity|].
  destruct (setCurrentAnalysis_lookup second s "f1" "c2pa_verify" eq_refl eq_refl)
    as (_ & Hget & _).
  exact Hget.
Defined.

Lemma tool_status_lifecycle_witness :
  JSMap.get (Store.activeTools
               (Store.updateToolStatus (VStr "tool-1") (VStr "running") Store.initial))
            (VStr "tool-1") = Some (VStr "running")
  /\ JSMap.get (Store.activeTools
                  (Store.updateToolStatus (VStr "tool-1") VNull
                     (Store.updateToolStatus (VStr "tool-1") (VStr "running") Store.initial)))
               (VStr "tool-1") = None.
Proof.
  split.
  - destruct (tool_status_lifecycle Store.initial "tool-1" Store.reachable_initial)
      as (Hset & _). apply Hset. reflexivity.
  - destruct (tool_status_lifecycle
                (Store.updateToolStatus (VStr "tool-1") (VStr "running") Store.initial)
                "tool-1"
                (Store.reachable_dispatch
                   (Store.UpdateToolStatus (VStr "tool-1") (VStr "running"))
                   Store.initial Store.reachable_initial))
      as (_ & Hdelete & _). exact Hdelete.
Defined.

(** ** The inbound message state machine: frame and tool calls *)

Section HandlerFrame.
Context {rt : Runtime}.

(** Splits [handleServerMessage] into its cases. *)
Ltac handler_cases :=
  unfold handleServerMessage;
  match goal with
  | |- context [nullish ?d] => destruct (nullish d)
  end; [|cbv zeta;
  repeat match goal with
         | |- context [if strict_eq ?a ?b then _ else _] => destruct (strict_eq a b)
         end]; cbn [after done].

Ltac case_split :=
  repeat match goal with
         | |- context [match resolve_file ?m ?d with _ => _ end] =>
             destruct (resolve_file m d) as [? ?]
         | |- context [match is_detection_tool ?v with _ => _ end] =>
             destruct (is_detection_tool v) as [[|]|]
         | |- context [match find_tool_call ?t ?ms with _ => _ end] =>
             destruct (find_tool_call t ms)
         | |- context [match List.find ?f ?l with _ => _ end] =>
             destruct (List.find f l)
         | |- context [if ?b then _ else _] =>
             match type of b with bool => destruct b end
         end.

(** X13.  What [handleServerMessage] never touches, whatever the message:
    the sockets and what was sent on them, the pending timers, the uploads,
    the manager's socket, its reconnection counter, its client id, its
    message queue and its [connected] flag. *)
Theorem handler_frame env (data : value) (w : World) :
  let w' := after (handleServerMessage env data w) in
  sockets w' = sockets w
  /\ timers w' = timers w
  /\ uploads w' = uploads w
  /\ socket (manager w') = socket (manager w)
  /\ reconnectAttempts (manager w') = reconnectAttempts (manager w)
  /\ clientId (manager w') = clientId (manager w)
  /\ messageQueue (manager w') = messageQueue (manager w)
  /\ connected (manager w') = connected (manager w).
Proof.
  cbv zeta. handler_cases;
    unfold case_chat_start, case_chat_content, case_chat_complete, case_tool_call,
      case_tool_result, case_analysis_start, case_analysis_progress,
      case_analysis_tool_result, case_analysis_complete, case_error,
      case_upload_complete, mark_tool_call;
    case_split; repeat split; reflexivity.
Qed.

Lemma messages_addMessage m s :
  Store.messages (Store.addMessage m s) = Store.messages s ++ [m].
Proof. reflexivity. Qed.

Lemma messages_updateMessage i u s :
  Store.messages (Store.updateMessage i u s)
  = map (fun msg => if strict_eq (Message.id msg) i then u else msg) (Store.messages s).
Proof. reflexivity. Qed.

Lemma messages_setCurrentAnalysis a s :
  Store.messages (Store.setCurrentAnalysis a s) = Store.messages s.
Proof. destruct a; reflexivity. Qed.

Lemma messages_addAnalysisHistory a s :
  Store.messages (Store.addAnalysisHistory a s) = Store.messages s.
Proof. reflexivity. Qed.

Lemma messages_setCurrentFileKey k s :
  Store.messages (Store.setCurrentFileKey k s) = Store.messages s.
Proof. reflexivity. Qed.

Lemma messages_addFileMapping n i s :
  Store.messages (Store.addFileMapping n i s) = Store.messages s.
Proof. reflexivity. Qed.

Lemma length_mark_tools status tools s :
  length (Store.messages (mark_tools status tools s)) = length (Store.messages s).
Proof.
  revert s. induction tools as [|t tools IH]; intros s; simpl; [reflexivity|].
  rewrite IH, messages_updateMessage. apply length_map.
Qed.

Ltac messages_length :=
  cbn [store on_store on_manager after done];
  rewrite ?length_mark_tools;
  rewrite ?messages_addMessage, ?messages_updateMessage, ?messages_setCurrentAnalysis,
    ?messages_addAnalysisHistory, ?messages_setCurrentFileKey, ?messages_addFileMapping;
  rewrite ?length_app, ?length_map;
  rewrite ?messages_addMessage, ?messages_updateMessage, ?messages_setCurrentAnalysis,
    ?messages_addAnalysisHistory, ?messages_setCurrentFileKey, ?messages_addFileMapping;
  rewrite ?length_app, ?length_map;
  rewrite ?messages_addMessage, ?messages_updateMessage, ?messages_setCurrentAnalysis,
    ?messages_addAnalysisHistory, ?messages_setCurrentFileKey, ?messages_addFileMapping;
  rewrite ?length_app, ?length_map;
  cbn [length]; lia.

(** X14.  Whatever the message, [handleServerMessage] removes no message
    from the store and adds at most one. *)
Theorem handler_messages_grow env (data : value) (w : World) :
  let before := length (Store.messages (store w)) in
  let after_ := length (Store.messages (store (after (handleServerMessage env data w)))) in
  before <= after_ <= S before.
Proof.
  cbv zeta. handler_cases; try lia;
    unfold case_chat_start, case_chat_content, case_chat_complete, case_tool_call,
      case_tool_result, case_analysis_start, case_analysis_progress,
      case_analysis_tool_result, case_analysis_complete, case_error,
      case_upload_complete, mark_tool_call;
    case_split; messages_length.
Qed.

Lemma lookup_set_field k v fs : lookup_field k (set_field k v fs) = v.
Proof.
  induction fs as [|[k' v'] fs IH]; simpl.
  - rewrite String.eqb_refl. reflexivity.
  - destruct (String.eqb k k') eqn:E; simpl; rewrite E; [reflexivity|exact IH].
Qed.

Lemma with_status_settled (status : string) (m : Message.t) :
  String.eqb status "pending" = false ->
  String.eqb status "executing" = false ->
  in_progress (with_status status m) = false.
Proof.
  intros Hp He. unfold in_progress, with_status. cbn [Message.metadata prop].
  rewrite lookup_set_field. simpl. rewrite Hp, He. reflexivity.
Qed.

Lemma mark_all_settles status (tools : list Message.t) :
  String.eqb status "pending" = false ->
  String.eqb status "executing" = false ->
  forall ms,
  (forall t, In t tools -> strict_eq (Message.id t) (Message.id t) = true) ->
  (forall x, In x ms -> is_tool_call x && in_progress x = true -> In x tools) ->
  forall x,
    In x (fold_left (fun ms toolMessage =>
                       map (fun msg => if strict_eq (Message.id msg) (Message.id toolMessage)
                                       then with_status status toolMessage else msg) ms)
                    tools ms) ->
    is_tool_call x && in_progress x = false.
Proof.
  intros Hp He. induction tools as [|t tools IH]; intros ms Hself Hcover x Hx; simpl in Hx.
  - destruct (is_tool_call x && in_progress x) eqn:E; [|reflexivity].
    destruct (Hcover x Hx E).
  - apply (IH _ (fun t' Ht' => Hself t' (or_intror Ht'))) in Hx; [exact Hx|].
    intros y Hy Hprog.
    destruct (proj1 (List.in_map_iff _ _ _) Hy) as (y0 & Hy0 & Hin).
    destruct (strict_eq (Message.id y0) (Message.id t)) eqn:E.
    + rewrite <- Hy0 in Hprog.
      rewrite (with_status_settled status t Hp He), andb_false_r in Hprog. discriminate.
    + rewrite <- Hy0 in *. clear Hy0.
      destruct (Hcover y0 Hin Hprog) as [Heq|Hrest]; [|exact Hrest].
      rewrite <- Heq in E. rewrite (Hself t (or_introl eq_refl)) in E. discriminate.
Qed.

(** X15.  [chat_complete] settles the tool calls.  When every stored
    message has an id that is strictly equal to itself, after a
    [chat_complete] no tool-call message is [pending] or [executing] any
    more, the number of messages is unchanged, and the current-streaming id
    is [null]. *)
Theorem chat_complete_settles_tools env (data : value) (w : World) :
  prop data "type" = VStr "chat_complete" ->
  (forall m, In m (Store.messages (store w)) ->
             strict_eq (Message.id m) (Message.id m) = true) ->
  let w' := after (handleServerMessage env data w) in
  (forall m, In m (Store.messages (store w')) -> is_tool_call m && in_progress m = false)
  /\ length (Store.messages (store w')) = length (Store.messages (store w))
  /\ currentStreamingMessageId (manager w') = VNull.
Proof.
  intros Hty Hself w'. subst w'.
  rewrite (handle_chat_complete _ _ _ Hty). cbn [after done].
  unfold case_chat_complete. cbn [store on_store on_manager manager].
  split; [|split; [apply length_mark_tools|reflexivity]].
  intros m Hm. rewrite mark_tools_messages in Hm.
  revert m Hm. apply mark_all_settles; try reflexivity.
  - intros t Ht. apply List.filter_In in Ht as [Ht _]. apply Hself. exact Ht.
  - intros x Hx Hprog. apply List.filter_In. split; assumption.
Qed.

Lemma handle_tool_call env data w :
  prop data "type" = VStr "tool_call" ->
  handleServerMessage env data w = done (case_tool_call env data w).
Proof.
  intros Hty. unfold handleServerMessage.
  rewrite (typed_not_nullish _ _ Hty), Hty. reflexivity.
Qed.


Lemma tool_call_messages env data w :
  Store.messages (store (case_tool_call env data w))
  = Store.messages (store w) ++ [tool_message env data "executing"]
  /\ currentStreamingMessageId (manager (case_tool_call env data w))
     = VStr (fresh_id env "msg-after-tool-" "-" 1).
Proof.
  unfold case_tool_call. destruct (truthy _); split; reflexivity.
Qed.

Lemma find_last_tool_call env data (old : list Message.t) (t : string) :
  prop data "tool_name" = VStr t ->
  find_tool_call (VStr t) (old ++ [tool_message env data "executing"])
  = Some (tool_message env data "executing").
Proof.
  intros Hname. unfold find_tool_call, findLast. rewrite rev_app_distr. simpl.
  rewrite Hname. simpl. rewrite String.eqb_refl. reflexivity.
Qed.

(** X16.  A [tool_call] followed by the [tool_result] of the same tool
    name, when no stored message already carries the id generated for the
    tool-call message: the first event appends the tool-call message with
    the status [executing]; the second returns normally and turns that
    message to [success], adding no message. *)
Theorem tool_result_marks_call env1 env2 (d1 d2 : value) (w : World) (t : string) :
  prop d1 "type" = VStr "tool_call" ->
  prop d1 "tool_name" = VStr t ->
  prop d2 "type" = VStr "tool_result" ->
  prop d2 "tool_name" = VStr t ->
  (forall m, In m (Store.messages (store w)) ->
             strict_eq (Message.id m) (VStr (fresh_id env1 "tool-" "-" 0)) = false) ->
  let h1 := handleServerMessage env1 d1 w in
  let h2 := handleServerMessage env2 d2 (after h1) in
  thrown h2 = None
  /\ Store.messages (store (after h1))
     = Store.messages (store w) ++ [tool_message env1 d1 "executing"]
  /\ Store.messages (store (after h2))
     = Store.messages (store w) ++ [tool_message env1 d1 "success"].
Proof.
  intros T1 N1 T2 N2 Hfresh h1 h2. subst h2 h1.
  rewrite (handle_tool_call _ _ _ T1). cbn [after done].
  destruct (tool_call_messages env1 d1 w) as [M1 _].
  set (w1 := case_tool_call env1 d1 w) in *.
  rewrite (handle_tool_result _ _ _ T2).
  unfold case_tool_result, mark_tool_call.
  destruct (resolve_file _ _) as [fileName fileId].
  rewrite N2. cbn [is_detection_tool].
  rewrite M1, (find_last_tool_call env1 d1 _ t N1).
  split; [reflexivity|]. split; [reflexivity|].
  cbn [after done store on_store].
  rewrite messages_updateMessage.
  assert (Hsame : forall s, Store.messages s = Store.messages (store w1) ->
            map (fun msg => if strict_eq (Message.id msg)
                                         (Message.id (tool_message env1 d1 "executing"))
                            then with_status "success" (tool_message env1 d1 "executing")
                            else msg) (Store.messages s)
            = Store.messages (store w) ++ [tool_message env1 d1 "success"]).
  { intros s ->. rewrite M1, map_app, (map_replace_fresh _ _ _ Hfresh). simpl.
    rewrite String.eqb_refl. reflexivity. }
  apply Hsame.
  repeat match goal with
         | |- context [if ?b then _ else _] => destruct b
         end;
    rewrite ?messages_addAnalysisHistory, ?messages_setCurrentFileKey,
      ?messages_setCurrentAnalysis; reflexivity.
Qed.



Lemma handle_upload_complete env data w :
  prop data "type" = VStr "upload_complete" ->
  handleServerMessage env data w = done (case_upload_complete data w).
Proof.
  intros Hty. unfold handleServerMessage.
  rewrite (typed_not_nullish _ _ Hty), Hty. reflexivity.
Qed.

Lemma prop_string_receiver v k s : prop v k = VStr s -> truthy v = true.
Proof.
  destruct v; simpl; intros Hp; try discriminate; try reflexivity;
    destruct (String.eqb k "length"); discriminate.
Qed.

Lemma startsWith_app p s : startsWith p (p +:+ s) = true.
Proof.
  unfold startsWith. induction p as [|a p IH]; simpl; [destruct s; reflexivity|].
  destruct (ascii_dec a a); [exact IH|contradiction].
Qed.

Lemma truthy_string s : s <> EmptyString -> truthy (VStr s) = true.
Proof. intros Hne. simpl. apply negb_true_iff, String.eqb_neq. exact Hne. Qed.

Lemma name_of_file_id_set (m : JSMap.t value) (name fid : string) :
  Forall (fun entry => strict_eq (snd entry) (VStr fid) = true -> fst entry = VStr name) m ->
  name_of_file_id (JSMap.set m (VStr name) (VStr fid)) (VStr fid) = Some (VStr name).
Proof.
  unfold name_of_file_id. induction m as [|[k0 v0] m IH]; intros Hall; simpl.
  - rewrite String.eqb_refl. reflexivity.
  - apply Forall_cons in Hall as [H0 Hall]. simpl in H0.
    destruct (same_value_zero k0 (VStr name)) eqn:E; simpl.
    + rewrite String.eqb_refl. simpl.
      destruct k0 as [| | |[|x]| | |]; simpl in E; try discriminate.
      apply String.eqb_eq in E. subst. reflexivity.
    + destruct (strict_eq v0 (VStr fid)) eqn:Ev.
      * rewrite (H0 eq_refl) in E. simpl in E. rewrite String.eqb_refl in E. discriminate.
      * apply IH. exact Hall.
Qed.

(** X19.  From [upload_complete] to the result of a tool called on the
    upload.  After an [upload_complete] that gives a non-empty file id and a
    non-empty file name other than ['unknown'], when no other name is
    registered with that id, the file-id map answers the id for the name; a
    tool result whose [image_path] argument is ['file:' + id] is attributed
    to that name and id, and is filed under the id. *)
Theorem uploaded_file_resolves env env' (d data : value) (w : World) (name fid : string) :
  prop d "type" = VStr "upload_complete" ->
  prop d "file_id" = VStr fid ->
  path d ["file_info"; "name"] = VStr name ->
  fid <> EmptyString ->
  name <> EmptyString ->
  name <> "unknown" ->
  Forall (fun entry => strict_eq (snd entry) (VStr fid) = true -> fst entry = VStr name)
         (Store.fileIdMap (store w)) ->
  prop (prop data "original_args") "image_path" = VStr ("file:" +:+ fid) ->
  let w' := after (handleServerMessage env d w) in
  JSMap.get (Store.fileIdMap (store w')) (VStr name) = Some (VStr fid)
  /\ resolve_file (Store.fileIdMap (store w')) data = (VStr name, VStr fid)
  /\ Store.fileKeyOf (tool_analysis env' (Store.fileIdMap (store w')) data) = VStr fid.
Proof.
  intros Hty Hid Hname Hfid Hn Hunknown Hmap Hpath w'. subst w'.
  rewrite (handle_upload_complete _ _ _ Hty). cbn [after done].
  unfold case_upload_complete. rewrite Hid, Hname.
  assert (Hinfo : truthy (prop d "file_info") = true)
    by (apply (prop_string_receiver _ "name" name); exact Hname).
  rewrite (truthy_string _ Hfid), (truthy_string _ Hn), Hinfo.
  cbn [andb store on_store Store.fileIdMap Store.addFileMapping].
  set (m' := JSMap.set (Store.fileIdMap (store w)) (VStr name) (VStr fid)).
  assert (Hresolve : resolve_file m' data = (VStr name, VStr fid)).
  { assert (Hfirst : first_path (prop data "original_args") = Some ("file:" +:+ fid)).
    { unfold first_path. rewrite Hpath. reflexivity. }
    assert (Hstarts : startsWith "file:" ("file:" +:+ fid) = true)
      by apply startsWith_app.
    assert (Hrest : substring_from 5 ("file:" +:+ fid) = fid) by reflexivity.
    unfold resolve_file.
    rewrite (prop_string_receiver _ _ _ Hpath), Hfirst, Hstarts, Hrest.
    unfold m'. rewrite (name_of_file_id_set _ _ _ Hmap).
    assert (Hu : String.eqb name "unknown" = false)
      by (apply String.eqb_neq; exact Hunknown).
    unfold JS.not. rewrite (truthy_string _ Hfid). simpl. rewrite Hu. reflexivity. }
  split; [apply get_set_same, String.eqb_refl|]. split; [exact Hresolve|].
  unfold tool_analysis. rewrite Hresolve. unfold Store.fileKeyOf, JS.or.
  cbn [AnalysisResult.fileId AnalysisResult.fileName].
  rewrite !(truthy_string _ Hfid). reflexivity.
Qed.

(** X20.  A [tool_result] of the tool [t] that names no file (no
    [original_args] and no file name or path in the result) is handled
    without error and filed under the key ['unknown'], with ['unknown'] as
    file name and file id.  Under that key the results of other tools that
    were there stay, in their order, an earlier result of [t] is gone, and
    the new result comes last: it is the only result of [t] there.  The
    current file key is left as it was. *)
Theorem unattributed_result env (data : value) (w : World) (t : string) :
  prop data "type" = VStr "tool_result" ->
  prop data "tool_name" = VStr t ->
  truthy (prop data "original_args") = false ->
  truthy (prop (prop data "result") "file_name") = false ->
  truthy (prop (prop data "result") "media_path") = false ->
  truthy (path (prop data "result") ["local_analysis"; "file_path"]) = false ->
  let h := handleServerMessage env data w in
  let earlier := Store.getAnalysisForFile (VStr "unknown") (store w) in
  let later := Store.getAnalysisForFile (VStr "unknown") (store (after h)) in
  let filed :=
    {| AnalysisResult.id := VStr (fresh_id env "analysis-" "-" 0);
       AnalysisResult.type := VStr t;
       AnalysisResult.content := prop data "result";
       AnalysisResult.timestamp := isoNow env;
       AnalysisResult.fileName := VStr "unknown";
       AnalysisResult.fileId := VStr "unknown" |} in
  thrown h = None
  /\ later
     = List.filter (fun r => negb (strict_eq (AnalysisResult.type r) (VStr t))) earlier
       ++ [filed]
  /\ List.filter (fun r => strict_eq (AnalysisResult.type r) (VStr t)) later = [filed]
  /\ Store.currentFileKey (store (after h)) = Store.currentFileKey (store w).
Proof.
  intros Hty Hname Hargs Hf Hm Hl h earlier later filed.
  assert (Hresolve : forall m, resolve_file m data = (VStr "unknown", VNull)).
  { intros m. unfold resolve_file. rewrite Hargs, Hf, Hm, Hl. reflexivity. }
  assert (Hh : thrown h = None
               /\ later
                  = List.filter
                      (fun r => negb (strict_eq (AnalysisResult.type r) (VStr t))) earlier
                    ++ [filed]
               /\ Store.currentFileKey (store (after h)) = Store.currentFileKey (store w)).
  { subst later earlier filed h. rewrite (handle_tool_result _ _ _ Hty).
    unfold case_tool_result, mark_tool_call, tool_analysis.
    rewrite Hresolve, Hname. cbn [is_detection_tool].
    change (truthy VNull || negb (strict_eq (VStr "unknown") (VStr "unknown")))
      with false.
    cbn iota.
    split; [reflexivity|]. split.
    - unfold Store.getAnalysisForFile.
      repeat match goal with
             | |- context [match find_tool_call ?x ?ms with _ => _ end] =>
                 destruct (find_tool_call x ms)
             | |- context [if ?b then _ else _] =>
                 match type of b with bool => destruct b end
             end;
        cbn [after done store on_store Store.analysisResultsByFile Store.updateMessage
             Store.with_messages Store.addAnalysisHistory Store.setCurrentAnalysis
             Store.setCurrentFileKey
             Store.with_analysisResultsByFile Store.with_currentAnalysis
             Store.fileKeyOf AnalysisResult.fileId AnalysisResult.fileName
             AnalysisResult.type JS.or truthy];
        (rewrite get_set_same by reflexivity); reflexivity.
    - repeat match goal with
             | |- context [match find_tool_call ?x ?ms with _ => _ end] =>
                 destruct (find_tool_call x ms)
             | |- context [if ?b then _ else _] =>
                 match type of b with bool => destruct b end
             end; reflexivity. }
  destruct Hh as (Hthrown & Hlater & Hkey).
  split; [exact Hthrown|]. split; [exact Hlater|]. split; [|exact Hkey].
  rewrite Hlater, List.filter_app.
  rewrite (filter_out_then_in (fun r => strict_eq (AnalysisResult.type r) (VStr t))).
  subst filed. simpl. rewrite String.eqb_refl. reflexivity.
Qed.

Lemma includes_sep_app (sep : ascii) (dir rest : string) :
  includes (String sep EmptyString) (dir +:+ String sep rest) = true.
Proof.
  induction dir as [|c dir IH]; simpl.
  - destruct (ascii_dec sep sep); [|contradiction]. destruct rest; reflexivity.
  - rewrite IH. apply orb_true_r.
Qed.

Lemma last_segment_none (sep : ascii) (file : string) :
  includes (String sep EmptyString) file = false -> last_segment sep file = file.
Proof.
  destruct file as [|c file]; simpl; [reflexivity|].
  intros Hnone. apply orb_false_iff in Hnone as [Hc Hrest]. rewrite Hrest.
  destruct (Ascii.eqb_spec c sep) as [->|_]; [|reflexivity].
  destruct (ascii_dec sep sep); [|contradiction]. destruct file; discriminate.
Qed.

Lemma last_segment_app (sep : ascii) (dir file : string) :
  includes (String sep EmptyString) file = false ->
  last_segment sep (dir +:+ String sep file) = file.
Proof.
  intros Hnone. induction dir as [|c dir IH]; simpl.
  - rewrite Ascii.eqb_refl. apply last_segment_none. exact Hnone.
  - rewrite includes_sep_app. destruct (Ascii.eqb c sep); exact IH.
Qed.

(** X21.  A [tool_result] whose [image_path] argument is a path
    [dir + '/' + file], not of the form ['file:...'], with [file] non-empty,
    free of ['/'] and other than ['unknown']: the file name is [file], the
    last segment of the path, and the file id is the one the file-id map
    holds for [file], or [null] when it holds none. *)
Theorem path_argument_resolves (fileIdMap : JSMap.t value) (data : value)
  (dir file : string) :
  prop (prop data "original_args") "image_path" = VStr (dir +:+ "/" +:+ file) ->
  startsWith "file:" (dir +:+ "/" +:+ file) = false ->
  includes "/" file = false ->
  file <> EmptyString ->
  file <> "unknown" ->
  base_name (dir +:+ "/" +:+ file) = file
  /\ resolve_file fileIdMap data
     = (VStr file, default VNull (JSMap.get fileIdMap (VStr file))).
Proof.
  intros Hpath Hprefix Hslash Hfile Hunknown.
  assert (Hbase : base_name (dir +:+ "/" +:+ file) = file).
  { unfold base_name. change (dir +:+ "/" +:+ file) with (dir +:+ String "/" file).
    rewrite (last_segment_app _ _ _ Hslash).
    destruct (String.eqb_spec file EmptyString); [contradiction|reflexivity]. }
  split; [exact Hbase|].
  assert (Hfirst : first_path (prop data "original_args") = Some (dir +:+ "/" +:+ file)).
  { unfold first_path. rewrite Hpath. cbn [List.find is_string andb].
    rewrite truthy_string; [reflexivity|]. destruct dir; discriminate. }
  unfold resolve_file.
  rewrite (prop_string_receiver _ _ _ Hpath), Hfirst, Hprefix, Hbase.
  assert (Hu : String.eqb file "unknown" = false) by (apply String.eqb_neq; exact Hunknown).
  simpl. rewrite Hu. simpl. unfold JSMap.has.
  destruct (JSMap.get fileIdMap (VStr file)); simpl; rewrite ?Hu; reflexivity.
Qed.

End HandlerFrame.

Lemma chat_complete_settles_tools_witness :
  let call := VObj [("type", VStr "tool_call"); ("tool_name", VStr "c2pa_verify")] in
  let w := after (handleServerMessage (rt := blind_runtime) sample_env call boot) in
  let w' := after (handleServerMessage (rt := blind_runtime) sample_env
                     (VObj [("type", VStr "chat_complete")]) w) in
  (exists m, In m (Store.messages (store w)) /\ is_tool_call m && in_progress m = true)
  /\ (forall m, In m (Store.messages (store w')) -> is_tool_call m && in_progress m = false)
  /\ length (Store.messages (store w')) = 1
  /\ currentStreamingMessageId (manager w') = VNull.
Proof.
  intros call w w'. split.
  - eexists. split; [left; reflexivity|reflexivity].
  - apply (chat_complete_settles_tools (rt := blind_runtime) sample_env
             (VObj [("type", VStr "chat_complete")]) w eq_refl).
    intros m [<-|[]]. reflexivity.
Defined.

Lemma tool_result_marks_call_witness :
  let call := VObj [("type", VStr "tool_call"); ("tool_name", VStr "c2pa_verify")] in
  let result := VObj [("type", VStr "tool_result"); ("tool_name", VStr "c2pa_verify");
                      ("result", VObj [("status", VStr "ok")])] in
  let h2 := handleServerMessage (rt := blind_runtime) sample_env result
              (after (handleServerMessage (rt := blind_runtime) sample_env call boot)) in
  thrown h2 = None
  /\ Store.messages (store (after h2))
     = [tool_message (rt := blind_runtime) sample_env call "success"].
Proof.
  intros call result h2.
  destruct (tool_result_marks_call (rt := blind_runtime) sample_env sample_env call result
              boot "c2pa_verify" eq_refl eq_refl eq_refl eq_refl)
    as (Hthrown & _ & Hmessages).
  - intros m [].
  - split; [exact Hthrown|exact Hmessages].
Defined.



Lemma uploaded_file_resolves_witness :
  let uploaded := VObj [("type", VStr "upload_complete"); ("file_id", VStr "f1");
                        ("file_info", VObj [("name", VStr "cat.png")])] in
  let result := VObj [("type", VStr "tool_result"); ("tool_name", VStr "c2pa_verify");
                      ("original_args", VObj [("image_path", VStr "file:f1")])] in
  let w' := after (handleServerMessage (rt := blind_runtime) sample_env uploaded boot) in
  JSMap.get (Store.fileIdMap (store w')) (VStr "cat.png") = Some (VStr "f1")
  /\ resolve_file (Store.fileIdMap (store w')) result = (VStr "cat.png", VStr "f1")
  /\ Store.fileKeyOf (tool_analysis sample_env
                        (Store.fileIdMap (store w')) result) = VStr "f1".
Proof.
  intros uploaded result w'.
  apply (uploaded_file_resolves (rt := blind_runtime) sample_env sample_env uploaded result
           boot "cat.png" "f1"); try reflexivity; try discriminate.
  constructor.
Defined.

Lemma unattributed_result_witness :
  let event tool payload :=
    VObj [("type", VStr "tool_result"); ("tool_name", VStr tool); ("result", payload)] in
  let filed tool payload :=
    {| AnalysisResult.id := VStr (fresh_id sample_env "analysis-" "-" 0);
       AnalysisResult.type := VStr tool;
       AnalysisResult.content := payload;
       AnalysisResult.timestamp := isoNow sample_env;
       AnalysisResult.fileName := VStr "unknown";
       AnalysisResult.fileId := VStr "unknown" |} in
  let handle data w := after (handleServerMessage (rt := blind_runtime) sample_env data w) in
  let w := handle (event "deepfake_detector" (VObj [("score", int 1)]))
             (handle (event "c2pa_verify" (VObj [("status", VStr "first")])) boot) in
  let h := handleServerMessage (rt := blind_runtime) sample_env
             (event "c2pa_verify" (VObj [("status", VStr "second")])) w in
  Store.getAnalysisForFile (VStr "unknown") (store w)
  = [filed "c2pa_verify" (VObj [("status", VStr "first")]);
     filed "deepfake_detector" (VObj [("score", int 1)])]
  /\ thrown h = None
  /\ Store.getAnalysisForFile (VStr "unknown") (store (after h))
     = [filed "deepfake_detector" (VObj [("score", int 1)]);
        filed "c2pa_verify" (VObj [("status", VStr "second")])]
  /\ Store.currentFileKey (store (after h)) = VNull.
Proof.
  intros event filed handle w h.
  split; [reflexivity|].
  destruct (unattributed_result (rt := blind_runtime) sample_env
              (event "c2pa_verify" (VObj [("status", VStr "second")])) w "c2pa_verify"
              eq_refl eq_refl eq_refl eq_refl eq_refl eq_refl)
    as (Hthrown & Hlater & _ & Hkey).
  split; [exact Hthrown|]. split; [exact Hlater|exact Hkey].
Defined.

Lemma path_argument_resolves_witness :
  let result := VObj [("type", VStr "tool_result"); ("tool_name", VStr "c2pa_verify");
                      ("original_args", VObj [("image_path", VStr "/uploads/cat.png")])] in
  base_name "/uploads/cat.png" = "cat.png"
  /\ resolve_file [(VStr "cat.png", VStr "f1")] result = (VStr "cat.png", VStr "f1").
Proof.
  intros result.
  apply (path_argument_resolves [(VStr "cat.png", VStr "f1")] result "/uploads" "cat.png");
    try reflexivity; discriminate.
Defined.

(** ** Chunked upload: ranges, loop and settlement *)

Lemma ceil_div (a b : Z) :
  (0 <= a -> 0 < b -> - ((- a) / b) = (a + (b - 1)) / b)%Z.
Proof.
  intros Ha Hb.
  pose proof (Z.div_mod (- a) b ltac:(lia)) as H1.
  pose proof (Z.mod_pos_bound (- a) b Hb) as H2.
  pose proof (Z.div_mod (a + (b - 1)) b ltac:(lia)) as H3.
  pose proof (Z.mod_pos_bound (a + (b - 1)) b Hb) as H4.
  nia.
Qed.

Lemma chunk_count_div (size : N) :
  chunk_count size = ((size + (CHUNK_SIZE - 1)) / CHUNK_SIZE)%N.
Proof.
  unfold chunk_count, Qceiling, Qfloor, Qdiv, Qinv, Qmult, Qopp, inject_Z, CHUNK_SIZE.
  cbn [Qnum Qden Z.of_N].
  change (Z.pos (1 * 1048576)) with 1048576%Z. rewrite Z.mul_1_r.
  rewrite ceil_div by lia.
  apply N2Z.inj. rewrite Z2N.id by (apply Z.div_pos; lia).
  rewrite N2Z.inj_div, N2Z.inj_add. reflexivity.
Qed.

(** X22.  The byte ranges of the chunk loop, for a file of any size.  The
    number of chunks is 0 exactly for the empty file.  Every chunk is
    non-empty and at most [CHUNK_SIZE] bytes long; each chunk but the last
    ends where the next one starts; and the last chunk ends at the end of
    the file. *)
Theorem chunk_ranges_cover (size : N) :
  let n := chunk_count size in
  let start (i : N) := (i * CHUNK_SIZE)%N in
  let end_ (i : N) := N.min (start i + CHUNK_SIZE) size in
  (n = 0%N <-> size = 0%N)
  /\ (forall i, (i < n)%N -> (start i < end_ i)%N /\ (end_ i - start i <= CHUNK_SIZE)%N)
  /\ (forall i, (N.succ i < n)%N -> end_ i = start (N.succ i))
  /\ (forall i, N.succ i = n -> end_ i = size).
Proof.
  intros n start end_. subst n start end_. rewrite chunk_count_div.
  unfold CHUNK_SIZE. cbv beta.
  pose proof (N.div_mod' (size + (1048576 - 1)) 1048576) as Hdiv.
  pose proof (N.mod_lt (size + (1048576 - 1)) 1048576 ltac:(lia)) as Hmod.
  set (n := ((size + (1048576 - 1)) / 1048576)%N) in *.
  set (r := ((size + (1048576 - 1)) mod 1048576)%N) in *.
  repeat split; intros; lia.
Qed.

Section UploadLoop.
Context {rt : Runtime}.

Lemma transmit_open h message w ws :
  socket (manager w) = Some h ->
  sockets w !! h = Some ws ->
  readyState ws = OPEN ->
  send message w = transmit h message w.
Proof.
  intros Hs Hh Hopen. unfold send, socket_open. rewrite Hs, Hh.
  destruct (decide (readyState ws = OPEN)); [reflexivity|contradiction].
Qed.

(** X23.  The chunk loop on an open socket, for a file of any size.
    After [k] turns of the loop of a new upload with nothing else
    happening in between, and with [n] the number of chunks, the upload has
    reached chunk [min(k, n)]; the socket has been
    handed, after what it had sent before, the envelopes of the chunks 0 to
    [min(k, n) - 1] in that order, each once; and the message queue and the
    manager's socket are as before. *)
Theorem chunk_loop env (f : File.t) (w : World) (h : nat) (ws : WebSocket) :
  socket (manager w) = Some h ->
  sockets w !! h = Some ws ->
  readyState ws = OPEN ->
  let u := length (uploads w) in
  let n := chunk_count (File.size f) in
  let up0 := {| uploadId := fresh_id env "upload_" "_" 0; file := f;
                totalChunks := n; nextChunk := 0;
                listener := Some h; promise := Pending |} in
  forall k : nat,
    let wk := Nat.iter k (sendChunk u) (sendFile env f w) in
    let done_ := N.min (N.of_nat k) n in
    uploads wk !! u = Some (at_chunk up0 done_)
    /\ sockets wk !! h
       = Some {| readyState := OPEN;
                 sent := sent ws ++ map (fun i => chunk_envelope up0 (N.of_nat i))
                                        (seq 0 (N.to_nat done_)) |}
    /\ messageQueue (manager wk) = messageQueue (manager w)
    /\ socket (manager wk) = Some h.
Proof.
  intros Hs Hh Hopen u n up0 k.
  induction k as [|k IH]; cbv zeta.
  - unfold Nat.iter; cbn [nat_rect]. unfold sendFile. cbn [uploads sockets manager setTimeout on_timers on_uploads].
    rewrite Hs. subst u. rewrite lookup_app_r by lia. rewrite Nat.sub_diag.
    change (N.of_nat 0) with 0%N. rewrite N.min_0_l. cbn [N.to_nat seq map].
    rewrite app_nil_r. destruct ws as [st sn]. simpl in Hopen. subst st.
    repeat split; try reflexivity. exact Hh.
  - cbv zeta in IH. destruct IH as (Hup & Hsock & Hq & Hcur).
    rewrite Nat.iter_succ. set (wk := Nat.iter k (sendChunk u) (sendFile env f w)) in *.
    unfold sendChunk. rewrite Hup. cbn [nextChunk totalChunks at_chunk up0].
    destruct (N.ltb_spec (N.min (N.of_nat k) n) n) as [Hlt|Hge].
    + assert (Hk : N.min (N.of_nat k) n = N.of_nat k) by lia.
      assert (Hk' : N.min (N.of_nat (S k)) n = N.succ (N.of_nat k)) by lia.
      rewrite Hk' . rewrite Hk in *.
      rewrite (transmit_open h _ wk _ Hcur Hsock eq_refl).
      cbn [uploads sockets manager on_uploads transmit on_sockets].
      rewrite !list_lookup_alter_eq, Hup, Hsock.
      cbn [fmap option_fmap option_map]. split; [reflexivity|]. split.
      * rewrite N2Nat.inj_succ, Nat2N.id, seq_S, map_app, app_assoc.
        cbn [sent readyState]. reflexivity.
      * split; assumption.
    + assert (Hk : N.min (N.of_nat k) n = n) by lia.
      assert (Hk' : N.min (N.of_nat (S k)) n = n) by lia.
      rewrite Hk'. rewrite Hk in *. repeat split; assumption.
Qed.

Lemma settle_settled p up : promise up <> Pending -> settle p up = up.
Proof. unfold settle. destruct (promise up); [contradiction|reflexivity..]. Qed.

Lemma promise_removeListener w up : promise (removeListener w up) = promise up.
Proof.
  unfold removeListener.
  destruct (socket (manager w)), (listener up); try reflexivity.
  destruct (decide _); reflexivity.
Qed.

Lemma listener_removeListener w up :
  listener (removeListener w up)
  = if decide (socket (manager w) = listener up) then None else listener up.
Proof.
  unfold removeListener.
  destruct (socket (manager w)) as [h|], (listener up) as [h'|] eqn:El.
  - destruct (decide (h = h')) as [->|Hne].
    + destruct (decide (Some h' = Some h')); [reflexivity|contradiction].
    + destruct (decide (Some h = Some h')) as [[=]|]; [contradiction|first [exact El|reflexivity]].
  - destruct (decide (Some h = None)); [discriminate|first [exact El|reflexivity]].
  - destruct (decide (None = Some h')); [discriminate|first [exact El|reflexivity]].
  - destruct (decide (@None nat = None)); reflexivity.
Qed.

Lemma handleUploadResult_settled parsed w up :
  promise up <> Pending -> promise (handleUploadResult parsed w up) = promise up.
Proof.
  intros Hp. unfold handleUploadResult.
  destruct parsed as [data|]; [|reflexivity].
  destruct (nullish data); [reflexivity|].
  repeat match goal with
         | |- context [if ?b then _ else _] => destruct b
         end; try reflexivity;
    (rewrite settle_settled by (rewrite promise_removeListener; exact Hp));
    apply promise_removeListener.
Qed.

Lemma connect_uploads env c w : uploads (connect env c w) = uploads w.
Proof. reflexivity. Qed.

(** X24.  An upload is settled once.  When the promise of an upload is
    resolved or rejected, no message event on any socket and no timer that
    fires changes it: a late [upload_complete] or [error] and the 30 s
    timeout are without effect. *)
Theorem upload_settles_once (w : World) (u : nat) (up : Upload) :
  uploads w !! u = Some up ->
  promise up <> Pending ->
  (forall env h parsed,
     promise <$> uploads (message_event env h parsed w) !! u = Some (promise up))
  /\ (forall env i, promise <$> uploads (fire env i w) !! u = Some (promise up)).
Proof.
  intros Hu Hp. split.
  - intros env h parsed. unfold message_event. cbn [uploads on_uploads].
    rewrite lookup_map. unfold onmessage.
    destruct parsed as [data|]; [rewrite handler_uploads|]; rewrite Hu;
      cbn [fmap option_fmap option_map];
      destruct (decide _); try reflexivity;
      rewrite handleUploadResult_settled by exact Hp; reflexivity.
  - intros env i. unfold fire.
    destruct (timers w !! i) as [t|]; [|rewrite Hu; reflexivity].
    destruct (callback t) as [| |u'].
    + rewrite connect_uploads. cbn [uploads on_timers]. rewrite Hu. reflexivity.
    + rewrite connect_uploads. cbn [uploads on_timers]. rewrite Hu. reflexivity.
    + cbn [uploads on_uploads on_timers].
      destruct (decide (u' = u)) as [->|Hne].
      * rewrite list_lookup_alter_eq, Hu. cbn [fmap option_fmap option_map].
        rewrite settle_settled by (rewrite promise_removeListener; exact Hp).
        rewrite promise_removeListener. reflexivity.
      * rewrite list_lookup_alter_ne by exact Hne. rewrite Hu. reflexivity.
Qed.

(** X25.  When the timeout of an upload fires while the upload is
    pending, the promise is rejected with the timeout message; the listener
    is removed when the manager's socket is the one it was added to, and
    stays otherwise; the timer is gone; and the other uploads, the sockets,
    the manager and the store are unchanged. *)
Theorem upload_timeout_rejects env (w : World) (i u : nat) (t : Timer) (up : Upload) :
  timers w !! i = Some t ->
  callback t = UploadTimeout u ->
  uploads w !! u = Some up ->
  promise up = Pending ->
  let w' := fire env i w in
  (exists up',
     uploads w' !! u = Some up'
     /\ promise up' = Rejected (VStr "ファイルアップロードタイムアウト")
     /\ listener up'
        = (if decide (socket (manager w) = listener up) then None else listener up))
  /\ (forall u', u' <> u -> uploads w' !! u' = uploads w !! u')
  /\ timers w' = delete i (timers w)
  /\ sockets w' = sockets w
  /\ manager w' = manager w
  /\ store w' = store w.
Proof.
  intros Ht Hc Hu Hp w'. subst w'. unfold fire. rewrite Ht, Hc.
  cbn [uploads on_uploads on_timers timers sockets manager store].
  split; [|split; [|repeat split]].
  - rewrite list_lookup_alter_eq, Hu. cbn [fmap option_fmap option_map].
    eexists. split; [reflexivity|].
    unfold settle. rewrite promise_removeListener, Hp. cbn [promise listener].
    split; [reflexivity|].
    exact (listener_removeListener (on_timers (delete i) w) up).
  - intros u' Hne. apply list_lookup_alter_ne. congruence.
Qed.

(** X26.  An upload hears only the socket that was current when
    [sendFile] was called.  A message event on any other socket, the
    upload's own [upload_complete] included, leaves the upload as it was; in
    particular an upload started without a socket is changed by no message
    at all. *)
Theorem upload_ignores_other_sockets env (w : World) (u h : nat) (up : Upload)
  (parsed : option value) :
  uploads w !! u = Some up ->
  listener up <> Some h ->
  uploads (message_event env h parsed w) !! u = Some up.
Proof.
  intros Hu Hl. unfold message_event. cbn [uploads on_uploads].
  rewrite lookup_map. unfold onmessage.
  destruct parsed as [data|]; [rewrite handler_uploads|]; rewrite Hu;
    cbn [fmap option_fmap option_map];
    (destruct (decide _); [contradiction|reflexivity]).
Qed.

End UploadLoop.

Lemma chunk_loop_witness :
  let w := connected_world sample_env in
  let w5 := Nat.iter 5 (sendChunk 0) (sendFile sample_env sample_file w) in
  exists up frames,
    uploads w5 !! 0 = Some up
    /\ nextChunk up = 3%N
    /\ sockets w5 !! 0 = Some {| readyState := OPEN; sent := frames |}
    /\ length frames = 3.
Proof.
  intros w w5.
  destruct (chunk_loop sample_env sample_file w 0
              {| readyState := OPEN; sent := [] |} eq_refl eq_refl eq_refl 5)
    as (Hup & Hsent & _).
  do 2 eexists. split; [exact Hup|]. split; [reflexivity|].
  split; [exact Hsent|reflexivity].
Defined.

Lemma upload_settles_once_witness :
  let up := {| uploadId := "upload_1"; file := sample_file; totalChunks := 3;
               nextChunk := 3; listener := None; promise := Resolved (VStr "f1") |} in
  let w := on_timers (fun _ => [{| delay := 30000; callback := UploadTimeout 0 |}])
             (on_uploads (fun _ => [up]) (connected_world sample_env)) in
  promise <$> uploads (fire sample_env 0 w) !! 0 = Some (Resolved (VStr "f1")).
Proof.
  intros up w.
  destruct (upload_settles_once (rt := blind_runtime) w 0 up eq_refl) as (_ & Hfire).
  - discriminate.
  - exact (Hfire sample_env 0).
Defined.

Lemma upload_timeout_rejects_witness :
  let w := sendFile sample_env sample_file (connected_world sample_env) in
  exists up',
    uploads (fire sample_env 0 w) !! 0 = Some up'
    /\ promise up' = Rejected (VStr "ファイルアップロードタイムアウト")
    /\ listener up' = None.
Proof.
  intros w.
  destruct (upload_timeout_rejects sample_env w 0 0
              {| delay := 30000; callback := UploadTimeout 0 |}
              {| uploadId := fresh_id sample_env "upload_" "_" 0; file := sample_file;
                 totalChunks := 3; nextChunk := 0; listener := Some 0;
                 promise := Pending |} eq_refl eq_refl eq_refl eq_refl)
    as ((up' & Hup & Hpromise & Hlistener) & _).
  exists up'. split; [exact Hup|]. split; [exact Hpromise|exact Hlistener].
Defined.

Lemma upload_ignores_other_sockets_witness :
  let w := sendFile sample_env sample_file (connected_world sample_env) in
  let completed := VObj [("type", VStr "upload_complete");
                         ("upload_id", VStr (fresh_id sample_env "upload_" "_" 0));
                         ("file_id", VStr "f1")] in
  promise <$> uploads (message_event (rt := blind_runtime) sample_env 1 (Some completed) w)
                !! 0
  = Some Pending.
Proof.
  intros w completed.
  rewrite (upload_ignores_other_sockets (rt := blind_runtime) sample_env w 0 1
             {| uploadId := fresh_id sample_env "upload_" "_" 0; file := sample_file;
                totalChunks := 3; nextChunk := 0; listener := Some 0;
                promise := Pending |} (Some completed) eq_refl).
  - reflexivity.
  - discriminate.
Defined.

(** ** Connection handling: sending, stale sockets and manual reconnection *)

Section ConnectionSending.

Lemma delete_after {A} (l : list A) (x : A) (rest : list A) :
  delete (length l) (l ++ x :: rest) = l ++ rest.
Proof. induction l as [|a l IH]; simpl; [reflexivity|]. f_equal. exact IH. Qed.

(** X27.  Sending while the manager's socket is open.  The messages
    passed to [send] are handed to that socket in call order, after what it
    had sent before; the other sockets, the manager (its queue included),
    the store and the timers are unchanged. *)
Theorem sends_while_open (msgs : list ClientMessage) (w : World) (h : nat)
  (ws : WebSocket) :
  socket (manager w) = Some h ->
  sockets w !! h = Some ws ->
  readyState ws = OPEN ->
  let w' := fold_left (fun w message => send message w) msgs w in
  sockets w' !! h = Some {| readyState := OPEN; sent := sent ws ++ msgs |}
  /\ (forall h', h' <> h -> sockets w' !! h' = sockets w !! h')
  /\ manager w' = manager w
  /\ store w' = store w
  /\ timers w' = timers w.
Proof.
  revert w ws. induction msgs as [|message msgs IH]; intros w ws Hs Hh Hopen; cbv zeta.
  - cbn [fold_left]. rewrite app_nil_r. destruct ws as [st sn]. simpl in Hopen. subst st.
    repeat split; auto.
  - cbn [fold_left]. rewrite (transmit_open h message w ws Hs Hh Hopen).
    destruct (IH (transmit h message w)
                {| readyState := readyState ws; sent := sent ws ++ [message] |})
      as (Hsent & Hothers & Hm & Hst & Ht).
    + exact Hs.
    + cbn [sockets transmit on_sockets]. rewrite list_lookup_alter_eq, Hh. reflexivity.
    + exact Hopen.
    + rewrite Hsent, Hm, Hst, Ht. cbn [sent]. rewrite <- app_assoc.
      split; [reflexivity|]. split; [|repeat split].
      intros h' Hne. rewrite (Hothers h' Hne). cbn [sockets transmit on_sockets].
      apply list_lookup_alter_ne. congruence.
Qed.

(** X28.  The [open] event of a socket that is no longer the manager's.
    When the manager's current socket is another one that is not open, and
    messages are queued, the [onopen] handler does not return: it sets
    [connected], and [flushMessageQueue] then takes each message from the
    queue only for [send] to queue it again, so that no amount of fuel is
    enough. *)
Theorem stale_open_never_returns (w : World) (h h' : nat) (ws : WebSocket) :
  socket (manager w) = Some h' ->
  h <> h' ->
  sockets w !! h' = Some ws ->
  readyState ws <> OPEN ->
  messageQueue (manager w) <> [] ->
  forall fuel, onopen fuel h w = None.
Proof.
  intros Hs Hne Hh Hstate Hq fuel. unfold onopen. apply flush_spins.
  - reflexivity.
  - exact Hq.
  - unfold socket_open. cbn [manager sockets on_store on_manager set_readyState on_sockets
                             socket set_reconnectAttempts set_connected].
    rewrite Hs, list_lookup_alter_ne by exact Hne. rewrite Hh.
    destruct (decide (readyState ws = OPEN)); [contradiction|reflexivity].
Qed.

(** X29.  [reconnect()] followed by the close event of the socket it
    closed.  Two connection attempts are then pending, the manual one after
    100 ms and an automatic one after 1000 ms, with the reconnection counter
    at 1 and no current socket.  When both timers have fired, two new
    sockets are connecting and the manager holds the second; its client id
    is the one the manual attempt generated, which the automatic attempt
    was given; and the timers that were pending before are the only ones
    left. *)
Theorem reconnect_connects_twice env env' (w : World) (h : nat) (ws : WebSocket) :
  socket (manager w) = Some h ->
  sockets w !! h = Some ws ->
  let w1 := onclose h (reconnect w) in
  let i := length (timers w) in
  let w2 := fire env' i (fire env i w1) in
  timers w1 = timers w ++ [{| delay := 100; callback := ManualConnect |};
                           {| delay := 1000; callback := AutoReconnect |}]
  /\ reconnectAttempts (manager w1) = 1
  /\ socket (manager w1) = None
  /\ sockets w2 = alter (fun ws => {| readyState := CLOSED; sent := sent ws |}) h (sockets w)
                  ++ [{| readyState := CONNECTING; sent := [] |};
                      {| readyState := CONNECTING; sent := [] |}]
  /\ socket (manager w2) = Some (S (length (sockets w)))
  /\ clientId (manager w2) = fresh_id env "client_" "_" 0
  /\ timers w2 = timers w.
Proof.
  intros Hs Hh w1 i w2.
  assert (H1 : w1 = setTimeout AutoReconnect 1000
                 (on_manager (set_reconnectAttempts 1)
                   (on_store (Store.setConnectionStatus Store.disconnected)
                     (on_manager (set_connected false)
                       (set_readyState h CLOSED (reconnect w)))))).
  { unfold w1, onclose, handleReconnect. reflexivity. }
  assert (Ht : timers w1 = timers w ++ [{| delay := 100; callback := ManualConnect |};
                                        {| delay := 1000; callback := AutoReconnect |}]).
  { rewrite H1. unfold reconnect, disconnect. rewrite Hs.
    cbn [timers setTimeout on_timers on_manager on_store set_readyState on_sockets
         close_socket]. rewrite <- app_assoc. reflexivity. }
  split; [exact Ht|]. split; [rewrite H1; reflexivity|].
  split; [rewrite H1; unfold reconnect, disconnect; rewrite Hs; reflexivity|].
  assert (Hsock : sockets w1
                  = alter (fun ws => {| readyState := CLOSED; sent := sent ws |}) h (sockets w)).
  { rewrite H1. unfold reconnect, disconnect. rewrite Hs.
    cbn [sockets setTimeout on_timers on_manager on_store set_readyState on_sockets
         close_socket].
    apply list_eq. intros j. destruct (decide (j = h)) as [->|Hj].
    - rewrite !list_lookup_alter_eq, Hh. reflexivity.
    - rewrite !list_lookup_alter_ne by congruence. reflexivity. }
  assert (Hf1 : timers w1 !! i = Some {| delay := 100; callback := ManualConnect |}).
  { rewrite Ht. unfold i. rewrite lookup_app_r by lia. rewrite Nat.sub_diag. reflexivity. }
  assert (Hd1 : delete i (timers w1)
                = timers w ++ [{| delay := 1000; callback := AutoReconnect |}]).
  { rewrite Ht. unfold i. apply delete_after. }
  set (wa := fire env i w1) in *.
  assert (Ha : wa = connect env None (on_timers (delete i) w1)).
  { unfold wa, fire. rewrite Hf1. reflexivity. }
  assert (Hta : timers wa = timers w ++ [{| delay := 1000; callback := AutoReconnect |}]).
  { rewrite Ha. cbn [timers connect on_store on_manager on_sockets on_timers]. exact Hd1. }
  assert (Hf2 : timers wa !! i = Some {| delay := 1000; callback := AutoReconnect |}).
  { rewrite Hta. unfold i. rewrite lookup_app_r by lia. rewrite Nat.sub_diag. reflexivity. }
  assert (Hb : w2 = connect env' (Some (clientId (manager wa))) (on_timers (delete i) wa)).
  { unfold w2, fire. rewrite Hf2. reflexivity. }
  assert (Hid : clientId (manager wa) = fresh_id env "client_" "_" 0).
  { rewrite Ha. reflexivity. }
  rewrite Hb. cbn [sockets manager timers connect on_store on_manager on_sockets on_timers
                   socket set_socket clientId set_clientId].
  rewrite Hid. change (String.eqb (fresh_id env "client_" "_" 0) EmptyString) with false.
  cbv iota.
  assert (Hsa : sockets wa = sockets w1 ++ [{| readyState := CONNECTING; sent := [] |}]).
  { rewrite Ha. reflexivity. }
  rewrite Hsa, Hsock, <- app_assoc. split; [reflexivity|].
  split; [rewrite length_app, length_alter; cbn [length]; f_equal; lia|].
  split; [reflexivity|].
  rewrite Hta. unfold i. rewrite delete_after. apply app_nil_r.
Qed.

End ConnectionSending.

Lemma sends_while_open_witness :
  let w' := fold_left (fun w message => send message w) [ping; chat "hello" "session_1"]
              (connected_world sample_env) in
  sockets w' !! 0 = Some {| readyState := OPEN; sent := [ping; chat "hello" "session_1"] |}
  /\ manager w' = manager (connected_world sample_env).
Proof.
  intros w'.
  destruct (sends_while_open [ping; chat "hello" "session_1"] (connected_world sample_env)
              0 {| readyState := OPEN; sent := [] |} eq_refl eq_refl eq_refl)
    as (Hsent & _ & Hmanager & _).
  split; [exact Hsent|exact Hmanager].
Defined.

Lemma stale_open_never_returns_witness :
  let w := send ping (connect sample_env None (connect sample_env None boot)) in
  messageQueue (manager w) = [ping] /\ onopen 1000 0 w = None.
Proof.
  intros w. split; [reflexivity|].
  apply (stale_open_never_returns w 0 1 {| readyState := CONNECTING; sent := [] |});
    try reflexivity; discriminate.
Defined.

Lemma reconnect_connects_twice_witness :
  let w := connected_world sample_env in
  let w1 := onclose 0 (reconnect w) in
  let w2 := fire sample_env 0 (fire sample_env 0 w1) in
  timers w1 = [{| delay := 100; callback := ManualConnect |};
               {| delay := 1000; callback := AutoReconnect |}]
  /\ sockets w2 = [{| readyState := CLOSED; sent := [] |};
                   {| readyState := CONNECTING; sent := [] |};
                   {| readyState := CONNECTING; sent := [] |}]
  /\ socket (manager w2) = Some 2.
Proof.
  intros w w1 w2.
  destruct (reconnect_connects_twice sample_env sample_env w 0
              {| readyState := OPEN; sent := [] |} eq_refl eq_refl)
    as (Htimers & _ & _ & Hsockets & Hsocket & _).
  split; [exact Htimers|]. split; [exact Hsockets|exact Hsocket].
Defined.

(** ** The query client: retry delay *)

(** X30.  The retry delay of queries lies between 1000 and 30000 ms and
    never decreases with the attempt index; it doubles from one index to the
    next while the index is below 4 (1000, 2000, 4000, 8000, 16000), and is
    30000 ms from the index 5 on. *)
Theorem retryDelay_backoff (n : nat) :
  (1000 <= Query.retryDelay n <= 30000)%Z
  /\ (Query.retryDelay n <= Query.retryDelay (S n))%Z
  /\ (n < 4 -> Query.retryDelay (S n) = (2 * Query.retryDelay n)%Z)
  /\ (5 <= n -> Query.retryDelay n = 30000%Z).
Proof.
  unfold Query.retryDelay.
  assert (Hpos : (1 <= 2 ^ Z.of_nat n)%Z) by (apply Z.pow_le_mono_r with (b := 0%Z); lia).
  assert (Hs : (2 ^ Z.of_nat (S n) = 2 * 2 ^ Z.of_nat n)%Z).
  { rewrite Nat2Z.inj_succ, Z.pow_succ_r by lia. reflexivity. }
  rewrite Hs. repeat split; try lia.
  - intros Hn. destruct n as [|[|[|[|n]]]]; [reflexivity..|lia].
  - intros Hn.
    assert (32 <= 2 ^ Z.of_nat n)%Z
      by (change 32%Z with (2 ^ 5)%Z; apply Z.pow_le_mono_r; lia).
    lia.
Qed.
